(** * HTML template literals: lexical scanners, tag validation and fold ranges

    A shallow embedding of the TypeScript sources of the extension --
    [isInsideComment] of [src/utils.ts], the folding provider of
    [src/foldingProvider.ts] and the diagnostic provider
    ([updateDiagnostics], [extractTemplateContent],
    [replaceInterpolationsWithPlaceholders], [extractOuterTags],
    [findMatchingBrace], [validateHTML], [isSelfClosingTag]) -- and the
    properties of the specification checked against them.

    JavaScript strings are sequences of UTF-16 code units; they are modelled
    as lists of [N].  [s[i]] is [nth_error], whose [None] stands for
    [undefined].  Counters that the code decrements are kept in [Z].  A
    [while] loop is its body, a function from state to state or result, run
    by [Loop.while] with fuel; each loop is proved to end within the fuel
    it is given.  The regular expressions are syntax trees run by a
    backtracking matcher; the configured names, which the code pastes into
    their source, are read as pattern source.  What belongs to the editor
    is a parameter: the
    line of an offset of the document, the cancellation token. *)

From Stdlib Require Import List NArith ZArith Lia Bool String Ascii.
Import ListNotations.

(** [length] is the length of a list throughout. *)
Abbreviation length := Datatypes.length.

(* ================================================================== *)
(** * Definitions *)
(* ================================================================== *)

(** ** JavaScript strings *)
Module Js.

Definition str := list N.

(** A string literal of the source, as code units. *)
Fixpoint lit (s : string) : str :=
  match s with
  | EmptyString => []
  | String a s' => N_of_ascii a :: lit s'
  end.

Definition BACKSLASH : N := 92.
Definition BACKTICK : N := 96.
Definition DQUOTE : N := 34.
Definition SQUOTE : N := 39.
Definition DOLLAR : N := 36.
Definition LBRACE : N := 123.
Definition RBRACE : N := 125.
Definition SLASH : N := 47.
Definition STAR : N := 42.
Definition LT : N := 60.
Definition GT : N := 62.
Definition NEWLINE : N := 10.

(** [s[i]]: [None] is [undefined]. *)
Definition charAt (s : str) (i : nat) : option N := nth_error s i.

(** [i > 0 ? s[i - 1] : ''] *)
Definition prevCharAt (s : str) (i : nat) : option N :=
  if 0 <? i then charAt s (i - 1) else None.

(** [c === 'k'] for a one-character literal ['k']. *)
Definition isChar (c : option N) (k : N) : bool :=
  match c with
  | Some x => N.eqb x k
  | None => false
  end.

(** [c === d] where [c] is [s[i]] and [d] is a variable holding a
    character or the empty string (the [None] on the right); [undefined]
    and [''] are equal to nothing here. *)
Definition same (c d : option N) : bool :=
  match c, d with
  | Some x, Some y => N.eqb x y
  | _, _ => false
  end.

(** [s.substring(a, b)]: both ends clamped to the length, swapped when
    [a > b]. *)
Definition substring (s : str) (a b : nat) : str :=
  let a' := Nat.min a (length s) in
  let b' := Nat.min b (length s) in
  firstn (Nat.max a' b' - Nat.min a' b') (skipn (Nat.min a' b') s).

(** [s.substring(a)]. *)
Definition substringFrom (s : str) (a : nat) : str := skipn a s.

Definition eqb (s t : str) : bool :=
  if list_eq_dec N.eq_dec s t then true else false.

(** [s.startsWith(p)] *)
Fixpoint startsWith (s p : str) {struct p} : bool :=
  match p, s with
  | [], _ => true
  | x :: p', y :: s' => N.eqb x y && startsWith s' p'
  | _ :: _, [] => false
  end.

(** [s.endsWith(p)] *)
Definition endsWith (s p : str) : bool := startsWith (rev s) (rev p).

(** [l.join(sep)] *)
Fixpoint join (sep : str) (l : list str) : str :=
  match l with
  | [] => []
  | [s] => s
  | s :: l' => s ++ sep ++ join sep l'
  end.

End Js.
Import Js.

(** ** [while] loops

    One iteration either goes on with a new state or leaves the function
    with a value ([return] inside the loop).  [while] runs at most [fuel]
    iterations; [None] means that the fuel ran out.  [visited] lists the
    states in which the loop body was entered. *)
Module Loop.

Inductive step (St R : Type) : Type :=
| Next (s : St)
| Done (r : R).
Arguments Next {St R} s.
Arguments Done {St R} r.

Section While.
Context {St R : Type}.
Variable cond : St -> bool.
Variable body : St -> step St R.
Variable after : St -> R.

Fixpoint while (fuel : nat) (s : St) : option R :=
  match fuel with
  | O => None
  | S n =>
      if cond s then
        match body s with
        | Next s' => while n s'
        | Done r => Some r
        end
      else Some (after s)
  end.

Fixpoint visited (fuel : nat) (s : St) : list St :=
  match fuel with
  | O => []
  | S n =>
      if cond s then
        s :: match body s with
             | Next s' => visited n s'
             | Done _ => []
             end
      else []
  end.
End While.

End Loop.
Import Loop.

(** ** [src/foldingProvider.ts]: the closing backtick *)
Module Folding.

(** The local variables of [findClosingBacktick]. *)
Record FState := mkF {
  f_i : nat;
  f_depth : Z;
  f_inString : bool;
  f_stringChar : option N
}.

Definition findClosingBacktick_init (startPos : nat) : FState :=
  mkF startPos 1 false None.

(** [while (i < text.length && depth > 0)] *)
Definition findClosingBacktick_cond (text : str) (st : FState) : bool :=
  (f_i st <? length text) && (0 <? f_depth st)%Z.

(** [prevChar === '\\']: the character at [i] is skipped as escaped. *)
Definition findClosingBacktick_escaped (text : str) (st : FState) : bool :=
  isChar (prevCharAt text (f_i st)) BACKSLASH.

(** One iteration.  The first component lists the indices at which
    [text] is read during the iteration: [text[i]], [text[i - 1]] under
    its guard [i > 0], and [text[i + 1]] when the [&&] chain gets to it. *)
Definition findClosingBacktick_body (text : str) (st : FState)
  : list nat * step FState Z :=
  let i := f_i st in
  let depth := f_depth st in
  let char := charAt text i in
  let rd := i :: (if 0 <? i then [i - 1] else []) in
  if findClosingBacktick_escaped text st then
    (rd, Next (mkF (i + 1) depth (f_inString st) (f_stringChar st)))
  else
    let '(inString, stringChar) :=
      if negb (f_inString st) && (isChar char DQUOTE || isChar char SQUOTE)
      then (true, char)
      else if f_inString st && same char (f_stringChar st)
           then (false, None)
           else (f_inString st, f_stringChar st) in
    if negb inString then
      if isChar char BACKTICK then
        let depth' := (depth - 1)%Z in
        if (depth' =? 0)%Z then (rd, Done (Z.of_nat i))
        else (rd, Next (mkF (i + 1) depth' inString stringChar))
      else
        let rd' :=
          if isChar char DOLLAR && (i + 1 <? length text)
          then rd ++ [i + 1] else rd in
        if isChar char DOLLAR && (i + 1 <? length text)
           && isChar (charAt text (i + 1)) LBRACE
        then (rd', Next (mkF (i + 1 + 1) (depth + 1)%Z inString stringChar))
        else if isChar char RBRACE && (1 <? depth)%Z
             then (rd', Next (mkF (i + 1) (depth - 1)%Z inString stringChar))
             else (rd', Next (mkF (i + 1) depth inString stringChar))
    else (rd, Next (mkF (i + 1) depth inString stringChar)).

Definition findClosingBacktick_step (text : str) (st : FState)
  : step FState Z := snd (findClosingBacktick_body text st).

Definition findClosingBacktick_reads (text : str) (st : FState)
  : list nat := fst (findClosingBacktick_body text st).

(** [findClosingBacktick(text, startPos)]; the loop gets one unit of fuel
    per character and one more. *)
Definition findClosingBacktick (text : str) (startPos : nat) : option Z :=
  while (findClosingBacktick_cond text) (findClosingBacktick_step text)
    (fun _ => (-1)%Z) (S (length text)) (findClosingBacktick_init startPos).

(** The states of the run, in order. *)
Definition findClosingBacktick_states (text : str) (startPos : nat)
  : list FState :=
  visited (findClosingBacktick_cond text) (findClosingBacktick_step text)
    (S (length text)) (findClosingBacktick_init startPos).

End Folding.

(** ** Regular expressions

    The regular expressions of the source are kept as syntax trees and run
    by a backtracking matcher with JavaScript's order of preference:
    alternatives from left to right, greedy repetition longest first, lazy
    repetition shortest first, the leftmost starting position first. *)
Module Regex.

Inductive re : Type :=
| Eps                              (* the empty pattern *)
| Cls (p : N -> bool)              (* one character of a class *)
| Cat (a b : re)                   (* [ab] *)
| Alt (a b : re)                   (* [a|b] *)
| Rep (greedy : bool) (a : re)     (* [a*] and [a*?] *)
| Grp (k : nat) (a : re)           (* the [k]-th capturing group *)
| WordB                            (* [\b] *)
| Bol                              (* [^] *)
| Eol.                             (* [$] *)

(** The span [(start, end)] of each group that took part in the match. *)
Definition captures := list (nat * (nat * nat)).

Fixpoint group (k : nat) (caps : captures) : option (nat * nat) :=
  match caps with
  | [] => None
  | (k', span) :: rest => if k =? k' then Some span else group k rest
  end.

Definition between (lo hi c : N) : bool := (lo <=? c)%N && (c <=? hi)%N.

(** [[a-zA-Z]] *)
Definition alpha (c : N) : bool := between 97 122 c || between 65 90 c.
(** [[0-9]] *)
Definition digit (c : N) : bool := between 48 57 c.
(** [\w] *)
Definition word (c : N) : bool := alpha c || digit c || N.eqb c 95.
(** [\s]: white space and line terminators. *)
Definition space (c : N) : bool :=
  between 9 13 c || N.eqb c 32 || N.eqb c 160 || N.eqb c 5760
  || between 8192 8202 c || N.eqb c 8232 || N.eqb c 8233 || N.eqb c 8239
  || N.eqb c 8287 || N.eqb c 12288 || N.eqb c 65279.

Definition chr (k : N) : re := Cls (N.eqb k).
Definition opt (a : re) : re := Alt a Eps.
Definition star (a : re) : re := Rep true a.

(** A literal string. *)
Fixpoint str_re (s : str) : re :=
  match s with
  | [] => Eps
  | c :: s' => Cat (chr c) (str_re s')
  end.

(** [a|b|...]; the empty alternation is the empty pattern, like [(?:)]. *)
Fixpoint alts (l : list re) : re :=
  match l with
  | [] => Eps
  | [a] => a
  | a :: l' => Alt a (alts l')
  end.

Definition isWord (c : option N) : bool :=
  match c with Some x => word x | None => false end.

(** [\b] holds at [i] when exactly one of the characters around [i] is a
    word character. *)
Definition wordBoundary (text : str) (i : nat) : bool :=
  xorb (isWord (prevCharAt text i)) (isWord (charAt text i)).

Section Match.
Context {A : Type}.
Variable text : str.

(** The repetition of [step], which matches the repeated pattern once: as
    often as possible first when greedy, as rarely as possible first when
    lazy.  An iteration that consumes nothing is refused. *)
Fixpoint iterate
  (step : nat -> captures -> (nat -> captures -> option A) -> option A)
  (greedy : bool) (k : nat -> captures -> option A)
  (fuel : nat) (i : nat) (caps : captures) : option A :=
  match fuel with
  | O => k i caps
  | S fuel' =>
      let more :=
        step i caps
          (fun j caps' =>
             if j <=? i then None else iterate step greedy k fuel' j caps') in
      if greedy then
        match more with
        | Some x => Some x
        | None => k i caps
        end
      else
        match k i caps with
        | Some x => Some x
        | None => more
        end
  end.

(** [rmatch r i caps k]: match [r] at [i], then go on with [k]; [None] is
    failure, which makes the caller try its next choice. *)
Fixpoint rmatch (r : re) (i : nat) (caps : captures)
  (k : nat -> captures -> option A) {struct r} : option A :=
  match r with
  | Eps => k i caps
  | Cls p =>
      match charAt text i with
      | Some c => if p c then k (i + 1) caps else None
      | None => None
      end
  | Cat a b => rmatch a i caps (fun j caps' => rmatch b j caps' k)
  | Alt a b =>
      match rmatch a i caps k with
      | Some x => Some x
      | None => rmatch b i caps k
      end
  | Rep greedy a => iterate (rmatch a) greedy k (S (length text)) i caps
  | Grp n a => rmatch a i caps (fun j caps' => k j ((n, (i, j)) :: caps'))
  | WordB => if wordBoundary text i then k i caps else None
  | Bol => if i =? 0 then k i caps else None
  | Eol => if i =? length text then k i caps else None
  end.
End Match.

(** One match: where it starts, where it ends, its groups. *)
Record found := mkFound {
  m_index : nat;
  m_end : nat;
  m_groups : captures
}.

Definition matchAt (r : re) (text : str) (i : nat) : option found :=
  rmatch text r i [] (fun j caps => Some (mkFound i j caps)).

(** [regex.exec(text)] with [lastIndex = i]: the leftmost match at or after
    [i]. *)
Fixpoint search (fuel : nat) (r : re) (text : str) (i : nat) : option found :=
  match matchAt r text i with
  | Some m => Some m
  | None =>
      match fuel with
      | O => None
      | S fuel' =>
          if i <? length text then search fuel' r text (i + 1) else None
      end
  end.

Definition exec (r : re) (text : str) (lastIndex : nat) : option found :=
  search (length text) r text lastIndex.

(** The matches of a global regular expression, left to right, each search
    starting where the match before ended.  The regular expressions of the
    source all end in a literal character, so their matches are never
    empty; the list stops at an empty match. *)
Fixpoint matches (fuel : nat) (r : re) (text : str) (i : nat) : list found :=
  match fuel with
  | O => []
  | S fuel' =>
      match exec r text i with
      | None => []
      | Some m =>
          if m_end m <=? i then [m]
          else m :: matches fuel' r text (m_end m)
      end
  end.

Definition execAll (r : re) (text : str) : list found :=
  matches (S (length text)) r text 0.

(** [match[0]] and [match[k]]. *)
Definition matched (text : str) (m : found) : str :=
  substring text (m_index m) (m_end m).

Definition groupText (text : str) (m : found) (k : nat) : option str :=
  match group k (m_groups m) with
  | Some (a, b) => Some (substring text a b)
  | None => None
  end.

(** [text.replace(r, f)] for a global [r] and a function [f]. *)
Fixpoint replaceFrom (f : found -> str) (text : str) (i : nat)
  (ms : list found) : str :=
  match ms with
  | [] => substringFrom text i
  | m :: ms' =>
      substring text i (m_index m) ++ f m ++ replaceFrom f text (m_end m) ms'
  end.

Definition replaceAll (r : re) (text : str) (f : found -> str) : str :=
  replaceFrom f text 0 (execAll r text).

(** *** The regular expressions of the source *)

Definition ws : re := star (Cls space).

(** [[a-zA-Z_$][a-zA-Z0-9_$]*] *)
Definition identifier : re :=
  Cat (Cls (fun c => alpha c || N.eqb c 95 || N.eqb c DOLLAR))
      (star (Cls (fun c => alpha c || digit c || N.eqb c 95 || N.eqb c DOLLAR))).

(** [/\*\s*html\s*\*/\s*] *)
Definition annotation : re :=
  Cat (str_re (lit "/*")) (Cat ws (Cat (str_re (lit "html"))
    (Cat ws (Cat (str_re (lit "*/")) ws)))).

(** *** The source of a pattern

    The configured names are pasted into the source of the regular
    expressions, [tagPatterns.join('|')] inside [(?:...)], so a character
    of a name is read as [new RegExp] reads it.  What is read here: [|]
    separates alternatives, [.] is any character but a line terminator,
    [^] and [$] are the assertions of the beginning and of the end of the
    text (no flag [m]), and a character that is no syntax character
    stands for itself.  The further syntax characters -- the backslash,
    the quantifiers [*], [+], [?], [{], and the brackets [(], [)], [[] --
    are not interpreted: a source that holds one of them is outside of
    what is modelled ([literalName] and [readable] are [false] of it),
    and no statement below is made about it. *)

Definition BAR : N := 124.
Definition DOT : N := 46.
Definition CARET : N := 94.

(** [\n], [\r], [\u2028], [\u2029] *)
Definition lineTerminator (c : N) : bool :=
  N.eqb c 10 || N.eqb c 13 || N.eqb c 8232 || N.eqb c 8233.

(** One character of a source between two [|]. *)
Definition term (c : N) : re :=
  if N.eqb c DOT then Cls (fun d => negb (lineTerminator d))
  else if N.eqb c CARET then Bol
  else if N.eqb c DOLLAR then Eol
  else chr c.

Fixpoint terms (s : str) : re :=
  match s with
  | [] => Eps
  | c :: s' => Cat (term c) (terms s')
  end.

(** The texts between the [|] of a source. *)
Fixpoint alternatives (source : str) : list str :=
  match source with
  | [] => [[]]
  | c :: source' =>
      if N.eqb c BAR then [] :: alternatives source'
      else
        match alternatives source' with
        | a :: l => (c :: a) :: l
        | [] => [[c]]
        end
  end.

(** [(?:source)] *)
Definition pattern (source : str) : re :=
  alts (map terms (alternatives source)).

(** The syntax characters [^ $ \ . * + ? ( ) [ ] { } |]. *)
Definition syntaxChar (c : N) : bool :=
  existsb (N.eqb c) (lit "^$\.*+?()[]{}|").

(** A source that holds none of the syntax characters that are not
    interpreted. *)
Definition readable (source : str) : bool :=
  forallb (fun c => negb (existsb (N.eqb c) (lit "\*+?()[{"))) source.

(** A name in which every character stands for itself. *)
Definition literalName (name : str) : bool :=
  forallb (fun c => negb (syntaxChar c)) name.

(** [(?:tagPattern)\s*] where [tagPattern] is [tagPatterns.join('|')]. *)
Definition leaderNames (tagPatterns : list str) : re :=
  Cat (pattern (join [BAR] tagPatterns)) ws.

(** [\b[a-zA-Z_$][a-zA-Z0-9_$]*\s*/\*\s*html\s*\*/\s*] *)
Definition annotatedName : re :=
  Cat WordB (Cat identifier (Cat ws annotation)).

(** The regular expression of [provideFoldingRanges]. *)
Definition foldingRegex (tagPatterns : list str) : re :=
  Cat (Grp 1 (Alt (leaderNames tagPatterns) annotatedName)) (chr BACKTICK).

(** The regular expression of [updateDiagnostics] and of the search for
    nested templates in [validateHTML]. *)
Definition leaderRegex (tagPatterns : list str) : re :=
  Cat (Grp 1 (Alt (leaderNames tagPatterns) (Alt annotatedName annotation)))
      (chr BACKTICK).

(** The regular expression of the replacement in [validateHTML]: the same
    three leaders, then [([\s\S]*?)] and the backtick. *)
Definition nestedRegex (tagPatterns : list str) : re :=
  Cat (Grp 1 (Alt (leaderNames tagPatterns) (Alt annotatedName annotation)))
      (Cat (Grp 2 (Rep false (Cls (fun _ => true)))) (chr BACKTICK)).

(** [/(\b[a-zA-Z_$][a-zA-Z0-9_$]*\s*\/\*\s*html\s*\*\/\s*|html|dom)\s*`/]
    of [extractOuterTags]. *)
Definition outerNestedRegex : re :=
  Cat (Grp 1 (Alt annotatedName
                (Alt (str_re (lit "html")) (str_re (lit "dom")))))
      (Cat ws (chr BACKTICK)).

(** [[a-zA-Z][a-zA-Z0-9]*] *)
Definition tagName : re :=
  Cat (Cls alpha) (star (Cls (fun c => alpha c || digit c))).

Definition notGt : re := Cls (fun c => negb (N.eqb c GT)).

(** The tag pattern of [validateHTML]: [<], an optional [/], the captured
    name [[a-zA-Z][a-zA-Z0-9]*], then [[^>]*] and [>]. *)
Definition tagRegex : re :=
  Cat (chr LT) (Cat (opt (chr SLASH)) (Cat (Grp 1 tagName)
    (Cat (star notGt) (chr GT)))).

(** The opening-tag pattern of [extractOuterTags]: [^], [<], the captured
    name, then [[^>]*] and [>]. *)
Definition openTagRegex : re :=
  Cat Bol (Cat (chr LT) (Cat (Grp 1 tagName) (Cat (star notGt) (chr GT)))).

End Regex.

(** ** [src/utils.ts]: the comment-membership query *)
Module Utils.

(** The local variables of [isInsideComment]. *)
Record CState := mkC {
  c_i : nat;
  c_inComment : bool;
  c_inString : bool;
  c_inTemplateString : bool;
  c_templateDepth : Z;
  c_stringChar : option N
}.

Definition isInsideComment_init : CState :=
  mkC 0 false false false 0 None.

(** [while (i < beforeText.length)] *)
Definition isInsideComment_cond (beforeText : str) (st : CState) : bool :=
  c_i st <? length beforeText.

(** [char === '\\' && (inString || inTemplateString)]: the character at
    [i] is a backslash that escapes the character after it. *)
Definition isInsideComment_escapes (beforeText : str) (st : CState) : bool :=
  isChar (charAt beforeText (c_i st)) BACKSLASH
  && (c_inString st || c_inTemplateString st).

(** One iteration; every path ends in [continue] or in the final [i++]. *)
Definition isInsideComment_step (beforeText : str) (st : CState)
  : step CState bool :=
  let i := c_i st in
  let inComment := c_inComment st in
  let inString := c_inString st in
  let inTemplateString := c_inTemplateString st in
  let templateDepth := c_templateDepth st in
  let stringChar := c_stringChar st in
  let char := charAt beforeText i in
  let nextChar := charAt beforeText (i + 1) in
  let comments :=
    if negb inString then
      if isChar char SLASH && isChar nextChar STAR then
        Next (mkC (i + 2) true inString inTemplateString templateDepth stringChar)
      else if isChar char STAR && isChar nextChar SLASH then
        Next (mkC (i + 2) false inString inTemplateString templateDepth stringChar)
      else
        Next (mkC (i + 1) inComment inString inTemplateString templateDepth stringChar)
    else
      Next (mkC (i + 1) inComment inString inTemplateString templateDepth stringChar) in
  let templates :=
    if negb inComment && negb inString then
      if isChar char BACKTICK then
        let inTemplateString' := negb inTemplateString in
        let templateDepth' := if negb inTemplateString' then 0%Z else templateDepth in
        Next (mkC (i + 1) inComment inString inTemplateString' templateDepth' stringChar)
      else if inTemplateString then
        if isChar char DOLLAR && isChar nextChar LBRACE then
          Next (mkC (i + 2) inComment inString inTemplateString (templateDepth + 1)%Z stringChar)
        else if isChar char RBRACE && (0 <? templateDepth)%Z then
          Next (mkC (i + 1) inComment inString inTemplateString (templateDepth - 1)%Z stringChar)
        else comments
      else comments
    else comments in
  if isInsideComment_escapes beforeText st then
    Next (mkC (i + 2) inComment inString inTemplateString templateDepth stringChar)
  else if negb inComment && negb inTemplateString then
    if negb inString && (isChar char DQUOTE || isChar char SQUOTE) then
      Next (mkC (i + 1) inComment true inTemplateString templateDepth char)
    else if inString && same char stringChar then
      Next (mkC (i + 1) inComment false inTemplateString templateDepth stringChar)
    else templates
  else templates.

(** The whole loop from an arbitrary state, and its states. *)
Definition isInsideComment_from (beforeText : str) (fuel : nat) (st : CState)
  : option bool :=
  while (isInsideComment_cond beforeText) (isInsideComment_step beforeText)
    c_inComment fuel st.

Definition isInsideComment_states (beforeText : str) (fuel : nat) (st : CState)
  : list CState :=
  visited (isInsideComment_cond beforeText) (isInsideComment_step beforeText)
    fuel st.

(** [isInsideComment(text, position)] *)
Definition isInsideComment (text : str) (position : nat) : option bool :=
  let beforeText := substring text 0 position in
  isInsideComment_from beforeText (S (length beforeText)) isInsideComment_init.

End Utils.

(** ** The diagnostic provider: scanning *)
Module Diagnostics.

(** The local variables of [extractTemplateContent]. *)
Record EState := mkE {
  e_i : nat;
  e_depth : Z;
  e_inString : bool;
  e_inNestedTemplate : bool;
  e_stringChar : option N
}.

Definition extractTemplateContent_init (startPos : nat) : EState :=
  mkE startPos 0 false false None.

(** [while (i < text.length)] *)
Definition extractTemplateContent_cond (text : str) (st : EState) : bool :=
  e_i st <? length text.

(** [prevChar === "\\" && (inString || inNestedTemplate)]: the character at
    [i] is skipped as escaped. *)
Definition extractTemplateContent_escaped (text : str) (st : EState) : bool :=
  isChar (prevCharAt text (e_i st)) BACKSLASH
  && (e_inString st || e_inNestedTemplate st).

(** One iteration; [Done (Some _)] is [return text.substring(startPos, i)]. *)
Definition extractTemplateContent_step (text : str) (startPos : nat)
  (st : EState) : step EState (option str) :=
  let i := e_i st in
  let depth := e_depth st in
  let inString := e_inString st in
  let inNestedTemplate := e_inNestedTemplate st in
  let stringChar := e_stringChar st in
  let char := charAt text i in
  let nextChar := charAt text (i + 1) in
  let braces :=
    let depth' :=
      if negb inString && negb inNestedTemplate then
        if isChar char LBRACE then (depth + 1)%Z
        else if isChar char RBRACE then
               if (0 <? depth)%Z then (depth - 1)%Z else depth
             else depth
      else depth in
    if isChar char BACKTICK && (depth' =? 0)%Z && negb inNestedTemplate then
      Done (Some (substring text startPos i))
    else Next (mkE (i + 1) depth' inString inNestedTemplate stringChar) in
  let interpolation :=
    if negb inString && negb inNestedTemplate
       && isChar char DOLLAR && isChar nextChar LBRACE then
      Next (mkE (i + 2) (depth + 1)%Z inString inNestedTemplate stringChar)
    else braces in
  let nested :=
    if (0 <? depth)%Z && negb inString && isChar char BACKTICK then
      Next (mkE (i + 1) depth inString (negb inNestedTemplate) stringChar)
    else interpolation in
  if extractTemplateContent_escaped text st then
    Next (mkE (i + 1) depth inString inNestedTemplate stringChar)
  else if (0 <? depth)%Z && negb inNestedTemplate then
    if negb inString && (isChar char DQUOTE || isChar char SQUOTE) then
      Next (mkE (i + 1) depth true inNestedTemplate char)
    else if inString && same char stringChar then
      Next (mkE (i + 1) depth false inNestedTemplate stringChar)
    else nested
  else nested.

Definition extractTemplateContent_from (text : str) (startPos : nat)
  (fuel : nat) (st : EState) : option (option str) :=
  while (extractTemplateContent_cond text)
    (extractTemplateContent_step text startPos) (fun _ => None) fuel st.

Definition extractTemplateContent_states (text : str) (startPos : nat)
  (fuel : nat) (st : EState) : list EState :=
  visited (extractTemplateContent_cond text)
    (extractTemplateContent_step text startPos) fuel st.

(** [extractTemplateContent(text, startPos)]: the inner [None] is [null]. *)
Definition extractTemplateContent (text : str) (startPos : nat)
  : option (option str) :=
  extractTemplateContent_from text startPos (S (length text))
    (extractTemplateContent_init startPos).

(** *** [replaceInterpolationsWithPlaceholders] *)

(** The variables of the inner loop, which looks for the closing brace. *)
Record RState := mkR {
  r_i : nat;
  r_depth : Z;
  r_interpolationContent : str;
  r_inString : bool;
  r_inTemplate : bool;
  r_stringChar : option N
}.

(** [while (i < result.length && depth > 0)] *)
Definition matchBrace_cond (result : str) (st : RState) : bool :=
  (r_i st <? length result) && (0 <? r_depth st)%Z.

(** One iteration of the inner loop; [Done] is the [break]. *)
Definition matchBrace_step (result : str) (st : RState)
  : step RState RState :=
  let i := r_i st in
  let depth := r_depth st in
  let content := r_interpolationContent st in
  let char := charAt result i in
  let push (c : option N) (l : str) : str :=
    match c with Some x => l ++ [x] | None => l end in
  if isChar char BACKSLASH && (r_inString st || r_inTemplate st) then
    let content1 := push char content in
    let i1 := i + 1 in
    if i1 <? length result then
      Next (mkR (i1 + 1) depth (push (charAt result i1) content1)
              (r_inString st) (r_inTemplate st) (r_stringChar st))
    else
      Next (mkR i1 depth content1
              (r_inString st) (r_inTemplate st) (r_stringChar st))
  else
    let '(inString, stringChar) :=
      if negb (r_inTemplate st) then
        if negb (r_inString st) && (isChar char DQUOTE || isChar char SQUOTE)
        then (true, char)
        else if r_inString st && same char (r_stringChar st)
             then (false, r_stringChar st)
             else (r_inString st, r_stringChar st)
      else (r_inString st, r_stringChar st) in
    let inTemplate :=
      if negb inString && isChar char BACKTICK
      then negb (r_inTemplate st) else r_inTemplate st in
    if negb inString && negb inTemplate then
      if isChar char LBRACE then
        Next (mkR (i + 1) (depth + 1)%Z (push char content)
                inString inTemplate stringChar)
      else if isChar char RBRACE then
        if (depth - 1 =? 0)%Z then
          Done (mkR i (depth - 1)%Z content inString inTemplate stringChar)
        else
          Next (mkR (i + 1) (depth - 1)%Z (push char content)
                  inString inTemplate stringChar)
      else
        Next (mkR (i + 1) depth (push char content)
                inString inTemplate stringChar)
    else
      Next (mkR (i + 1) depth (push char content)
              inString inTemplate stringChar).

(** The state in which the inner loop is entered, just after [${]. *)
Definition matchBrace_init (i : nat) : RState := mkR i 1 [] false false None.

Definition matchBrace (result : str) (fuel : nat) (st : RState)
  : option RState :=
  while (matchBrace_cond result) (matchBrace_step result) (fun s => s) fuel st.

Definition matchBrace_states (result : str) (fuel : nat) (st : RState)
  : list RState :=
  visited (matchBrace_cond result) (matchBrace_step result) fuel st.

Definition PLACEHOLDER : str := lit "placeholder".

(** The variables of the outer loop: [result] and [i]. *)
Definition replace_cond (st : str * nat) : bool :=
  snd st <? length (fst st).

(** One iteration of the outer loop.  [Done None] stands for an inner loop
    that ran out of fuel. *)
Definition replace_step (st : str * nat) : step (str * nat) (option str) :=
  let '(result, i) := st in
  if isChar (charAt result i) DOLLAR && isChar (charAt result (i + 1)) LBRACE
  then
    let startPos := i in
    match matchBrace result (S (length result)) (matchBrace_init (i + 2)) with
    | None => Done None
    | Some inner =>
        if (r_depth inner =? 0)%Z then
          Next (substring result 0 startPos ++ PLACEHOLDER
                  ++ substringFrom result (r_i inner + 1),
                startPos + length PLACEHOLDER)
        else Next (result, r_i inner + 1)
    end
  else Next (result, i + 1).

Definition replaceInterpolationsWithPlaceholders (html : str) : option str :=
  match while replace_cond replace_step (fun st => Some (fst st))
          (S (length html)) (html, 0) with
  | Some r => r
  | None => None
  end.

End Diagnostics.

(** ** The diagnostic provider: validation *)
Module Validator.
Import Regex Diagnostics.

(** The scanning loops always end (see [ScanTotal] below); their values are
    used directly here. *)
Definition extractTemplateContent' (text : str) (startPos : nat) : option str :=
  match extractTemplateContent text startPos with
  | Some r => r
  | None => None
  end.

Definition isInsideComment' (text : str) (position : nat) : bool :=
  match Utils.isInsideComment text position with
  | Some b => b
  | None => false
  end.

Definition replaceInterpolationsWithPlaceholders' (html : str) : str :=
  match replaceInterpolationsWithPlaceholders html with
  | Some r => r
  | None => html
  end.

(** [s.trim()] *)
Fixpoint trimStart (s : str) : str :=
  match s with
  | c :: s' => if space c then trimStart s' else s
  | [] => []
  end.

Definition trim (s : str) : str := rev (trimStart (rev (trimStart s))).

(** [s.indexOf("`", from)], [None] for [-1]. *)
Fixpoint indexOfFrom (k : N) (s : str) (from : nat) (fuel : nat) : option nat :=
  match fuel with
  | O => None
  | S fuel' =>
      match charAt s from with
      | Some c => if N.eqb c k then Some from else indexOfFrom k s (from + 1) fuel'
      | None => None
      end
  end.

Definition indexOf (k : N) (s : str) (from : nat) : option nat :=
  indexOfFrom k s from (length s).

(** [s.includes("${")] *)
Fixpoint includesInterpolation (s : str) : bool :=
  match s with
  | c :: s' =>
      (N.eqb c DOLLAR && match s' with d :: _ => N.eqb d LBRACE | [] => false end)
      || includesInterpolation s'
  | [] => false
  end.

(** [s.toLowerCase()] on the letters A to Z; the names it is applied to are
    captured by [[a-zA-Z][a-zA-Z0-9]*]. *)
Definition toLowerCase (s : str) : str :=
  map (fun c => if between 65 90 c then (c + 32)%N else c) s.

(** *** [findMatchingBrace] *)

(** [while (i < text.length && depth > 0)] over [(i, depth)]. *)
Definition findMatchingBrace_cond (text : str) (st : nat * Z) : bool :=
  (fst st <? length text) && (0 <? snd st)%Z.

Definition findMatchingBrace_step (text : str) (st : nat * Z)
  : step (nat * Z) Z :=
  let '(i, depth) := st in
  if isChar (charAt text i) LBRACE then Next (i + 1, (depth + 1)%Z)
  else if isChar (charAt text i) RBRACE then
    if (depth - 1 =? 0)%Z then Done (Z.of_nat i)
    else Next (i + 1, (depth - 1)%Z)
  else Next (i + 1, depth).

Definition findMatchingBrace (text : str) (startPos : nat) : option Z :=
  while (findMatchingBrace_cond text) (findMatchingBrace_step text)
    (fun _ => (-1)%Z) (S (length text)) (startPos + 1, 1%Z).

Definition findMatchingBrace' (text : str) (startPos : nat) : Z :=
  match findMatchingBrace text startPos with
  | Some r => r
  | None => (-1)%Z
  end.

(** *** [extractOuterTags] *)

Definition SPAN : str := lit "<span></span>".

(** The part after the loop: the first opening tag of [cleanedForAnalysis].
    The test for several top-level elements that follows in the source
    returns the same string on both of its paths and is left out. *)
Definition outerOfFirstTag (cleanedForAnalysis : str) : str :=
  match exec openTagRegex cleanedForAnalysis 0 with
  | None => SPAN
  | Some openMatch =>
      let openingTag := matched cleanedForAnalysis openMatch in
      match groupText cleanedForAnalysis openMatch 1 with
      | None => SPAN
      | Some tagName =>
          if endsWith openingTag (lit "/>") then openingTag
          else lit "<" ++ tagName ++ lit "></" ++ tagName ++ lit ">"
      end
  end.

(** The template found inside a leading interpolation: the content that
    [extractOuterTags] recurses into, when there is one.  [if
    (templateContent)] lets neither [null] nor the empty string through. *)
Definition templateInside (interpolationContent : str) : option str :=
  match exec outerNestedRegex interpolationContent 0 with
  | None => None
  | Some nestedTemplateMatch =>
      match indexOf BACKTICK interpolationContent (m_index nestedTemplateMatch) with
      | None => None
      | Some templateStart =>
          match extractTemplateContent' interpolationContent (templateStart + 1) with
          | Some [] => None
          | Some templateContent => Some templateContent
          | None => None
          end
      end
  end.

(** The loop of [extractOuterTags] on [cleanedForAnalysis]; the recursive
    call [extractOuterTags(templateContent)] is the loop again on
    [templateContent.trim()].  [None]: out of fuel. *)
Fixpoint extractOuterTags_loop (fuel : nat) (cleanedForAnalysis : str)
  : option str :=
  match fuel with
  | O => None
  | S fuel' =>
      if startsWith cleanedForAnalysis (lit "${") then
        let endBrace := findMatchingBrace' cleanedForAnalysis 1 in
        if (endBrace =? -1)%Z then Some (outerOfFirstTag cleanedForAnalysis)
        else
          let interpolationContent :=
            substring cleanedForAnalysis 2 (Z.to_nat endBrace) in
          match templateInside interpolationContent with
          | Some templateContent =>
              extractOuterTags_loop fuel' (trim templateContent)
          | None =>
              extractOuterTags_loop fuel'
                (trim (substringFrom cleanedForAnalysis (Z.to_nat endBrace + 1)))
          end
      else Some (outerOfFirstTag cleanedForAnalysis)
  end.

Definition extractOuterTags (html : str) : option str :=
  extractOuterTags_loop (S (length html)) (trim html).

Definition extractOuterTags' (html : str) : str :=
  match extractOuterTags html with
  | Some r => r
  | None => SPAN
  end.

(** *** [isSelfClosingTag] *)

Definition selfClosingTags : list str :=
  map lit ["area"; "base"; "br"; "col"; "embed"; "hr"; "img"; "input";
           "link"; "meta"; "param"; "source"; "track"; "wbr"]%string.

(** [selfClosingTags.includes(tagName.toLowerCase())] *)
Definition isSelfClosingTag (tagName : str) : bool :=
  existsb (Js.eqb (toLowerCase tagName)) selfClosingTags.

(** *** Diagnostics *)

Inductive Severity : Type := Error | Warning.

(** A diagnostic; its range is kept as the two offsets that the source
    hands to [document.positionAt]. *)
Record Diagnostic := mkDiagnostic {
  d_start : nat;
  d_end : nat;
  d_message : str;
  d_severity : Severity
}.

(** One match of the tag pattern: [match[0]], [match[1]], [match.index]. *)
Record TagToken := mkToken {
  t_fullMatch : str;
  t_tagName : str;
  t_index : nat
}.

Definition tokenOf (cleanedHtml : str) (m : found) : TagToken :=
  mkToken (matched cleanedHtml m)
    (match groupText cleanedHtml m 1 with Some n => n | None => [] end)
    (m_index m).

Definition tagTokens (cleanedHtml : str) : list TagToken :=
  map (tokenOf cleanedHtml) (execAll tagRegex cleanedHtml).

Definition isClosing (t : TagToken) : bool :=
  startsWith (t_fullMatch t) (lit "</").

Definition isSelfClosing (t : TagToken) : bool :=
  endsWith (t_fullMatch t) (lit "/>") || isSelfClosingTag (t_tagName t).

Definition unmatchedClosing (offset : nat) (t : TagToken) : Diagnostic :=
  let pos := offset + t_index t in
  mkDiagnostic pos (pos + length (t_fullMatch t))
    (lit "Unmatched closing tag </" ++ t_tagName t ++ lit ">") Error.

Definition mismatchedClosing (offset : nat) (last : str) (t : TagToken)
  : Diagnostic :=
  let pos := offset + t_index t in
  mkDiagnostic pos (pos + length (t_fullMatch t))
    (lit "Expected closing tag </" ++ last ++ lit "> but found </"
       ++ t_tagName t ++ lit ">") Error.

Definition unclosedTag (unclosed : str * nat) : Diagnostic :=
  mkDiagnostic (snd unclosed) (snd unclosed + length (fst unclosed) + 2)
    (lit "Unclosed tag <" ++ fst unclosed ++ lit ">") Warning.

(** The body of the loop over the tags.  The stack has its top first; the
    result is the new stack and the diagnostics pushed. *)
Definition tagStep (offset : nat) (stack : list (str * nat)) (t : TagToken)
  : list (str * nat) * list Diagnostic :=
  let pos := offset + t_index t in
  if isClosing t then
    match stack with
    | [] => ([], [unmatchedClosing offset t])
    | last :: stack' =>
        if Js.eqb (fst last) (t_tagName t) then (stack', [])
        else (stack', [mismatchedClosing offset (fst last) t])
    end
  else if negb (isSelfClosing t) then ((t_tagName t, pos) :: stack, [])
  else (stack, []).

Fixpoint tagLoop (offset : nat) (stack : list (str * nat))
  (tokens : list TagToken) : list (str * nat) * list Diagnostic :=
  match tokens with
  | [] => (stack, [])
  | t :: rest =>
      let '(stack', ds) := tagStep offset stack t in
      let '(final, ds') := tagLoop offset stack' rest in
      (final, ds ++ ds')
  end.

(** The loop over the tags of the cleaned text and the loop over what is
    left on the stack, oldest first. *)
Definition tagDiagnostics (offset : nat) (cleanedHtml : str) : list Diagnostic :=
  let '(stack, ds) := tagLoop offset [] (tagTokens cleanedHtml) in
  ds ++ map unclosedTag (rev stack).

(** *** [validateHTML] *)

(** An entry of [nestedTemplates]; the field [inInterpolation] of the
    source is written and never read, and is left out. *)
Record Nested := mkNested {
  n_content : str;
  n_offset : nat;
  n_outerStructure : str
}.

Definition nestedTemplates (tagPatterns : list str) (html : str) (offset : nat)
  : list Nested :=
  flat_map
    (fun nestedMatch =>
       let startPos := m_end nestedMatch - 1 in
       match extractTemplateContent' html (startPos + 1) with
       | Some templateContent =>
           [mkNested templateContent (offset + startPos + 1)
              (extractOuterTags' templateContent)]
       | None => []
       end)
    (execAll (leaderRegex tagPatterns) html).

(** [templateReplacements]: a [Map], a later [set] of a key replacing the
    value of the earlier one. *)
Fixpoint mapSet (k v : str) (m : list (str * str)) : list (str * str) :=
  match m with
  | [] => [(k, v)]
  | (k', v') :: m' => if Js.eqb k k' then (k', v) :: m' else (k', v') :: mapSet k v m'
  end.

Fixpoint mapGet (k : str) (m : list (str * str)) : option str :=
  match m with
  | [] => None
  | (k', v) :: m' => if Js.eqb k k' then Some v else mapGet k m'
  end.

Definition templateReplacements (nested : list Nested) : list (str * str) :=
  fold_left (fun m t => mapSet (n_content t) (n_outerStructure t) m) nested [].

(** The iterated replacement, at most [iterations] more times.  The
    function handed to [replace] looks the second group up in the map;
    [replacementsMade] is set when it finds it for some match. *)
Fixpoint collapseNested (iterations : nat) (tagPatterns : list str)
  (replacements : list (str * str)) (cleanedHtml : str) : str :=
  match iterations with
  | O => cleanedHtml
  | S iterations' =>
      let contentOf m :=
        match groupText cleanedHtml m 2 with Some c => c | None => [] end in
      let replacementsMade :=
        existsb (fun m => match mapGet (contentOf m) replacements with
                          | Some _ => true | None => false end)
          (execAll (nestedRegex tagPatterns) cleanedHtml) in
      let cleanedHtml' :=
        replaceAll (nestedRegex tagPatterns) cleanedHtml
          (fun m => match mapGet (contentOf m) replacements with
                    | Some outerStructure => outerStructure
                    | None => matched cleanedHtml m
                    end) in
      if replacementsMade
      then collapseNested iterations' tagPatterns replacements cleanedHtml'
      else cleanedHtml'
  end.

Definition maxIterations : nat := 20.

(** The text that the loop over the tags walks. *)
Definition cleanHtml (tagPatterns : list str) (html : str) (nested : list Nested)
  : str :=
  let cleanedHtml :=
    match nested with
    | [] => html
    | _ :: _ =>
        collapseNested maxIterations tagPatterns (templateReplacements nested) html
    end in
  if includesInterpolation cleanedHtml
  then replaceInterpolationsWithPlaceholders' cleanedHtml
  else cleanedHtml.

(** The diagnostics that one call pushes for its own text. *)
Definition ownDiagnostics (tagPatterns : list str) (html : str) (offset : nat)
  : list Diagnostic :=
  tagDiagnostics offset
    (cleanHtml tagPatterns html (nestedTemplates tagPatterns html offset)).

(** [validateHTML(html, offset, document, diagnostics)]: the diagnostics
    pushed, those of the nested templates first.  A nested template is
    shorter than the text around it, which bounds the recursion. *)
Fixpoint validateHTML_fuel (fuel : nat) (tagPatterns : list str) (docText : str)
  (html : str) (offset : nat) : list Diagnostic :=
  match fuel with
  | O => []
  | S fuel' =>
      flat_map
        (fun nested =>
           if negb (isInsideComment' docText (n_offset nested))
           then validateHTML_fuel fuel' tagPatterns docText
                  (n_content nested) (n_offset nested)
           else [])
        (nestedTemplates tagPatterns html offset)
      ++ ownDiagnostics tagPatterns html offset
  end.

Definition validateHTML (tagPatterns : list str) (docText : str)
  (html : str) (offset : nat) : list Diagnostic :=
  validateHTML_fuel (S (length html)) tagPatterns docText html offset.

(** *** [updateDiagnostics] *)

Definition supportedLanguages : list str :=
  map lit ["javascript"; "typescript"; "javascriptreact";
           "typescriptreact"]%string.

(** The diagnostics set for the document; [None] when the language is not
    one of the four and nothing is set. *)
Definition updateDiagnostics (tagPatterns : list str) (languageId : str)
  (text : str) : option (list Diagnostic) :=
  if existsb (Js.eqb languageId) supportedLanguages then
    Some (flat_map
            (fun m =>
               let startPos := m_end m - 1 in
               if isInsideComment' text startPos then []
               else
                 match extractTemplateContent' text (startPos + 1) with
                 | Some templateContent =>
                     validateHTML tagPatterns text templateContent (startPos + 1)
                 | None => []
                 end)
            (execAll (leaderRegex tagPatterns) text))
  else None.

End Validator.

(** ** [src/foldingProvider.ts]: fold ranges *)
Module FoldingProvider.
Import Regex Folding.

(** What the provider uses of a [vscode.TextDocument]: its text and the
    line of [positionAt(offset)]. *)
Record TextDocument := mkDocument {
  getText : str;
  lineAt : nat -> nat
}.

(** Lines ended by a line feed: the line of an offset is the number of
    line feeds before it. *)
Definition lineOf (text : str) (offset : nat) : nat :=
  length (filter (N.eqb NEWLINE) (firstn offset text)).

Definition documentOf (text : str) : TextDocument :=
  mkDocument text (lineOf text).

(** [new vscode.FoldingRange(start, end)] *)
Record FoldingRange := mkRange {
  r_start : nat;
  r_end : nat
}.

(** The ranges that span at least three lines. *)
Definition wide (r : FoldingRange) : Prop :=
  (2 <= Z.of_nat (r_end r) - Z.of_nat (r_start r))%Z.

(** [endLine - startLine >= 2] *)
Definition spansThreeLines (startLine endLine : nat) : bool :=
  (2 <=? Z.of_nat endLine - Z.of_nat startLine)%Z.

(** The state of the loop over the matches: [foldingRanges] and
    [processedPositions]. *)
Definition FoldState := (list FoldingRange * list nat)%type.

(** One iteration for a match that is not cancelled; [None] stands for a
    search that ran out of fuel. *)
Definition foldStep (document : TextDocument) (st : FoldState) (m : found)
  : option FoldState :=
  let '(foldingRanges, processedPositions) := st in
  let text := getText document in
  let startPos := m_end m in
  if existsb (Nat.eqb startPos) processedPositions then Some st
  else
    let processedPositions' := processedPositions ++ [startPos] in
    let tagStartPos := m_index m in
    let startLine := lineAt document tagStartPos in
    match findClosingBacktick text startPos with
    | None => None
    | Some endPos =>
        if (endPos =? -1)%Z then Some (foldingRanges, processedPositions')
        else
          let endLine := lineAt document (Z.to_nat endPos) in
          if spansThreeLines startLine endLine
          then Some (foldingRanges ++ [mkRange startLine endLine],
                     processedPositions')
          else Some (foldingRanges, processedPositions')
    end.

(** The loop over the matches.  [isCancellationRequested k] is the value of
    the token in the [k]-th iteration; [inl] is the early [return []]. *)
Fixpoint foldLoop (document : TextDocument)
  (isCancellationRequested : nat -> bool) (k : nat) (st : FoldState)
  (ms : list found) : option (unit + FoldState) :=
  match ms with
  | [] => Some (inr st)
  | m :: ms' =>
      if isCancellationRequested k then Some (inl tt)
      else
        match foldStep document st m with
        | None => None
        | Some st' => foldLoop document isCancellationRequested (S k) st' ms'
        end
  end.

(** [otherRange] contains [range] and differs from it. *)
Definition contains (otherRange range : FoldingRange) : bool :=
  (r_start otherRange <=? r_start range)
  && (r_end range <=? r_end otherRange)
  && ((r_start otherRange <? r_start range)
      || (r_end range <? r_end otherRange)).

(** The filter that keeps the outermost ranges. *)
Definition filterRanges (foldingRanges : list FoldingRange) : list FoldingRange :=
  let indexed := combine (seq 0 (length foldingRanges)) foldingRanges in
  map snd
    (filter
       (fun ir =>
          negb (existsb
                  (fun jo =>
                     if fst ir =? fst jo then false
                     else contains (snd jo) (snd ir))
                  indexed))
       indexed).

(** [provideFoldingRanges(document, context, token)] *)
Definition provideFoldingRanges (tagPatterns : list str)
  (document : TextDocument) (isCancellationRequested : nat -> bool)
  : option (list FoldingRange) :=
  match foldLoop document isCancellationRequested 0 ([], [])
          (execAll (foldingRegex tagPatterns) (getText document)) with
  | None => None
  | Some (inl _) => Some []
  | Some (inr (foldingRanges, _)) => Some (filterRanges foldingRanges)
  end.

End FoldingProvider.

(** ** Plain literals

    The shape of literal content on which the two closing-backtick scanners
    are compared: content without backslash and without nested literal.
    Outside of braces it is text and quoted attribute values, the latter
    without backtick and opening brace; inside braces -- an interpolation
    [${ ... }] or a plain pair, nested to any depth -- it is code without
    backtick and quoted strings.  The modes are: literal text, attribute
    value, code inside [S e] open braces, quoted string in such code (the
    quoted ones in double or single quotes). *)
Module Literal.

Inductive mode : Type :=
| Top
| Attr (double : bool)
| Code (e : nat)
| Quoted (e : nat) (double : bool).

Definition quoteOf (double : bool) : N := if double then DQUOTE else SQUOTE.

Fixpoint plain (m : mode) (l : str) : bool :=
  match l with
  | [] => match m with Top => true | _ => false end
  | c :: l' =>
      match m with
      | Top =>
          if N.eqb c DOLLAR then
            match l' with
            | d :: l'' =>
                if N.eqb d LBRACE then plain (Code 0) l'' else plain Top l'
            | [] => true
            end
          else if N.eqb c LBRACE then plain (Code 0) l'
          else if N.eqb c DQUOTE then plain (Attr true) l'
          else if N.eqb c SQUOTE then plain (Attr false) l'
          else
            negb (N.eqb c BACKSLASH) && negb (N.eqb c BACKTICK)
            && plain Top l'
      | Attr double =>
          if N.eqb c (quoteOf double) then plain Top l'
          else
            negb (N.eqb c BACKSLASH) && negb (N.eqb c BACKTICK)
            && negb (N.eqb c LBRACE) && plain (Attr double) l'
      | Code e =>
          if N.eqb c RBRACE then
            match e with
            | O => plain Top l'
            | S e' => plain (Code e') l'
            end
          else if N.eqb c LBRACE then plain (Code (S e)) l'
          else if N.eqb c DOLLAR then
            match l' with
            | d :: l'' =>
                if N.eqb d LBRACE then plain (Code (S e)) l''
                else plain (Code e) l'
            | [] => false
            end
          else if N.eqb c DQUOTE then plain (Quoted e true) l'
          else if N.eqb c SQUOTE then plain (Quoted e false) l'
          else
            negb (N.eqb c BACKSLASH) && negb (N.eqb c BACKTICK)
            && plain (Code e) l'
      | Quoted e double =>
          if N.eqb c (quoteOf double) then plain (Code e) l'
          else negb (N.eqb c BACKSLASH) && plain (Quoted e double) l'
      end
  end.

(** The states of the two scanners at position [i] in each mode.  The
    extraction counts every open brace, from 0, and follows strings only
    inside braces; the search counts from 1, only the interpolations, lets
    every closing brace above 1 count down, and follows strings everywhere:
    its counter [f] lies between 1 and the number of open braces plus 1. *)
Definition stateE (m : mode) (i : nat) (sc : option N) : Diagnostics.EState :=
  match m with
  | Top | Attr _ => Diagnostics.mkE i 0 false false sc
  | Code e => Diagnostics.mkE i (Z.of_nat (S e)) false false sc
  | Quoted e d => Diagnostics.mkE i (Z.of_nat (S e)) true false (Some (quoteOf d))
  end.

Definition stateF (m : mode) (f : nat) (i : nat) (sc : option N)
  : Folding.FState :=
  match m with
  | Top => Folding.mkF i 1 false sc
  | Attr d => Folding.mkF i 1 true (Some (quoteOf d))
  | Code _ => Folding.mkF i (Z.of_nat f) false sc
  | Quoted _ d => Folding.mkF i (Z.of_nat f) true (Some (quoteOf d))
  end.

Definition counterOk (m : mode) (f : nat) : Prop :=
  match m with
  | Top | Attr _ => True
  | Code e | Quoted e _ => 1 <= f <= S (S e)
  end.

(** The last character of [pre]: the one before position [length pre]. *)
Definition before (pre : str) : option N :=
  match rev pre with c :: _ => Some c | [] => None end.

(** Both scanners, started in mode [m] in front of [l] and a closing
    backtick, stop at that backtick. *)
Definition agree_from (l : str) : Prop :=
  forall m f pre post startPos fuel scE scF,
  plain m l = true ->
  counterOk m f ->
  isChar (before pre) BACKSLASH = false ->
  length l < fuel ->
  let text := pre ++ l ++ BACKTICK :: post in
  Diagnostics.extractTemplateContent_from text startPos fuel
    (stateE m (length pre) scE)
  = Some (Some (substring text startPos (length pre + length l))) /\
  while (Folding.findClosingBacktick_cond text)
    (Folding.findClosingBacktick_step text)
    (fun _ => (-1)%Z) fuel (stateF m f (length pre) scF)
  = Some (Z.of_nat (length pre + length l)).

(** The round trip of the specification at one literal: what the
    extraction returns is the text up to the closing backtick that the
    search finds. *)
Definition round_trip (text : str) (startPos : nat) : Prop :=
  forall content,
  Diagnostics.extractTemplateContent text startPos = Some (Some content) ->
  exists e,
    Folding.findClosingBacktick text startPos = Some (Z.of_nat e) /\
    content = substring text startPos e.

End Literal.

(** ** Escapes as the specification states them *)
Module Escapes.



(** A double-quoted string holding one escaped backslash, as the body of an
    interpolation: [`${"\\"}`]. *)
Definition escaped_backslash : str :=
  lit "`${" ++ [DQUOTE; BACKSLASH; BACKSLASH; DQUOTE] ++ lit "}`".

End Escapes.

(** ** Fully closed markup and the examples of the checks *)
Module Markup.
Import Validator FoldingProvider.

(** A sequence of tags is fully closed when every opening tag that is
    neither void nor self-closing is followed by properly nested tags and
    then by a closing tag of the same name; void and self-closing tags
    stand alone. *)
Inductive Balanced : list TagToken -> Prop :=
| Balanced_nil : Balanced []
| Balanced_single : forall t rest,
    isClosing t = false -> isSelfClosing t = true ->
    Balanced rest -> Balanced (t :: rest)
| Balanced_element : forall o c inner rest,
    isClosing o = false -> isSelfClosing o = false ->
    isClosing c = true -> t_tagName o = t_tagName c ->
    Balanced inner -> Balanced rest ->
    Balanced (o :: inner ++ c :: rest).

(** Membership in the set of void elements decided on the name as
    written, letter case included. *)
Definition void_case_sensitive : Prop :=
  forall name, isSelfClosingTag name = true -> In name selfClosingTags.

Definition defaultTags : list str := [lit "html"; lit "dom"].

Definition javascript : str := lit "javascript".

(** [<div class='a'><br/><p>x</p></div>] *)
Definition closedMarkup : str := lit "<div class='a'><br/><p>x</p></div>".

(** [<a b='c'>${f({k: "}"})}x</a>]: an attribute value, and an
    interpolation with an object in it whose string holds a closing brace. *)
Definition plainContent : str :=
  lit "<a b='c'>${f({k: " ++ [DQUOTE; RBRACE; DQUOTE] ++ lit "})}x</a>".

Definition plainDocument : str :=
  lit "html" ++ BACKTICK :: plainContent ++ BACKTICK :: lit ";".

(** A literal with an interpolation in front of a closing tag. *)
Definition shiftedDocument : str := lit "html`${x}</div>`".

(** A template that is commented out, over five lines. *)
Definition commentedOut : str :=
  lit "/*" ++ [NEWLINE] ++ lit "dom`" ++ [NEWLINE] ++ lit "<div>" ++ [NEWLINE]
  ++ lit "</div>" ++ [NEWLINE] ++ lit "`" ++ [NEWLINE] ++ lit "*/".

(** A literal on two lines and one on three. *)
Definition twoLines : str := lit "x = html`" ++ [NEWLINE] ++ lit "<div>`;".

Definition threeLines : str :=
  lit "x = html`" ++ [NEWLINE] ++ lit "<div>" ++ [NEWLINE] ++ lit "`;".

(** A literal on three lines whose second line holds a nested literal. *)
Definition nestedThreeLines : str :=
  lit "x = html`" ++ [NEWLINE] ++ lit "${dom`a`}" ++ [NEWLINE] ++ lit "`;".

(** Two literals, on lines 0 to 2 and 2 to 4. *)
Definition twoLiterals : str :=
  lit "a = html`" ++ [NEWLINE] ++ lit "<p>" ++ [NEWLINE] ++ lit "`; b = dom`"
  ++ [NEWLINE] ++ lit "<b>" ++ [NEWLINE] ++ lit "`;".

(** The content of a nested literal whose leading interpolation holds a
    literal under the bare annotation. *)
Definition annotatedInside : str := lit "${c ? /* html */`<li>x</li>` : ''}".

End Markup.

(** ** Shapes of text

    The texts on which the scanners, the substitution and the validator
    are followed from end to end, and what their results are compared
    with. *)

(** *** Comments, strings and template text for the comment query *)
Module Comments.

(** A character that opens or closes nothing for the comment-membership
    query: no quote, no backtick, no slash, no star. *)
Definition codeChar (c : N) : bool :=
  negb (N.eqb c DQUOTE) && negb (N.eqb c SQUOTE) && negb (N.eqb c BACKTICK)
  && negb (N.eqb c SLASH) && negb (N.eqb c STAR).

Definition noSlash (c : N) : bool := negb (N.eqb c SLASH).

(** [pre /* body */ post] *)
Definition blockComment (pre body post : str) : str :=
  pre ++ lit "/*" ++ body ++ lit "*/" ++ post.

(** A character of a string in quotes [q]: not the quote, no backslash. *)
Definition stringText (q c : N) : bool :=
  negb (N.eqb c q) && negb (N.eqb c BACKSLASH).

(** [pre "body" post], in double or single quotes. *)
Definition quotedString (double : bool) (pre body post : str) : str :=
  let q := Literal.quoteOf double in pre ++ q :: body ++ q :: post.

(** A character of the text of a template literal that neither ends it
    nor begins an interpolation, an escape or a comment. *)
Definition templateChar (c : N) : bool :=
  negb (N.eqb c BACKTICK) && negb (N.eqb c BACKSLASH) && negb (N.eqb c DOLLAR)
  && negb (N.eqb c RBRACE) && negb (N.eqb c SLASH) && negb (N.eqb c STAR).

(** A character of a comment in template text that does not end it. *)
Definition commentChar (c : N) : bool :=
  negb (N.eqb c BACKSLASH) && negb (N.eqb c SLASH) && negb (N.eqb c STAR).

End Comments.

(** *** Interpolations *)
Module Interpolations.

(** A character that is neither a quote nor a backtick. *)
Definition unquoted (c : N) : bool :=
  negb (N.eqb c DQUOTE) && negb (N.eqb c SQUOTE) && negb (N.eqb c BACKTICK).

(** A character of an interpolation without braces, quotes or backticks. *)
Definition simpleCode (c : N) : bool :=
  negb (N.eqb c LBRACE) && negb (N.eqb c RBRACE) && negb (N.eqb c DQUOTE)
  && negb (N.eqb c SQUOTE) && negb (N.eqb c BACKTICK).

Definition notRbrace (c : N) : bool := negb (N.eqb c RBRACE).

(** [pre ${ code } post] *)
Definition interpolated (pre code post : str) : str :=
  pre ++ lit "${" ++ code ++ RBRACE :: post.

(** The state of the inner loop of the substitution with [i] moved by
    [n]. *)
Definition shifted (n : nat) (st : Diagnostics.RState) : Diagnostics.RState :=
  Diagnostics.mkR (n + Diagnostics.r_i st) (Diagnostics.r_depth st)
    (Diagnostics.r_interpolationContent st) (Diagnostics.r_inString st)
    (Diagnostics.r_inTemplate st) (Diagnostics.r_stringChar st).

End Interpolations.

(** *** Matches of the leader patterns *)
Module Leaders.
Import Regex.

(** The span of a match, searched from [i], of a pattern that ends in the
    literal character [c]. *)
Definition endsIn (c : N) (text : str) (i : nat) (m : found) : Prop :=
  i <= m_index m /\ m_index m < m_end m /\ m_end m <= length text /\
  charAt text (m_end m - 1) = Some c.

End Leaders.

(** *** Diagnostics and the tags they lie on *)
Module Reports.
Import Validator Markup.

(** The tags that close the open elements [names], innermost first, with
    fully closed markup between them and after them. *)
Fixpoint Closes (names : list str) (tokens : list TagToken) : Prop :=
  match names with
  | [] => Balanced tokens
  | name :: names' =>
      exists inner c rest,
        tokens = inner ++ c :: rest /\ Balanced inner /\
        isClosing c = true /\ name = t_tagName c /\ Closes names' rest
  end.

(** A diagnostic that lies on a tag of the scanned text: an error on a
    closing tag, over the whole tag; a warning on an opening tag that is
    neither void nor self-closing, over [<], the name and one character
    more. *)
Definition pointsAt (offset : nat) (tokens : list TagToken) (d : Diagnostic)
  : Prop :=
  exists t,
    In t tokens /\ d_start d = offset + t_index t /\
    match d_severity d with
    | Error =>
        isClosing t = true /\
        d_end d = d_start d + length (t_fullMatch t)
    | Warning =>
        isClosing t = false /\ isSelfClosing t = false /\
        d_end d = d_start d + length (t_tagName t) + 2
    end.

(** The stack entry pushed for an opening tag. *)
Definition opened (offset : nat) (t : TagToken) : str * nat :=
  (t_tagName t, offset + t_index t).

(** Every entry of the stack was pushed for an opening tag of [tokens]. *)
Definition stackFrom (offset : nat) (tokens : list TagToken)
  (stack : list (str * nat)) : Prop :=
  forall e, In e stack ->
  exists t, In t tokens /\ isClosing t = false /\ isSelfClosing t = false /\
            e = opened offset t.

(** A diagnostic and a stack entry moved by [k] characters. *)
Definition moved (k : nat) (d : Diagnostic) : Diagnostic :=
  mkDiagnostic (k + d_start d) (k + d_end d) (d_message d) (d_severity d).

Definition movedEntry (k : nat) (e : str * nat) : str * nat :=
  (fst e, k + snd e).

(** What the cleaning uses of a nested template. *)
Definition replacementOf (n : Nested) : str * str :=
  (n_content n, n_outerStructure n).

End Reports.

(** *** Elements *)
Module Elements.
Import Regex.

(** A tag name: [[a-zA-Z][a-zA-Z0-9]*]. *)
Definition tagNameOk (name : str) : bool :=
  match name with
  | c :: cs => alpha c && forallb (fun c => alpha c || digit c) cs
  | [] => false
  end.

(** What stands between the name of a tag and its [>]: no [>], and no
    letter or digit first. *)
Definition attributesOk (attributes : str) : bool :=
  forallb (fun c => negb (N.eqb c GT)) attributes
  && match attributes with
     | c :: _ => negb (alpha c || digit c)
     | [] => true
     end.

(** [<name attributes> tail] *)
Definition element (name attributes tail : str) : str :=
  lit "<" ++ name ++ attributes ++ GT :: tail.

End Elements.

(** *** A document that holds one literal *)
Module Literals.
Import Regex.

(** No class of [r] takes the character [c]: a match of [r] runs over no
    [c]. *)
Fixpoint avoids (c : N) (r : re) : bool :=
  match r with
  | Eps | WordB | Bol | Eol => true
  | Cls p => negb (p c)
  | Cat a b | Alt a b => avoids c a && avoids c b
  | Rep _ a | Grp _ a => avoids c a
  end.

Definition noBacktick (s : str) : bool :=
  forallb (fun c => negb (N.eqb c BACKTICK)) s.

(** [pre name`content`post] *)
Definition literalIn (pre name content post : str) : str :=
  pre ++ name ++ BACKTICK :: content ++ BACKTICK :: post.


(** A configured leader name made of word characters, [[a-zA-Z0-9_]+]:
    each of them stands for itself in the source of a pattern. *)
Definition wordName (name : str) : bool :=
  forallb word name && negb (Nat.eqb (length name) 0).

(** The text does not end in a word character. *)
Definition endsWord (pre : str) : bool :=
  match rev pre with
  | c :: _ => negb (word c)
  | [] => true
  end.
End Literals.

(* ================================================================== *)
(** * Properties *)
(* ================================================================== *)

(** ** Loops *)
Module LoopFacts.

(** Case analysis on every test of an iteration. *)
Ltac split_ifs :=
  repeat match goal with
    | H : context [if ?b then _ else _] |- _ => destruct b eqn:?
    | |- context [if ?b then _ else _] => destruct b eqn:?
    end.

Section Visited.
Context {St R : Type}.
Variable cond : St -> bool.
Variable body : St -> step St R.
Variable Inv : St -> Prop.

Hypothesis inv_next : forall s s',
  Inv s -> cond s = true -> body s = Next s' -> Inv s'.

(** An invariant holds in every visited state. *)
Lemma visited_inv : forall fuel s,
  Inv s -> Forall Inv (visited cond body fuel s).
Proof.
  induction fuel as [|n IH]; intros s Hs; simpl; [constructor|].
  destruct (cond s) eqn:Hc; [|constructor].
  constructor; [exact Hs|].
  destruct (body s) as [s'|r] eqn:Hb; [|constructor].
  apply IH. eapply inv_next; eauto.
Qed.
End Visited.

Section Cond.
Context {St R : Type}.
Variable cond : St -> bool.
Variable body : St -> step St R.

(** Every visited state satisfies the loop condition. *)
Lemma visited_cond : forall fuel s,
  Forall (fun x => cond x = true) (visited cond body fuel s).
Proof.
  induction fuel as [|n IH]; intros s; simpl; [constructor|].
  destruct (cond s) eqn:Hc; [|constructor].
  constructor; [exact Hc|].
  destruct (body s); [apply IH|constructor].
Qed.
End Cond.

Section Total.
Context {St R : Type}.
Variable cond : St -> bool.
Variable body : St -> step St R.
Variable after : St -> R.
Variable Inv : St -> Prop.
Variable measure : St -> nat.
Variable Post : R -> Prop.

Hypothesis body_next : forall s s',
  Inv s -> cond s = true -> body s = Next s' ->
  Inv s' /\ measure s' < measure s.
Hypothesis body_done : forall s r,
  Inv s -> cond s = true -> body s = Done r -> Post r.
Hypothesis loop_exit : forall s,
  Inv s -> cond s = false -> Post (after s).

(** With more fuel than the measure the loop ends, in a value that
    satisfies the postcondition. *)
Lemma while_total : forall fuel s,
  Inv s -> measure s < fuel ->
  exists r, while cond body after fuel s = Some r /\ Post r.
Proof.
  induction fuel as [|n IH]; intros s Hs Hm; [lia|]. simpl.
  destruct (cond s) eqn:Hc.
  - destruct (body s) as [s'|r] eqn:Hb.
    + destruct (body_next s s' Hs Hc Hb) as [Hs' Hlt].
      apply IH; [exact Hs'|lia].
    + exists r. split; [reflexivity|]. eapply body_done; eauto.
  - exists (after s). split; [reflexivity|]. apply loop_exit; assumption.
Qed.
End Total.

End LoopFacts.

(** ** Characters *)
Module JsFacts.

Lemma isChar_true : forall c k, isChar c k = true <-> c = Some k.
Proof.
  intros [x|] k; simpl; split; intros H; try discriminate.
  - apply N.eqb_eq in H. now subst.
  - injection H as ->. apply N.eqb_refl.
Qed.

Lemma charAt_Some_lt : forall (s : str) i c, charAt s i = Some c -> i < length s.
Proof.
  intros s i c H. apply nth_error_Some. unfold charAt in H. congruence.
Qed.

End JsFacts.

(** ** The closing-backtick search *)
Module FoldingFacts.
Import Folding JsFacts LoopFacts.

Lemma findClosingBacktick_step_next : forall text startPos st st',
  startPos <= f_i st ->
  findClosingBacktick_cond text st = true ->
  findClosingBacktick_step text st = Next st' ->
  startPos <= f_i st' /\ length text - f_i st' < length text - f_i st.
Proof.
  intros text startPos [i d s c] st' Hi Hc Hs.
  unfold findClosingBacktick_cond in Hc. simpl in Hc, Hi.
  apply andb_true_iff in Hc as [Hlt _]. apply Nat.ltb_lt in Hlt.
  unfold findClosingBacktick_step, findClosingBacktick_body,
    findClosingBacktick_escaped, prevCharAt in Hs.
  simpl in Hs.
  split_ifs; simpl in Hs; try discriminate;
    injection Hs as <-; simpl; lia.
Qed.

Lemma findClosingBacktick_step_done : forall text startPos st r,
  startPos <= f_i st ->
  findClosingBacktick_cond text st = true ->
  findClosingBacktick_step text st = Done r ->
  r = (-1)%Z \/
  ((Z.of_nat startPos <= r < Z.of_nat (length text))%Z /\
   charAt text (Z.to_nat r) = Some BACKTICK).
Proof.
  intros text startPos [i d s c] r Hi Hc Hs.
  unfold findClosingBacktick_cond in Hc. simpl in Hc, Hi.
  apply andb_true_iff in Hc as [Hlt _]. apply Nat.ltb_lt in Hlt.
  unfold findClosingBacktick_step, findClosingBacktick_body,
    findClosingBacktick_escaped, prevCharAt in Hs.
  simpl in Hs.
  split_ifs; simpl in Hs; try discriminate;
    injection Hs as <-; right; rewrite Nat2Z.id;
    (split; [lia | now apply isChar_true]).
Qed.

Lemma findClosingBacktick_reads_in_range : forall text st,
  findClosingBacktick_cond text st = true ->
  Forall (fun j => j < length text) (findClosingBacktick_reads text st).
Proof.
  intros text [i d s c] Hc.
  unfold findClosingBacktick_cond in Hc. simpl in Hc.
  apply andb_true_iff in Hc as [Hlt _]. apply Nat.ltb_lt in Hlt.
  unfold findClosingBacktick_reads, findClosingBacktick_body,
    findClosingBacktick_escaped, prevCharAt. simpl.
  split_ifs; simpl;
    repeat match goal with
      | H : (_ && _) = true |- _ => apply andb_true_iff in H as [? ?]
      | H : (_ <? _) = true |- _ => apply Nat.ltb_lt in H
      end;
    repeat (constructor; try lia).
Qed.

(** C10.  [findClosingBacktick] ends on every text and starting position;
    its value is [-1] or an index [r] with [startPos <= r < text.length]
    at which the text holds a backtick; and every index of [text] read on
    the way lies inside the text. *)
Theorem findClosingBacktick_total_in_range : forall (text : str) (startPos : nat),
  (exists r, findClosingBacktick text startPos = Some r /\
     (r = (-1)%Z \/
      ((Z.of_nat startPos <= r < Z.of_nat (length text))%Z /\
       charAt text (Z.to_nat r) = Some BACKTICK))) /\
  Forall (fun st =>
            Forall (fun j => j < length text)
                   (findClosingBacktick_reads text st))
         (findClosingBacktick_states text startPos).
Proof.
  intros text startPos. split.
  - unfold findClosingBacktick.
    apply (while_total _ _ _ (fun st => startPos <= f_i st)
             (fun st => length text - f_i st)
             (fun r => r = (-1)%Z \/
                ((Z.of_nat startPos <= r < Z.of_nat (length text))%Z /\
                 charAt text (Z.to_nat r) = Some BACKTICK))).
    + intros s s'. apply findClosingBacktick_step_next.
    + intros s r. apply findClosingBacktick_step_done.
    + intros s _ _. now left.
    + simpl. lia.
    + simpl. lia.
  - unfold findClosingBacktick_states.
    eapply Forall_impl; [|apply visited_cond].
    intros st. apply findClosingBacktick_reads_in_range.
Qed.

End FoldingFacts.

(** ** The interpolation depth of the four scanning loops *)
Module DepthFacts.
Import Utils Folding Diagnostics JsFacts LoopFacts.

Lemma charAt_middle : forall (pre post : str) c,
  charAt (pre ++ c :: post) (length pre) = Some c.
Proof.
  intros pre post c. unfold charAt.
  rewrite nth_error_app2 by lia. now rewrite Nat.sub_diag.
Qed.

Lemma isInsideComment_step_depth : forall beforeText st st',
  (0 <= c_templateDepth st)%Z ->
  isInsideComment_step beforeText st = Next st' ->
  (0 <= c_templateDepth st')%Z.
Proof.
  intros beforeText [i ic is_ it d sc] st' Hd Hs. simpl in Hd.
  unfold isInsideComment_step, isInsideComment_escapes in Hs. simpl in Hs.
  split_ifs; injection Hs as <-; simpl; lia.
Qed.

Lemma extractTemplateContent_step_depth : forall text startPos st st',
  (0 <= e_depth st)%Z ->
  extractTemplateContent_step text startPos st = Next st' ->
  (0 <= e_depth st')%Z.
Proof.
  intros text startPos [i d is_ nt sc] st' Hd Hs. simpl in Hd.
  unfold extractTemplateContent_step, extractTemplateContent_escaped,
    prevCharAt in Hs. simpl in Hs.
  split_ifs; try discriminate; injection Hs as <-; simpl; lia.
Qed.

Lemma findClosingBacktick_step_depth : forall text st st',
  (1 <= f_depth st)%Z ->
  findClosingBacktick_step text st = Next st' ->
  (1 <= f_depth st')%Z.
Proof.
  intros text [i d is_ sc] st' Hd Hs. simpl in Hd.
  unfold findClosingBacktick_step, findClosingBacktick_body,
    findClosingBacktick_escaped, prevCharAt in Hs.
  simpl in Hs.
  split_ifs; simpl in Hs; try discriminate; injection Hs as <-; simpl; lia.
Qed.

Lemma matchBrace_step_depth : forall result st,
  (1 <= r_depth st)%Z ->
  match matchBrace_step result st with
  | Next st' => (1 <= r_depth st')%Z
  | Done st' => r_depth st' = 0%Z
  end.
Proof.
  intros result [i d ct is_ it sc] Hd. simpl in Hd.
  unfold matchBrace_step. simpl.
  split_ifs; simpl; lia.
Qed.

Lemma matchBrace_depth : forall result fuel st,
  (1 <= r_depth st)%Z ->
  match matchBrace result fuel st with
  | Some st' => (0 <= r_depth st')%Z
  | None => True
  end.
Proof.
  intros result. unfold matchBrace.
  induction fuel as [|n IH]; intros st Hd; simpl; [exact I|].
  destruct (matchBrace_cond result st); [|lia].
  pose proof (matchBrace_step_depth result st Hd) as Hs.
  destruct (matchBrace_step result st) as [st'|st'].
  - apply IH. exact Hs.
  - lia.
Qed.

(** C7.  In the comment-membership query, the content extraction, the
    closing-backtick search and the interpolation substitution the depth
    counter is never negative in any state of the loop (the two loops that
    start inside an interpolation or a literal keep their counter at 1 or
    more while they run, and the substitution leaves its loop with a counter
    of 0 or more); a closing brace met at the outermost level -- counter 0,
    or 1 for the search that counts its own literal -- is one more ordinary
    iteration that leaves the counter as it was. *)
Theorem interpolation_depth_never_negative :
  (forall text position fuel,
     Forall (fun st => (0 <= c_templateDepth st)%Z)
       (isInsideComment_states (substring text 0 position) fuel
          isInsideComment_init)) /\
  (forall pre post i_c i_s i_t sc,
     exists st',
       isInsideComment_step (pre ++ RBRACE :: post)
         (mkC (length pre) i_c i_s i_t 0 sc) = Next st' /\
       c_templateDepth st' = 0%Z) /\
  (forall text startPos fuel,
     Forall (fun st => (0 <= e_depth st)%Z)
       (extractTemplateContent_states text startPos fuel
          (extractTemplateContent_init startPos))) /\
  (forall pre post startPos i_s i_n sc,
     exists st',
       extractTemplateContent_step (pre ++ RBRACE :: post) startPos
         (mkE (length pre) 0 i_s i_n sc) = Next st' /\
       e_depth st' = 0%Z) /\
  (forall text startPos,
     Forall (fun st => (1 <= f_depth st)%Z)
       (findClosingBacktick_states text startPos)) /\
  (forall pre post i_s sc,
     (exists st',
        findClosingBacktick_step (pre ++ RBRACE :: post)
          (mkF (length pre) 1 i_s sc) = Next st' /\ f_depth st' = 1%Z) /\
     (exists st',
        findClosingBacktick_step (pre ++ RBRACE :: post)
          (mkF (length pre) 0 i_s sc) = Next st' /\ f_depth st' = 0%Z)) /\
  (forall result i fuel,
     Forall (fun st => (1 <= r_depth st)%Z)
       (matchBrace_states result fuel (matchBrace_init i)) /\
     match matchBrace result fuel (matchBrace_init i) with
     | Some st' => (0 <= r_depth st')%Z
     | None => True
     end) /\
  (forall pre post,
     replace_step (pre ++ RBRACE :: post, length pre)
     = Next (pre ++ RBRACE :: post, length pre + 1)).
Proof.
  repeat split.
  - intros text position fuel. unfold isInsideComment_states.
    apply visited_inv; [|simpl; lia].
    intros s s' Hs _. now apply isInsideComment_step_depth.
  - intros pre post [] [] [] sc;
      unfold isInsideComment_step, isInsideComment_escapes; simpl;
      rewrite charAt_middle; simpl;
      split_ifs; try discriminate; eexists; split; reflexivity.
  - intros text startPos fuel. unfold extractTemplateContent_states.
    apply visited_inv; [|simpl; lia].
    intros s s' Hs _. now apply extractTemplateContent_step_depth.
  - intros pre post startPos [] [] sc;
      unfold extractTemplateContent_step, extractTemplateContent_escaped,
        prevCharAt; simpl; rewrite charAt_middle; simpl;
      split_ifs; try discriminate; eexists; split; reflexivity.
  - intros text startPos. unfold findClosingBacktick_states.
    apply visited_inv; [|simpl; lia].
    intros s s' Hs _. now apply findClosingBacktick_step_depth.
  - destruct i_s;
      unfold findClosingBacktick_step, findClosingBacktick_body,
        findClosingBacktick_escaped, prevCharAt; simpl;
      rewrite charAt_middle; simpl;
      split_ifs; try discriminate; eexists; split; reflexivity.
  - destruct i_s;
      unfold findClosingBacktick_step, findClosingBacktick_body,
        findClosingBacktick_escaped, prevCharAt; simpl;
      rewrite charAt_middle; simpl;
      split_ifs; try discriminate; eexists; split; reflexivity.
  - unfold matchBrace_states. apply visited_inv; [|simpl; lia].
    intros s s' Hs _ Hb.
    pose proof (matchBrace_step_depth result s Hs) as H.
    now rewrite Hb in H.
  - apply matchBrace_depth. simpl. lia.
  - intros pre post. unfold replace_step. rewrite charAt_middle. reflexivity.
Qed.

End DepthFacts.

(** ** Extraction and closing-backtick search on plain literals *)
Module RoundTripFacts.
Import Utils Folding Diagnostics Literal Markup JsFacts LoopFacts DepthFacts.

Section Unroll.
Context {St R : Type}.
Variable cond : St -> bool.
Variable body : St -> step St R.
Variable after : St -> R.

Lemma while_next : forall n s s',
  cond s = true -> body s = Next s' ->
  while cond body after (S n) s = while cond body after n s'.
Proof. intros n s s' Hc Hb. simpl. now rewrite Hc, Hb. Qed.

Lemma while_done : forall n s r,
  cond s = true -> body s = Done r ->
  while cond body after (S n) s = Some r.
Proof. intros n s r Hc Hb. simpl. now rewrite Hc, Hb. Qed.
End Unroll.

Lemma prevCharAt_before : forall pre rest,
  prevCharAt (pre ++ rest) (length pre) = before pre.
Proof.
  intros pre rest. unfold prevCharAt, before.
  destruct (rev pre) as [|c r] eqn:Hr;
    apply (f_equal (@rev N)) in Hr; rewrite rev_involutive in Hr; subst pre.
  - reflexivity.
  - simpl. rewrite length_app. simpl.
    replace (0 <? length (rev r) + 1) with true
      by (symmetry; apply Nat.ltb_lt; lia).
    replace (length (rev r) + 1 - 1) with (length (rev r)) by lia.
    rewrite <- app_assoc. simpl. apply charAt_middle.
Qed.

Lemma before_snoc : forall pre c, before (pre ++ [c]) = Some c.
Proof. intros. unfold before. now rewrite rev_app_distr. Qed.

Lemma charAt_next : forall (pre rest : str) c,
  charAt (pre ++ c :: rest) (length pre + 1) = hd_error rest.
Proof.
  intros pre rest c. unfold charAt.
  rewrite nth_error_app2 by lia.
  replace (length pre + 1 - length pre) with 1 by lia.
  now destruct rest.
Qed.

Lemma length_middle : forall (pre rest : str) c,
  (length pre <? length (pre ++ c :: rest)) = true.
Proof. intros. apply Nat.ltb_lt. rewrite length_app. simpl. lia. Qed.

(** One iteration of the search in front of a known character. *)
Lemma findClosingBacktick_step_at : forall pre c rest d is_ sc,
  findClosingBacktick_step (pre ++ c :: rest) (mkF (length pre) d is_ sc)
  =
  let i := length pre in
  if isChar (before pre) BACKSLASH then Next (mkF (i + 1) d is_ sc)
  else
    let '(inString, stringChar) :=
      if negb is_ && (N.eqb c DQUOTE || N.eqb c SQUOTE) then (true, Some c)
      else if is_ && same (Some c) sc then (false, None) else (is_, sc) in
    if negb inString then
      if N.eqb c BACKTICK then
        if (d - 1 =? 0)%Z then Done (Z.of_nat i)
        else Next (mkF (i + 1) (d - 1)%Z inString stringChar)
      else if N.eqb c DOLLAR && isChar (hd_error rest) LBRACE
      then Next (mkF (i + 2) (d + 1)%Z inString stringChar)
      else if N.eqb c RBRACE && (1 <? d)%Z
           then Next (mkF (i + 1) (d - 1)%Z inString stringChar)
           else Next (mkF (i + 1) d inString stringChar)
    else Next (mkF (i + 1) d inString stringChar).
Proof.
  intros. unfold findClosingBacktick_step, findClosingBacktick_body,
    findClosingBacktick_escaped.
  cbn [f_i f_depth f_inString f_stringChar].
  rewrite prevCharAt_before, charAt_middle, charAt_next.
  assert (Hlen : (length pre + 1 <? length (pre ++ c :: rest))
                 = match rest with [] => false | _ :: _ => true end).
  { destruct rest; [apply Nat.ltb_ge|apply Nat.ltb_lt];
      rewrite length_app; simpl; lia. }
  rewrite Hlen. cbn [isChar].
  replace (length pre + 1 + 1) with (length pre + 2) by lia.
  destruct rest as [|x rest]; cbn [hd_error isChar];
    rewrite ?andb_false_r, ?andb_true_r;
    repeat match goal with
      | |- context [if ?b then _ else _] => destruct b eqn:?
      end; reflexivity.
Qed.

(** Both scanners consume the characters [cs] (one, or two for [${]) and
    go from mode [m] to mode [m']. *)
Lemma agree_advance :
  forall cs l m m' f f' pre post startPos fuel scE scF scE' scF',
  agree_from l ->
  counterOk m f ->
  cs <> [] ->
  isChar (before (pre ++ cs)) BACKSLASH = false ->
  plain m' l = true ->
  counterOk m' f' ->
  length (cs ++ l) < fuel ->
  let text := pre ++ (cs ++ l) ++ BACKTICK :: post in
  extractTemplateContent_step text startPos (stateE m (length pre) scE)
  = Next (stateE m' (length pre + length cs) scE') ->
  findClosingBacktick_step text (stateF m f (length pre) scF)
  = Next (stateF m' f' (length pre + length cs) scF') ->
  extractTemplateContent_from text startPos fuel (stateE m (length pre) scE)
  = Some (Some (substring text startPos (length pre + length (cs ++ l)))) /\
  while (findClosingBacktick_cond text) (findClosingBacktick_step text)
    (fun _ => (-1)%Z) fuel (stateF m f (length pre) scF)
  = Some (Z.of_nat (length pre + length (cs ++ l))).
Proof.
  intros cs l m m' f f' pre post startPos fuel scE scF scE' scF'
    IH Hm Hcs Hb Hp Hok Hf text HE HF.
  destruct fuel as [|n]; [lia|].
  assert (Hlen : length cs >= 1) by (destruct cs; [congruence|simpl; lia]).
  rewrite length_app in Hf.
  assert (Hlt : (length pre <? length text) = true).
  { apply Nat.ltb_lt. unfold text. rewrite !length_app. simpl. lia. }
  destruct (IH m' f' (pre ++ cs) post startPos n scE' scF' Hp Hok Hb
              ltac:(lia)) as [IHE IHF].
  rewrite length_app in IHE, IHF.
  assert (Htext : (pre ++ cs) ++ l ++ BACKTICK :: post = text).
  { unfold text. now rewrite <- !app_assoc. }
  rewrite Htext in IHE, IHF.
  rewrite length_app.
  replace (length pre + (length cs + length l))
    with (length pre + length cs + length l) by lia.
  assert (HcE : extractTemplateContent_cond text (stateE m (length pre) scE)
                = true) by (destruct m; exact Hlt).
  assert (HcF : findClosingBacktick_cond text (stateF m f (length pre) scF)
                = true).
  { unfold findClosingBacktick_cond.
    destruct m; simpl in *; rewrite Hlt; try reflexivity;
      apply Z.ltb_lt; lia. }
  split.
  - unfold extractTemplateContent_from.
    rewrite (while_next _ _ _ n _ _ HcE HE). exact IHE.
  - rewrite (while_next _ _ _ n _ _ HcF HF). exact IHF.
Qed.

Lemma plain_Attr_head : forall double l rest,
  plain (Attr double) l = true ->
  isChar (hd_error (l ++ rest)) LBRACE = false.
Proof.
  intros double [|d l] rest H; [discriminate|]. simpl in *.
  destruct (d =? LBRACE)%N eqn:Hd; [|reflexivity].
  apply N.eqb_eq in Hd. subst d. destruct double; simpl in H; discriminate.
Qed.

Ltac bool_facts :=
  repeat match goal with
    | H : (_ && _) = true |- _ => apply andb_true_iff in H as [? ?]
    | H : negb _ = true |- _ => apply negb_true_iff in H
    | H : (_ =? _)%N = true |- _ => apply N.eqb_eq in H; subst
    end.

Ltac use_facts :=
  repeat match goal with
    | H : _ = false |- _ => rewrite H
    | H : _ = true |- _ => rewrite H
    end.

Ltac decide_tests :=
  repeat match goal with
    | |- context [if ?b then _ else _] => destruct b eqn:?
    end;
  try reflexivity; try discriminate; try (exfalso; lia);
  try (repeat f_equal; lia);
  try (simpl in *; first [discriminate | exfalso; lia | repeat f_equal; lia]).

(** One iteration of the extraction, computed under the known tests. *)
Ltac step_E :=
  match goal with text := _ |- _ => subst text end;
  unfold stateE, extractTemplateContent_step, extractTemplateContent_escaped;
  simpl app; cbn [e_i e_depth e_inString e_inNestedTemplate e_stringChar];
  rewrite prevCharAt_before, charAt_middle, charAt_next;
  cbn -[N.eqb substring Z.of_nat Z.add Z.sub]; use_facts;
  rewrite ?andb_false_r;
  cbn -[N.eqb substring Z.of_nat Z.add Z.sub]; decide_tests.

(** One iteration of the search, likewise. *)
Ltac step_F :=
  match goal with text := _ |- _ => subst text end;
  unfold stateF; simpl app; rewrite findClosingBacktick_step_at;
  cbn -[N.eqb Z.of_nat Z.add Z.sub]; use_facts; rewrite ?andb_false_r;
  cbn -[N.eqb Z.of_nat Z.add Z.sub];
  decide_tests.

Lemma scanners_agree_upto : forall n l, length l <= n -> agree_from l.
Proof.
  induction n as [|n IHn]; intros l Hn.
  { destruct l; [|simpl in Hn; lia].
    intros m f pre post startPos fuel scE scF Hp Hok Hb Hf text.
    destruct m; try discriminate.
    destruct fuel as [|k]; [simpl in Hf; lia|].
    unfold extractTemplateContent_from. simpl length. rewrite Nat.add_0_r.
    split.
    + apply while_done; [apply length_middle|]. step_E.
    + apply while_done.
      * unfold findClosingBacktick_cond. simpl. subst text.
        simpl app. now rewrite length_middle.
      * step_F. }
  destruct l as [|c l]; [apply IHn; simpl; lia|].
  simpl in Hn.
  assert (IH : agree_from l) by (apply IHn; lia).
  intros m f pre post startPos fuel scE scF Hp Hok Hb Hf text.
  destruct m; simpl in Hp, Hok.
  - (* literal text *)
    destruct (c =? DOLLAR)%N eqn:Hd.
    + apply N.eqb_eq in Hd. subst c.
      destruct l as [|d l'].
      * apply (agree_advance [DOLLAR] [] Top Top f f pre post startPos fuel
                 scE scF scE scF); simpl; auto; try discriminate.
        -- now rewrite before_snoc.
        -- step_E.
        -- step_F.
      * destruct (d =? LBRACE)%N eqn:Hd.
        -- apply N.eqb_eq in Hd. subst d.
           apply (agree_advance [DOLLAR; LBRACE] l' Top (Code 0) f 2 pre post
                    startPos fuel scE scF scE scF);
             simpl; auto; try discriminate; try lia.
           ++ apply IHn. simpl in Hn. lia.
           ++ replace (pre ++ [DOLLAR; LBRACE])
                with ((pre ++ [DOLLAR]) ++ [LBRACE])
                by now rewrite <- app_assoc.
              now rewrite before_snoc.
           ++ step_E.
           ++ step_F.
        -- apply (agree_advance [DOLLAR] (d :: l') Top Top f f pre post
                    startPos fuel scE scF scE scF);
             simpl; auto; try discriminate.
           ++ now rewrite before_snoc.
           ++ step_E.
           ++ step_F.
    + destruct (c =? LBRACE)%N eqn:Hl;
        [|destruct (c =? DQUOTE)%N eqn:Hq; [|destruct (c =? SQUOTE)%N eqn:Hs]].
      * apply N.eqb_eq in Hl. subst c.
        apply (agree_advance [LBRACE] l Top (Code 0) f 1 pre post startPos
                 fuel scE scF scE scF);
          simpl; auto; try discriminate; try lia.
        -- now rewrite before_snoc.
        -- step_E.
        -- step_F.
      * apply N.eqb_eq in Hq. subst c.
        apply (agree_advance [DQUOTE] l Top (Attr true) f f pre post startPos
                 fuel scE scF scE scF); simpl; auto; try discriminate.
        -- now rewrite before_snoc.
        -- step_E.
        -- step_F.
      * apply N.eqb_eq in Hs. subst c.
        apply (agree_advance [SQUOTE] l Top (Attr false) f f pre post startPos
                 fuel scE scF scE scF); simpl; auto; try discriminate.
        -- now rewrite before_snoc.
        -- step_E.
        -- step_F.
      * bool_facts.
        apply (agree_advance [c] l Top Top f f pre post startPos fuel
                 scE scF scE scF); simpl; auto; try discriminate.
        -- rewrite before_snoc. simpl. assumption.
        -- step_E.
        -- step_F.
  - (* attribute value *)
    destruct (c =? quoteOf double)%N eqn:Hq.
    + apply N.eqb_eq in Hq. subst c.
      apply (agree_advance [quoteOf double] l (Attr double) Top f f pre post
               startPos fuel scE scF scE None);
        simpl; auto; try discriminate.
      * rewrite before_snoc. now destruct double.
      * destruct double; step_E.
      * destruct double; step_F.
    + bool_facts.
      match goal with
      | Hl : plain (Attr double) l = true |- _ =>
          pose proof (plain_Attr_head double l (BACKTICK :: post) Hl) as Hhd
      end.
      apply (agree_advance [c] l (Attr double) (Attr double) f f pre post
               startPos fuel scE scF scE scF); simpl; auto; try discriminate.
      * rewrite before_snoc. simpl. assumption.
      * step_E.
      * step_F.
  - (* code inside braces *)
    destruct (c =? RBRACE)%N eqn:Hr;
      [|destruct (c =? LBRACE)%N eqn:Hl;
        [|destruct (c =? DOLLAR)%N eqn:Hd;
          [|destruct (c =? DQUOTE)%N eqn:Hq;
            [|destruct (c =? SQUOTE)%N eqn:Hs]]]].
    + apply N.eqb_eq in Hr. subst c. destruct e as [|e'].
      * apply (agree_advance [RBRACE] l (Code 0) Top f f pre post startPos
                 fuel scE scF scE scF); simpl; auto; try discriminate.
        -- now rewrite before_snoc.
        -- step_E.
        -- step_F.
      * apply (agree_advance [RBRACE] l (Code (S e')) (Code e') f
                 (if 1 <? f then f - 1 else f) pre post startPos
                 fuel scE scF scE scF); simpl; auto; try discriminate.
        -- now rewrite before_snoc.
        -- destruct (1 <? f) eqn:Hf1;
             [apply Nat.ltb_lt in Hf1|apply Nat.ltb_ge in Hf1]; lia.
        -- step_E.
        -- destruct (1 <? f) eqn:Hf1;
             [apply Nat.ltb_lt in Hf1|apply Nat.ltb_ge in Hf1]; step_F.
    + apply N.eqb_eq in Hl. subst c.
      apply (agree_advance [LBRACE] l (Code e) (Code (S e)) f f pre post
               startPos fuel scE scF scE scF);
        simpl; auto; try discriminate; try lia.
      * now rewrite before_snoc.
      * step_E.
      * step_F.
    + apply N.eqb_eq in Hd. subst c.
      destruct l as [|d l']; [discriminate|].
      destruct (d =? LBRACE)%N eqn:Hd.
      * apply N.eqb_eq in Hd. subst d.
        apply (agree_advance [DOLLAR; LBRACE] l' (Code e) (Code (S e)) f (S f)
                 pre post startPos fuel scE scF scE scF);
          simpl; auto; try discriminate; try lia.
        -- apply IHn. simpl in Hn. lia.
        -- replace (pre ++ [DOLLAR; LBRACE])
             with ((pre ++ [DOLLAR]) ++ [LBRACE])
             by now rewrite <- app_assoc.
           now rewrite before_snoc.
        -- step_E.
        -- step_F.
      * apply (agree_advance [DOLLAR] (d :: l') (Code e) (Code e) f f
                 pre post startPos fuel scE scF scE scF);
          simpl; auto; try discriminate.
        -- now rewrite before_snoc.
        -- step_E.
        -- step_F.
    + apply N.eqb_eq in Hq. subst c.
      apply (agree_advance [DQUOTE] l (Code e) (Quoted e true) f f pre post
               startPos fuel scE scF scE scF); simpl; auto; try discriminate.
      * now rewrite before_snoc.
      * step_E.
      * step_F.
    + apply N.eqb_eq in Hs. subst c.
      apply (agree_advance [SQUOTE] l (Code e) (Quoted e false) f f pre post
               startPos fuel scE scF scE scF); simpl; auto; try discriminate.
      * now rewrite before_snoc.
      * step_E.
      * step_F.
    + bool_facts.
      apply (agree_advance [c] l (Code e) (Code e) f f pre post startPos fuel
               scE scF scE scF); simpl; auto; try discriminate.
      * rewrite before_snoc. simpl. assumption.
      * step_E.
      * step_F.
  - (* quoted string *)
    destruct (c =? quoteOf double)%N eqn:Hq.
    + apply N.eqb_eq in Hq. subst c.
      apply (agree_advance [quoteOf double] l (Quoted e double) (Code e) f f
               pre post startPos fuel scE scF (Some (quoteOf double)) None);
        simpl; auto; try discriminate.
      * rewrite before_snoc. now destruct double.
      * destruct double; step_E.
      * destruct double; step_F.
    + bool_facts.
      apply (agree_advance [c] l (Quoted e double) (Quoted e double) f f
               pre post startPos fuel scE scF scE scF);
        simpl; auto; try discriminate.
      * rewrite before_snoc. simpl. assumption.
      * step_E.
      * step_F.
Qed.

Lemma substring_middle : forall (pre content rest : str),
  substring (pre ++ content ++ rest) (length pre)
    (length pre + length content) = content.
Proof.
  intros pre content rest. unfold substring.
  rewrite !length_app.
  replace (Nat.min (length pre) (length pre + (length content + length rest)))
    with (length pre) by lia.
  replace (Nat.min (length pre + length content)
             (length pre + (length content + length rest)))
    with (length pre + length content) by lia.
  replace (Nat.min (length pre) (length pre + length content))
    with (length pre) by lia.
  replace (Nat.max (length pre) (length pre + length content) - length pre)
    with (length content) by lia.
  rewrite skipn_app, skipn_all, Nat.sub_diag. simpl.
  rewrite firstn_app, firstn_all, Nat.sub_diag. simpl.
  apply app_nil_r.
Qed.

(** X28.  The round trip on plain literals.  For a literal whose content
    is plain -- no backslash and no nested literal; quoted attribute values
    without backtick and opening brace; inside braces, nested to any
    depth, code without backtick and quoted strings, which may hold braces
    and backticks -- [extractTemplateContent] returns exactly the content,
    and [findClosingBacktick] returns the index of the closing backtick, so
    the content is the text between the two offsets; a brace inside a
    quoted string of an interpolation closes nothing. *)
Theorem round_trip_plain_literal : forall (pre content post : str),
  plain Top content = true ->
  let text := pre ++ BACKTICK :: content ++ BACKTICK :: post in
  let startPos := length pre + 1 in
  extractTemplateContent text startPos = Some (Some content) /\
  findClosingBacktick text startPos
  = Some (Z.of_nat (startPos + length content)) /\
  substring text startPos (startPos + length content) = content.
Proof.
  intros pre content post Hp text startPos.
  assert (Htext : text = (pre ++ [BACKTICK]) ++ content ++ BACKTICK :: post).
  { unfold text. now rewrite <- app_assoc. }
  assert (Hs : startPos = length (pre ++ [BACKTICK])).
  { unfold startPos. rewrite length_app. reflexivity. }
  assert (Hsub : substring text startPos (startPos + length content) = content).
  { rewrite Htext, Hs. apply substring_middle. }
  destruct (scanners_agree_upto (length content) content (le_n _) Top 1
              (pre ++ [BACKTICK]) post startPos (S (length text)) None None
              Hp I) as [HE HF].
  - now rewrite before_snoc.
  - rewrite Htext, !length_app. simpl. lia.
  - rewrite <- Htext, <- Hs in HE, HF. rewrite Hsub in HE.
    repeat split; assumption.
Qed.

(** The literal [html`<a b='c'>${f({k: "}"})}x</a>`;]. *)
Lemma round_trip_plain_literal_witness :
  plain Top plainContent = true /\
  extractTemplateContent plainDocument 5 = Some (Some plainContent) /\
  findClosingBacktick plainDocument 5 = Some 33%Z /\
  substring plainDocument 5 33 = plainContent.
Proof.
  split; [reflexivity|].
  exact (round_trip_plain_literal (lit "html") plainContent (lit ";") eq_refl).
Defined.

(** C1.  The round trip on an escaped backtick.  In [html`a\`b`] the
    content begins at 5 and the closing backtick stands at 9.  The search
    skips the escaped backtick at 7 and returns 9, and the text between
    the two offsets is [a\`b]; the extraction ends the literal at the
    escaped backtick and returns [a\].  So the content that is extracted
    is not the span that the search delimits. *)
Theorem round_trip_escaped_backtick :
  findClosingBacktick (lit "html`a\`b`") 5 = Some 9%Z /\
  charAt (lit "html`a\`b`") 9 = Some BACKTICK /\
  substring (lit "html`a\`b`") 5 9 = lit "a\`b" /\
  extractTemplateContent (lit "html`a\`b`") 5 = Some (Some (lit "a\")) /\
  ~ round_trip (lit "html`a\`b`") 5.
Proof.
  repeat split; try reflexivity.
  intros H. destruct (H (lit "a\") eq_refl) as [e [He Hc]].
  assert (Hf : findClosingBacktick (lit "html`a\`b`") 5 = Some 9%Z)
    by reflexivity.
  rewrite Hf in He. injection He as He.
  assert (e = 9) by lia. subst e. vm_compute in Hc. discriminate.
Qed.

(** The search stops early on a nested literal: in [html`${dom`a`}`] it
    returns the closing backtick of the inner literal. *)
Lemma findClosingBacktick_nested_literal :
  findClosingBacktick (lit "html`${dom`a`}`") 5 = Some 12%Z /\
  extractTemplateContent (lit "html`${dom`a`}`") 5
  = Some (Some (lit "${dom`a`}")).
Proof. split; reflexivity. Qed.

End RoundTripFacts.

(** ** Escaped characters *)
Module EscapeFacts.
Import Utils Folding Diagnostics Literal Escapes.
Import JsFacts LoopFacts DepthFacts RoundTripFacts.


Lemma length_snoc : forall (pre : str) x, length (pre ++ [x]) = length pre + 1.
Proof. intros. now rewrite length_app. Qed.


Ltac decide_tests :=
  repeat match goal with
    | |- context [if ?b then _ else _] => destruct b eqn:?
    end; try reflexivity; try discriminate.



(** After two backslashes the extraction and the search still skip the
    next character: in [`${"\\"}`] the quote that closes the string is
    passed over and neither finds the closing backtick. *)
Lemma quote_after_two_backslashes :
  extractTemplateContent escaped_backslash 1 = Some None /\
  findClosingBacktick escaped_backslash 1 = Some (-1)%Z /\
  isInsideComment_from escaped_backslash 9
    (mkC 4 false true false 1 (Some DQUOTE))
  = isInsideComment_from escaped_backslash 7
      (mkC 7 false false false 1 (Some DQUOTE)).
Proof. repeat split; reflexivity. Qed.

End EscapeFacts.

(** ** The scanning loops end *)
Module ScanTotal.
Import Utils Folding Diagnostics Validator JsFacts LoopFacts.

(** The comment-membership query ends on every text and position. *)
Lemma isInsideComment_total : forall text position,
  exists b, isInsideComment text position = Some b.
Proof.
  intros text position. unfold isInsideComment, isInsideComment_from.
  generalize (substring text 0 position). intros bt.
  destruct (while_total (isInsideComment_cond bt) (isInsideComment_step bt)
              c_inComment (fun _ => True) (fun st => length bt - c_i st)
              (fun _ => True))
    with (fuel := S (length bt)) (s := isInsideComment_init)
    as [b [Hb _]]; auto.
  - intros [i ic is_ it d sc] s' _ Hc Hs. split; [exact I|].
    unfold isInsideComment_cond in Hc. simpl in Hc. apply Nat.ltb_lt in Hc.
    unfold isInsideComment_step, isInsideComment_escapes in Hs. simpl in Hs.
    split_ifs; injection Hs as <-; simpl; lia.
  - simpl. lia.
  - now exists b.
Qed.

(** The extraction ends; what it returns is the text from [startPos] up to
    an index inside the text. *)
Lemma extractTemplateContent_total : forall text startPos,
  exists r, extractTemplateContent text startPos = Some r /\
    (r = None \/
     exists i, startPos <= i < length text /\
               r = Some (substring text startPos i)).
Proof.
  intros text startPos. unfold extractTemplateContent, extractTemplateContent_from.
  apply (while_total (extractTemplateContent_cond text)
           (extractTemplateContent_step text startPos) (fun _ => None)
           (fun st => startPos <= e_i st) (fun st => length text - e_i st)
           (fun r => r = None \/
                     exists i, startPos <= i < length text /\
                               r = Some (substring text startPos i))).
  - intros [i d is_ nt sc] s' Hi Hc Hs. simpl in Hi.
    unfold extractTemplateContent_cond in Hc. simpl in Hc. apply Nat.ltb_lt in Hc.
    unfold extractTemplateContent_step, extractTemplateContent_escaped in Hs.
    simpl in Hs.
    split_ifs; try discriminate; injection Hs as <-; simpl; lia.
  - intros [i d is_ nt sc] r Hi Hc Hs. simpl in Hi.
    unfold extractTemplateContent_cond in Hc. simpl in Hc. apply Nat.ltb_lt in Hc.
    unfold extractTemplateContent_step, extractTemplateContent_escaped in Hs.
    simpl in Hs.
    split_ifs; try discriminate; injection Hs as <-; right; exists i;
      (split; [lia|reflexivity]).
  - intros. now left.
  - simpl. lia.
  - simpl. lia.
Qed.

Lemma length_substring : forall (text : str) a i,
  a <= i -> i <= length text -> length (substring text a i) = i - a.
Proof.
  intros text a i Ha Hi. unfold substring.
  rewrite length_firstn, length_skipn. lia.
Qed.

(** What is extracted is shorter than the text it is extracted from. *)
Lemma extractTemplateContent'_shorter : forall text startPos content,
  extractTemplateContent' text startPos = Some content ->
  length content < length text.
Proof.
  intros text startPos content H. unfold extractTemplateContent' in H.
  destruct (extractTemplateContent_total text startPos) as [r [Hr Hp]].
  rewrite Hr in H. subst r.
  destruct Hp as [Hp|[i [Hi Hp]]]; [discriminate|].
  injection Hp as ->. rewrite length_substring by lia. lia.
Qed.

(** The search for the matching brace ends. *)
Lemma findMatchingBrace_total : forall text startPos,
  exists r, findMatchingBrace text startPos = Some r.
Proof.
  intros text startPos. unfold findMatchingBrace.
  destruct (while_total (findMatchingBrace_cond text)
              (findMatchingBrace_step text) (fun _ => (-1)%Z)
              (fun _ => True) (fun st => length text - fst st)
              (fun _ => True))
    with (fuel := S (length text)) (s := (startPos + 1, 1%Z))
    as [r [Hr _]]; auto.
  - intros [i d] s' _ Hc Hs. split; [exact I|].
    unfold findMatchingBrace_cond in Hc. simpl in Hc.
    apply andb_true_iff in Hc as [Hc _]. apply Nat.ltb_lt in Hc.
    unfold findMatchingBrace_step in Hs.
    split_ifs; try discriminate; injection Hs as <-; simpl; lia.
  - simpl. lia.
  - now exists r.
Qed.

(** The inner loop of the substitution ends, at an index that is not
    before the one it started from. *)
Lemma matchBrace_total : forall result st,
  exists st', matchBrace result (S (length result)) st = Some st' /\
    r_i st <= r_i st'.
Proof.
  intros result st. unfold matchBrace.
  destruct (while_total (matchBrace_cond result) (matchBrace_step result)
              (fun s => s) (fun s => r_i st <= r_i s)
              (fun s => length result - r_i s)
              (fun s => r_i st <= r_i s))
    with (fuel := S (length result)) (s := st) as [r [Hr Hle]]; auto.
  - intros [i d ct is_ it sc] s' Hi Hc Hs. simpl in Hi.
    unfold matchBrace_cond in Hc. simpl in Hc.
    apply andb_true_iff in Hc as [Hc _]. apply Nat.ltb_lt in Hc.
    unfold matchBrace_step in Hs. simpl in Hs.
    split_ifs; try discriminate; injection Hs as <-; simpl; lia.
  - intros [i d ct is_ it sc] r Hi _ Hs. simpl in Hi.
    unfold matchBrace_step in Hs. simpl in Hs.
    split_ifs; try discriminate; injection Hs as <-; simpl; lia.
  - lia.
  - now exists r.
Qed.

(** The substitution ends. *)
Lemma replaceInterpolationsWithPlaceholders_total : forall html,
  exists r, replaceInterpolationsWithPlaceholders html = Some r.
Proof.
  intros html. unfold replaceInterpolationsWithPlaceholders.
  destruct (while_total replace_cond replace_step (fun st => Some (fst st))
              (fun st => length (fst st) - snd st <= length html)
              (fun st => length (fst st) - snd st)
              (fun r => exists x, r = Some x))
    with (fuel := S (length html)) (s := (html, 0)) as [r [Hr [x Hx]]].
  - intros [result i] s' Hi Hc Hs. simpl in Hi.
    unfold replace_cond in Hc. simpl in Hc. apply Nat.ltb_lt in Hc.
    unfold replace_step in Hs.
    destruct (isChar (charAt result i) DOLLAR
              && isChar (charAt result (i + 1)) LBRACE).
    + destruct (matchBrace_total result (matchBrace_init (i + 2)))
        as [inner [Hm Hle]]. rewrite Hm in Hs. simpl in Hle.
      destruct (r_depth inner =? 0)%Z; injection Hs as <-; simpl.
      * unfold substring, substringFrom.
        rewrite !length_app, length_firstn, !length_skipn. simpl.
        rewrite ?length_skipn. lia.
      * lia.
    + injection Hs as <-. simpl. lia.
  - intros [result i] r _ _ Hs. unfold replace_step in Hs.
    destruct (isChar (charAt result i) DOLLAR
              && isChar (charAt result (i + 1)) LBRACE).
    + destruct (matchBrace_total result (matchBrace_init (i + 2)))
        as [inner [Hm _]]. rewrite Hm in Hs.
      destruct (r_depth inner =? 0)%Z; discriminate.
    + discriminate.
  - intros [result i] _ _. now exists result.
  - simpl. lia.
  - simpl. lia.
  - rewrite Hr, Hx. now exists x.
Qed.

Lemma length_trimStart : forall s, length (trimStart s) <= length s.
Proof.
  induction s as [|c s IH]; simpl; [lia|].
  destruct (Regex.space c); simpl; lia.
Qed.

Lemma length_trim : forall s, length (trim s) <= length s.
Proof.
  intros s. unfold trim. rewrite length_rev.
  etransitivity; [apply length_trimStart|].
  rewrite length_rev. apply length_trimStart.
Qed.

Lemma templateInside_shorter : forall interpolationContent templateContent,
  templateInside interpolationContent = Some templateContent ->
  length templateContent < length interpolationContent.
Proof.
  intros ic tc H. unfold templateInside in H.
  destruct (Regex.exec Regex.outerNestedRegex ic 0); [|discriminate].
  destruct (indexOf BACKTICK ic _) as [ts|]; [|discriminate].
  destruct (extractTemplateContent' ic (ts + 1)) as [[|c l]|] eqn:He;
    try discriminate.
  injection H as <-. eapply extractTemplateContent'_shorter. exact He.
Qed.

Lemma startsWith_length : forall s p : str,
  startsWith s p = true -> length p <= length s.
Proof.
  intros s p. revert s. induction p as [|x p IH]; intros s H; simpl; [lia|].
  destruct s as [|y s]; simpl in H; [discriminate|].
  apply andb_true_iff in H as [_ H]. apply IH in H. simpl. lia.
Qed.

(** The loop of [extractOuterTags] ends: every turn and every recursive
    call goes on with a shorter text. *)
Lemma extractOuterTags_loop_total : forall fuel cleanedForAnalysis,
  length cleanedForAnalysis < fuel ->
  exists r, extractOuterTags_loop fuel cleanedForAnalysis = Some r.
Proof.
  induction fuel as [|n IH]; intros cleaned Hlt; [lia|].
  cbn [extractOuterTags_loop].
  destruct (startsWith cleaned (lit "${")) eqn:Hs; [|eauto].
  apply startsWith_length in Hs. simpl in Hs.
  destruct (findMatchingBrace' cleaned 1 =? -1)%Z; [eauto|].
  destruct (templateInside
              (substring cleaned 2 (Z.to_nat (findMatchingBrace' cleaned 1))))
    as [tc|] eqn:Ht.
  - apply IH. apply templateInside_shorter in Ht.
    pose proof (length_trim tc).
    assert (length (substring cleaned 2 (Z.to_nat (findMatchingBrace' cleaned 1)))
            <= length cleaned).
    { unfold substring. rewrite length_firstn, length_skipn. lia. }
    lia.
  - apply IH.
    pose proof (length_trim
      (substringFrom cleaned (Z.to_nat (findMatchingBrace' cleaned 1) + 1))).
    unfold substringFrom in *. rewrite length_skipn in *. lia.
Qed.

Lemma extractOuterTags_total : forall html,
  exists r, extractOuterTags html = Some r.
Proof.
  intros html. apply extractOuterTags_loop_total.
  pose proof (length_trim html). lia.
Qed.

(** A nested template is shorter than the text it is found in. *)
Lemma nestedTemplates_shorter : forall tagPatterns html offset nested,
  In nested (nestedTemplates tagPatterns html offset) ->
  length (n_content nested) < length html.
Proof.
  intros tagPatterns html offset nested H. unfold nestedTemplates in H.
  apply in_flat_map in H as [m [_ H]].
  destruct (extractTemplateContent' html (Regex.m_end m - 1 + 1)) as [tc|] eqn:He;
    [|contradiction].
  destruct H as [<-|[]]. simpl.
  eapply extractTemplateContent'_shorter. exact He.
Qed.

(** The recursion of [validateHTML] is bounded by the length of the text:
    any larger amount of fuel gives the same diagnostics. *)
Lemma validateHTML_fuel_enough : forall fuel tagPatterns docText html offset,
  length html < fuel ->
  validateHTML_fuel fuel tagPatterns docText html offset
  = validateHTML tagPatterns docText html offset.
Proof.
  assert (H : forall fuel1 fuel2 tagPatterns docText html offset,
            length html < fuel1 -> length html < fuel2 ->
            validateHTML_fuel fuel1 tagPatterns docText html offset
            = validateHTML_fuel fuel2 tagPatterns docText html offset).
  { induction fuel1 as [|n IH]; intros fuel2 tp doc html offset H1 H2; [lia|].
    destruct fuel2 as [|k]; [lia|]. simpl. f_equal.
    pose proof (nestedTemplates_shorter tp html offset) as Hs.
    induction (nestedTemplates tp html offset) as [|x l IHl]; [reflexivity|].
    simpl. f_equal.
    - destruct (negb (isInsideComment' doc (n_offset x))); [|reflexivity].
      assert (length (n_content x) < length html) by (apply Hs; now left).
      apply IH; lia.
    - apply IHl. intros y Hy. apply Hs. now right. }
  intros. unfold validateHTML. apply H; lia.
Qed.

End ScanTotal.

(** ** Regular expressions *)
Module RegexFacts.
Import Regex.

Section Continues.
Context {A : Type}.
Variable text : str.

(** A match that succeeds ends in its continuation. *)
Lemma rmatch_continues : forall r i caps (k : nat -> captures -> option A) x,
  rmatch text r i caps k = Some x ->
  exists j caps', k j caps' = Some x.
Proof.
  induction r as [|p|a IHa b IHb|a IHa b IHb|g a IHa|n a IHa| | |];
    intros i caps k x H; cbn [rmatch] in H.
  - eauto.
  - destruct (charAt text i) as [c|]; [|discriminate].
    destruct (p c); [eauto|discriminate].
  - apply IHa in H as [j [caps' H]]. now apply IHb in H.
  - destruct (rmatch text a i caps k) eqn:Ha.
    + injection H as ->. now apply IHa in Ha.
    + now apply IHb in H.
  - revert H. generalize (S (length text)). intros fuel. revert i caps.
    induction fuel as [|fuel IHf]; intros i caps H; simpl in H; [eauto|].
    destruct g.
    + destruct (rmatch text a i caps _) eqn:Hm.
      * injection H as ->. apply IHa in Hm as [j [caps' Hm]].
        destruct (j <=? i); [discriminate|]. now apply IHf in Hm.
      * eauto.
    + destruct (k i caps) eqn:Hk.
      * injection H as ->. eauto.
      * apply IHa in H as [j [caps' Hm]].
        destruct (j <=? i); [discriminate|]. now apply IHf in Hm.
  - apply IHa in H as [j [caps' H]]. eauto.
  - destruct (wordBoundary text i); [eauto|discriminate].
  - destruct (i =? 0); [eauto|discriminate].
  - destruct (i =? length text); [eauto|discriminate].
Qed.
End Continues.

(** A pattern that ends in a literal character matches only in a text
    that holds the character. *)
Lemma matchAt_ends_with : forall r c text i m,
  matchAt (Cat r (chr c)) text i = Some m -> In c text.
Proof.
  intros r c text i m H. unfold matchAt in H. cbn [rmatch chr] in H.
  apply rmatch_continues in H as [j [caps' H]].
  destruct (charAt text j) as [d|] eqn:Hd; [|discriminate].
  destruct (N.eqb_spec c d) as [->|]; [|discriminate].
  eapply nth_error_In. exact Hd.
Qed.

Lemma search_ends_with : forall r c text fuel i,
  ~ In c text -> search fuel (Cat r (chr c)) text i = None.
Proof.
  intros r c text fuel. induction fuel as [|n IH]; intros i Hn; simpl;
    destruct (matchAt (Cat r (chr c)) text i) eqn:Hm;
    try (apply matchAt_ends_with in Hm; contradiction); try reflexivity.
  destruct (i <? length text); [now apply IH|reflexivity].
Qed.

Lemma execAll_ends_with : forall r c text,
  ~ In c text -> execAll (Cat r (chr c)) text = [].
Proof.
  intros r c text Hn. unfold execAll. simpl. unfold exec.
  now rewrite search_ends_with.
Qed.

End RegexFacts.

(** ** The loop over the tags *)
Module ValidatorFacts.
Import Regex Utils Diagnostics Validator FoldingProvider Markup JsFacts.
Import RegexFacts.

Lemma eqb_eq : forall s t : str, Js.eqb s t = true <-> s = t.
Proof.
  intros s t. unfold Js.eqb.
  destruct (list_eq_dec N.eq_dec s t); split; intros; congruence.
Qed.

Lemma eqb_refl : forall s : str, Js.eqb s s = true.
Proof. intros. now apply eqb_eq. Qed.

(** A fully closed run of tags leaves the stack as it was and adds no
    diagnostic. *)
Lemma tagLoop_balanced : forall l,
  Balanced l ->
  forall offset stack rest,
  tagLoop offset stack (l ++ rest) = tagLoop offset stack rest.
Proof.
  induction 1 as [|t l Hc Hs Hl IHl|o c inner l Ho Hso Hc Hn Hi IHi Hl IHl];
    intros offset stack rest.
  - reflexivity.
  - simpl. unfold tagStep. rewrite Hc, Hs. simpl.
    rewrite IHl. now destruct (tagLoop offset stack rest).
  - simpl. unfold tagStep at 1. rewrite Ho, Hso. simpl.
    rewrite <- app_assoc. rewrite IHi. simpl.
    unfold tagStep at 1. rewrite Hc. simpl. rewrite Hn, eqb_refl.
    rewrite IHl. now destruct (tagLoop offset stack rest).
Qed.

(** Without a backtick in it a text holds no nested template. *)
Lemma nestedTemplates_no_backtick : forall tagPatterns html offset,
  existsb (N.eqb BACKTICK) html = false ->
  nestedTemplates tagPatterns html offset = [].
Proof.
  intros tagPatterns html offset H. unfold nestedTemplates, leaderRegex.
  rewrite execAll_ends_with; [reflexivity|].
  intros Hin.
  assert (Ht : existsb (N.eqb BACKTICK) html = true).
  { apply existsb_exists. exists BACKTICK. split; [exact Hin|reflexivity]. }
  congruence.
Qed.

(** C2.  When the tags of the text that the validator scans -- the content
    of the literal with its nested literals collapsed and its
    interpolations replaced by the placeholder -- are fully closed, the
    call pushes no diagnostic for the literal.  For content without
    backtick and without interpolation that text is the content itself,
    and the whole validation of the literal gives no diagnostic. *)
Theorem balanced_html_no_diagnostics :
  (forall tagPatterns html offset,
     Balanced (tagTokens (cleanHtml tagPatterns html
                            (nestedTemplates tagPatterns html offset))) ->
     ownDiagnostics tagPatterns html offset = []) /\
  (forall tagPatterns docText html offset,
     existsb (N.eqb BACKTICK) html = false ->
     includesInterpolation html = false ->
     Balanced (tagTokens html) ->
     validateHTML tagPatterns docText html offset = []).
Proof.
  assert (Hown : forall tagPatterns html offset,
            Balanced (tagTokens (cleanHtml tagPatterns html
                                   (nestedTemplates tagPatterns html offset))) ->
            ownDiagnostics tagPatterns html offset = []).
  { intros tagPatterns html offset H.
    unfold ownDiagnostics, tagDiagnostics.
    pose proof (tagLoop_balanced _ H offset [] []) as E.
    rewrite app_nil_r in E. rewrite E. reflexivity. }
  split; [exact Hown|].
  intros tagPatterns docText html offset Hb Hi H.
  unfold validateHTML. cbn [validateHTML_fuel].
  rewrite Hown.
  - now rewrite nestedTemplates_no_backtick.
  - rewrite nestedTemplates_no_backtick by exact Hb.
    unfold cleanHtml. now rewrite Hi.
Qed.

(** The markup [<div class='a'><br/><p>x</p></div>] is fully closed and
    gets no diagnostic. *)
Lemma balanced_html_no_diagnostics_witness :
  ownDiagnostics defaultTags closedMarkup 5 = [] /\
  validateHTML defaultTags (lit "html`" ++ closedMarkup ++ lit "`")
    closedMarkup 5 = [].
Proof.
  assert (H : Balanced (tagTokens closedMarkup)).
  { vm_compute.
    apply (Balanced_element _ _ [_; _; _] []); try reflexivity.
    - apply Balanced_single; try reflexivity.
      apply (Balanced_element _ _ [] []); try reflexivity; constructor.
    - constructor. }
  split.
  - apply (proj1 balanced_html_no_diagnostics defaultTags closedMarkup 5).
    exact H.
  - apply (proj2 balanced_html_no_diagnostics defaultTags _ closedMarkup 5);
      [reflexivity|reflexivity|exact H].
Defined.

(** A closing tag met on an empty stack gets exactly one diagnostic, an
    error, over the span of the tag counted from [offset] in the text that
    is scanned. *)
Lemma unmatched_closing_one_error : forall offset fullMatch name index,
  tagStep offset [] (mkToken (lit "</" ++ fullMatch) name index)
  = ([], [mkDiagnostic (offset + index)
            (offset + index + length (lit "</" ++ fullMatch))
            (lit "Unmatched closing tag </" ++ name ++ lit ">") Error]).
Proof. reflexivity. Qed.

(** C5 on [html`${x}</div>`]: the closing tag stands at offsets 9 to 15
    of the document, the one diagnostic is put at 16 to 22, the offsets of
    the tag in the text with the placeholder in it. *)
Lemma unmatched_closing_range_shifted :
  updateDiagnostics defaultTags javascript shiftedDocument
  = Some [mkDiagnostic 16 22 (lit "Unmatched closing tag </div>") Error] /\
  substring shiftedDocument 9 15 = lit "</div>" /\
  length shiftedDocument = 16.
Proof. repeat split; reflexivity. Qed.

(** C8, as amended.  A closing tag matches the open tag on top of the
    stack exactly when the two names are equal as written, letter case
    included; membership in the set of void elements is decided on the name
    in lower case, so it does not depend on letter case. *)
Theorem tag_names_case : 
  (forall offset last pos stack rest name index,
     tagStep offset ((last, pos) :: stack)
       (mkToken (lit "</" ++ rest) name index)
     = (stack,
        if list_eq_dec N.eq_dec last name then []
        else [mismatchedClosing offset last
                (mkToken (lit "</" ++ rest) name index)])) /\
  tagDiagnostics 0 (lit "<DIV></div>")
  = [mkDiagnostic 5 11
       (lit "Expected closing tag </DIV> but found </div>") Error] /\
  (forall name,
     isSelfClosingTag name = true <->
     In (toLowerCase name) selfClosingTags) /\
  (forall name,
     isSelfClosingTag (toLowerCase name) = isSelfClosingTag name).
Proof.
  split; [|split; [|split]].
  - intros offset last pos stack rest name index.
    unfold tagStep, Js.eqb. simpl.
    now destruct (list_eq_dec N.eq_dec last name).
  - reflexivity.
  - intros name. unfold isSelfClosingTag. split; intros H.
    + apply existsb_exists in H as [x [Hin Hx]].
      apply eqb_eq in Hx. now subst x.
    + apply existsb_exists. exists (toLowerCase name).
      split; [exact H|apply eqb_refl].
  - intros name. unfold isSelfClosingTag. f_equal.
    assert (Hidem : toLowerCase (toLowerCase name) = toLowerCase name).
    { unfold toLowerCase. rewrite map_map. apply map_ext. intros c.
      destruct (between 65 90 c) eqn:Hb; [|now rewrite Hb].
      unfold between in *.
      apply andb_true_iff in Hb as [H1 H2].
      apply N.leb_le in H1, H2.
      replace ((65 <=? c + 32)%N && (c + 32 <=? 90)%N) with false;
        [reflexivity|].
      symmetry. apply andb_false_iff. right. apply N.leb_gt. lia. }
    now rewrite Hidem.
Qed.

(** C8 as stated fails for the void elements: [BR] is taken for void
    although the set holds only [br]. *)
Lemma void_set_ignores_case : ~ void_case_sensitive.
Proof.
  intros H. specialize (H (lit "BR") eq_refl).
  unfold selfClosingTags in H. simpl in H.
  repeat (destruct H as [H|H]; [discriminate H|]). exact H.
Qed.

End ValidatorFacts.

(** ** Fold ranges *)
Module FoldingProviderFacts.
Import Regex Utils Folding Validator FoldingProvider Markup.

Lemma foldStep_wide : forall document st m st',
  Forall wide (fst st) ->
  foldStep document st m = Some st' ->
  Forall wide (fst st').
Proof.
  intros document [ranges processed] m st' Hw Hs. simpl in Hw.
  unfold foldStep in Hs.
  destruct (existsb (Nat.eqb (m_end m)) processed).
  { injection Hs as <-. exact Hw. }
  destruct (findClosingBacktick (getText document) (m_end m)) as [endPos|];
    [|discriminate].
  destruct (endPos =? -1)%Z.
  { injection Hs as <-. exact Hw. }
  destruct (spansThreeLines _ _) eqn:Hl; injection Hs as <-; simpl;
    [|exact Hw].
  apply Forall_app. split; [exact Hw|].
  constructor; [|constructor].
  unfold wide. simpl. unfold spansThreeLines in Hl.
  now apply Z.leb_le in Hl.
Qed.

Lemma foldLoop_wide : forall document cancel ms k st st',
  Forall wide (fst st) ->
  foldLoop document cancel k st ms = Some (inr st') ->
  Forall wide (fst st').
Proof.
  induction ms as [|m ms IH]; intros k st st' Hw Hl; simpl in Hl.
  - injection Hl as <-. exact Hw.
  - destruct (cancel k); [discriminate|].
    destruct (foldStep document st m) as [st1|] eqn:Hs; [|discriminate].
    eapply IH; [|exact Hl]. eapply foldStep_wide; eauto.
Qed.

Lemma filterRanges_incl : forall ranges r,
  In r (filterRanges ranges) -> In r ranges.
Proof.
  intros ranges r H. unfold filterRanges in H.
  apply in_map_iff in H as [[i x] [Hx Hin]]. simpl in Hx. subst x.
  apply filter_In in Hin as [Hin _].
  eapply in_combine_r. exact Hin.
Qed.

(** The iteration for a match: when the search returns an offset, the
    range from the line of the leader to the line of that offset is added
    exactly when the second minus the first is at least 2. *)
Lemma foldStep_range : forall document foldingRanges processedPositions m endPos,
  existsb (Nat.eqb (m_end m)) processedPositions = false ->
  findClosingBacktick (getText document) (m_end m)
  = Some (Z.of_nat endPos) ->
  let startLine := lineAt document (m_index m) in
  let endLine := lineAt document endPos in
  foldStep document (foldingRanges, processedPositions) m
  = Some (if (2 <=? Z.of_nat endLine - Z.of_nat startLine)%Z
          then foldingRanges ++ [mkRange startLine endLine]
          else foldingRanges,
          processedPositions ++ [m_end m]).
Proof.
  intros document foldingRanges processedPositions m endPos Hp Hf
    startLine endLine.
  unfold foldStep. rewrite Hp, Hf.
  replace (Z.of_nat endPos =? -1)%Z with false
    by (symmetry; apply Z.eqb_neq; lia).
  rewrite Nat2Z.id. fold endLine. fold startLine.
  unfold spansThreeLines.
  now destruct (2 <=? Z.of_nat endLine - Z.of_nat startLine)%Z.
Qed.

(** X29.  Every range that [provideFoldingRanges] returns spans three
    lines or more: its end line minus its start line is at least 2,
    whatever the document, the configured names and the lines that the
    document gives to the offsets. *)
Theorem folding_ranges_span_three_lines :
  forall tagPatterns document isCancellationRequested,
  match provideFoldingRanges tagPatterns document isCancellationRequested
  with
  | Some ranges => Forall wide ranges
  | None => True
  end.
Proof.
  intros tagPatterns document cancel. unfold provideFoldingRanges.
  destruct (foldLoop document cancel 0 ([], [])
              (execAll (foldingRegex tagPatterns) (getText document)))
    as [[u|[ranges processed]]|] eqn:Hl; [constructor| |exact I].
  apply foldLoop_wide in Hl; [|constructor]. simpl in Hl.
  apply Forall_forall. intros r Hr.
  apply filterRanges_incl in Hr.
  revert r Hr. now apply Forall_forall.
Qed.

(** C9.  A literal on three lines that gets no fold range.  In
    [nestedThreeLines] the literal [html`...`] begins on line 0, its
    content, as the extraction finds it, runs from 9 to its closing
    backtick at 20 on line 2, and the second line holds the nested literal
    [dom`a`].  The search for the closing backtick returns 17, the closing
    backtick of the nested literal on line 1, so the end line minus the
    start line is 1 and no range is emitted; the nested literal, on one
    line, gives none either.  The same literal without the nested one,
    [threeLines], is folded from line 0 to line 2, and the literal on two
    lines is not folded. *)
Theorem nested_literal_not_folded :
  map (fun m => (m_index m, m_end m))
    (execAll (foldingRegex defaultTags) nestedThreeLines)
  = [(4, 9); (12, 16)] /\
  Diagnostics.extractTemplateContent nestedThreeLines 9
  = Some (Some (substring nestedThreeLines 9 20)) /\
  lineOf nestedThreeLines 4 = 0 /\
  lineOf nestedThreeLines 20 = 2 /\
  findClosingBacktick nestedThreeLines 9 = Some 17%Z /\
  lineOf nestedThreeLines 17 = 1 /\
  provideFoldingRanges defaultTags (documentOf nestedThreeLines)
    (fun _ => false) = Some [] /\
  provideFoldingRanges defaultTags (documentOf threeLines) (fun _ => false)
  = Some [mkRange 0 2] /\
  provideFoldingRanges defaultTags (documentOf twoLines) (fun _ => false)
  = Some [].
Proof. repeat split; reflexivity. Qed.

(** C3 on a template that is commented out: the leader at 3 and its
    backtick at 6 are inside the block comment and the validation skips
    the match, yet the folding provider, which does not ask, emits the
    range of lines 1 to 4 for it. *)
Lemma commented_out_template_folds :
  map m_index (execAll (foldingRegex defaultTags) commentedOut) = [3] /\
  isInsideComment commentedOut 3 = Some true /\
  isInsideComment commentedOut 6 = Some true /\
  updateDiagnostics defaultTags javascript commentedOut = Some [] /\
  provideFoldingRanges defaultTags (documentOf commentedOut) (fun _ => false)
  = Some [mkRange 1 4].
Proof. repeat split; reflexivity. Qed.

End FoldingProviderFacts.

(** ** The outer structure of a nested literal *)
Module OuterTagsFacts.
Import Regex Utils Diagnostics Validator Markup.

(** The three outcomes on text without a leading interpolation. *)
Lemma extractOuterTags_examples :
  extractOuterTags (lit "  <br/> b") = Some (lit "<br/>") /\
  extractOuterTags (lit "<li class='a'>x</li><li>y</li>")
  = Some (lit "<li></li>") /\
  extractOuterTags (lit "x") = Some SPAN /\
  extractOuterTags (lit "${a}${c ? html`<li>x</li>` : ''}<p></p>")
  = Some (lit "<li></li>").
Proof. repeat split; reflexivity. Qed.

(** C6 on a leading interpolation that holds a literal under the bare
    annotation: the leader pattern of the validator finds the literal and
    its content [<li>x</li>], whose outer structure is [<li></li>]; the
    pattern of [extractOuterTags] does not know the bare annotation, the
    interpolation is stripped and the placeholder element comes out.  The
    same happens for a configured leader name other than [html] and [dom],
    and for an empty literal. *)
Lemma annotated_literal_not_entered :
  map (fun m => (m_index m, m_end m))
    (execAll (leaderRegex defaultTags) annotatedInside) = [(6, 17)] /\
  extractTemplateContent annotatedInside 17 = Some (Some (lit "<li>x</li>")) /\
  extractOuterTags (lit "<li>x</li>") = Some (lit "<li></li>") /\
  extractOuterTags annotatedInside = Some SPAN /\
  extractOuterTags (lit "${c ? lit`<li>x</li>` : ''}") = Some SPAN /\
  extractOuterTags (lit "${html``}<p></p>") = Some (lit "<p></p>").
Proof. repeat split; reflexivity. Qed.

End OuterTagsFacts.

(** ** Fuel

    More fuel changes no result of a loop. *)
Module FuelFacts.

Section Fuel.
Context {St R : Type}.
Variable cond : St -> bool.
Variable body : St -> step St R.
Variable after : St -> R.

Lemma while_mono : forall n m s r,
  while cond body after n s = Some r -> n <= m ->
  while cond body after m s = Some r.
Proof.
  induction n as [|n IH]; intros m s r H Hle; [discriminate|].
  destruct m as [|m]; [lia|]. simpl in *.
  destruct (cond s); [|assumption].
  destruct (body s); [|assumption]. apply IH; [assumption|lia].
Qed.

Lemma while_unique : forall n m s r r',
  while cond body after n s = Some r ->
  while cond body after m s = Some r' -> r = r'.
Proof.
  intros n m s r r' H1 H2.
  apply while_mono with (m := n + m) in H1; [|lia].
  apply while_mono with (m := n + m) in H2; [|lia]. congruence.
Qed.

Lemma while_exit : forall n s,
  cond s = false -> while cond body after (S n) s = Some (after s).
Proof. intros n s H. simpl. now rewrite H. Qed.
End Fuel.

End FuelFacts.

(** ** The comment-membership query on comments, strings and template
    text *)
Module CommentFacts.
Import Utils Comments JsFacts LoopFacts DepthFacts RoundTripFacts EscapeFacts.
Import FuelFacts.

Lemma substring_prefix : forall (text : str) p,
  substring text 0 p = firstn p text.
Proof.
  intros text p. unfold substring. simpl. rewrite Nat.sub_0_r.
  destruct (Nat.le_ge_cases p (length text)).
  - now rewrite Nat.min_l.
  - rewrite Nat.min_r by assumption. now rewrite !firstn_all2 by lia.
Qed.

Lemma charAt_firstn : forall (text : str) p j c,
  charAt (firstn p text) j = Some c -> j < p /\ charAt text j = Some c.
Proof.
  unfold charAt. intros text p. revert text.
  induction p as [|p IH]; intros text j c H.
  - destruct j; discriminate.
  - destruct text as [|x text]; [destruct j; discriminate|].
    destruct j as [|j]; simpl in *.
    + split; [lia|assumption].
    + apply IH in H as [? ?]. split; [lia|assumption].
Qed.

(** X1.  A position is reported inside a comment only
    when the text before it holds a comment opener: [isInsideComment]
    returns [true] at [position] only if some [/*] lies wholly before
    [position]. *)
Theorem inside_comment_needs_opener : forall text position,
  isInsideComment text position = Some true ->
  exists i, i + 1 < position /\
            charAt text i = Some SLASH /\ charAt text (i + 1) = Some STAR.
Proof.
  intros text position H. unfold isInsideComment in H.
  rewrite substring_prefix in H. set (bt := firstn position text) in *.
  set (opener := exists i, charAt bt i = Some SLASH /\
                             charAt bt (i + 1) = Some STAR).
  assert (Hw : exists b,
            isInsideComment_from bt (S (length bt)) isInsideComment_init
            = Some b /\ (b = true -> opener)).
  { unfold isInsideComment_from.
    apply (while_total (isInsideComment_cond bt) (isInsideComment_step bt)
             c_inComment (fun st => c_inComment st = true -> opener)
             (fun st => length bt - c_i st)).
    - intros [i ic is_ it d sc] s' Hinv Hc Hs. simpl in Hinv.
      unfold isInsideComment_cond in Hc. simpl in Hc. apply Nat.ltb_lt in Hc.
      unfold isInsideComment_step, isInsideComment_escapes in Hs. simpl in Hs.
      split_ifs; injection Hs as <-; simpl; (split; [|lia]);
        intros Ht; try discriminate; try (apply Hinv; assumption);
        unfold opener;
        repeat match goal with
          | Hb : (_ && _) = true |- _ => apply andb_true_iff in Hb as [? ?]
          | Hb : isChar _ _ = true |- _ => apply isChar_true in Hb
          end; eauto.
    - intros s r _ _ Hs. unfold isInsideComment_step in Hs.
      destruct s; simpl in Hs. split_ifs; discriminate.
    - intros s Hinv _. exact Hinv.
    - simpl. discriminate.
    - simpl. lia. }
  destruct Hw as [b [Hb Hi]]. rewrite Hb in H. injection H as ->.
  destruct (Hi eq_refl) as [i [H1 H2]].
  apply charAt_firstn in H1 as [_ H1]. apply charAt_firstn in H2 as [Hlt H2].
  exists i. auto.
Qed.

(** In [a /* b] position 5 is inside a comment; the opener is at 2. *)
Lemma inside_comment_needs_opener_witness :
  exists i, i + 1 < 5 /\
            charAt (lit "a /* b") i = Some SLASH /\
            charAt (lit "a /* b") (i + 1) = Some STAR.
Proof.
  apply (inside_comment_needs_opener (lit "a /* b") 5). reflexivity.
Defined.

Lemma codeChar_tests : forall c,
  codeChar c = true ->
  N.eqb c DQUOTE = false /\ N.eqb c SQUOTE = false /\
  N.eqb c BACKTICK = false /\ N.eqb c SLASH = false /\ N.eqb c STAR = false.
Proof.
  intros c H. unfold codeChar in H.
  repeat match goal with
    | H : (_ && _) = true |- _ => apply andb_true_iff in H as [? ?]
    | H : negb _ = true |- _ => apply negb_true_iff in H
    end. auto.
Qed.

Lemma cons_snoc : forall (a l : str) c, a ++ c :: l = (a ++ [c]) ++ l.
Proof. intros. now rewrite <- app_assoc. Qed.

Ltac at_char :=
  unfold isInsideComment_step, isInsideComment_escapes;
  cbn [c_i c_inComment c_inString c_inTemplateString c_templateDepth
       c_stringChar];
  rewrite charAt_middle, charAt_next; cbn [isChar negb andb orb];
  rewrite ?andb_false_r; cbn [isChar negb andb orb].

(** One step over a character of code, outside of everything. *)
Lemma step_code : forall a c rest d sc,
  codeChar c = true ->
  isInsideComment_step (a ++ c :: rest) (mkC (length a) false false false d sc)
  = Next (mkC (length a + 1) false false false d sc).
Proof.
  intros a c rest d sc H.
  apply codeChar_tests in H as (H1 & H2 & H3 & H4 & H5).
  at_char. now rewrite H1, H2, H3, H4, H5.
Qed.

(** One step inside a comment that the character does not close. *)
Lemma step_comment : forall a c rest d sc,
  N.eqb c SLASH = false ->
  N.eqb c STAR && isChar (hd_error rest) SLASH = false ->
  isInsideComment_step (a ++ c :: rest) (mkC (length a) true false false d sc)
  = Next (mkC (length a + 1) true false false d sc).
Proof.
  intros a c rest d sc H1 H2. at_char. now rewrite H1, H2.
Qed.

Lemma step_open : forall a rest d sc,
  isInsideComment_step (a ++ SLASH :: STAR :: rest)
    (mkC (length a) false false false d sc)
  = Next (mkC (length a + 2) true false false d sc).
Proof. intros. now at_char. Qed.

Lemma step_close : forall a rest d sc,
  isInsideComment_step (a ++ STAR :: SLASH :: rest)
    (mkC (length a) true false false d sc)
  = Next (mkC (length a + 2) false false false d sc).
Proof. intros. now at_char. Qed.

Lemma cond_middle : forall (a rest : str) c ic is_ it d sc,
  isInsideComment_cond (a ++ c :: rest) (mkC (length a) ic is_ it d sc) = true.
Proof. intros. unfold isInsideComment_cond. simpl. apply length_middle. Qed.

Lemma code_run : forall seg a rest d sc n r,
  forallb codeChar seg = true ->
  isInsideComment_from (a ++ seg ++ rest) n
    (mkC (length a + length seg) false false false d sc) = Some r ->
  isInsideComment_from (a ++ seg ++ rest) (length seg + n)
    (mkC (length a) false false false d sc) = Some r.
Proof.
  induction seg as [|c seg IH]; intros a rest d sc n r Hs H.
  - simpl in *. now rewrite Nat.add_0_r in H.
  - simpl in Hs. apply andb_true_iff in Hs as [Hc Hs].
    unfold isInsideComment_from in *. simpl app.
    change (length (c :: seg) + n) with (S (length seg + n)).
    rewrite (while_next _ _ _ _ _ _ (cond_middle _ _ _ _ _ _ _ _)
               (step_code _ _ _ _ _ Hc)).
    rewrite cons_snoc. rewrite <- (length_snoc a c).
    apply IH; [assumption|].
    rewrite <- cons_snoc, length_snoc. simpl in H.
    now replace (length a + 1 + length seg) with (length a + S (length seg)) by lia.
Qed.


Lemma comment_run : forall seg a rest d sc n r,
  forallb noSlash seg = true ->
  isChar (hd_error rest) SLASH = false ->
  isInsideComment_from (a ++ seg ++ rest) n
    (mkC (length a + length seg) true false false d sc) = Some r ->
  isInsideComment_from (a ++ seg ++ rest) (length seg + n)
    (mkC (length a) true false false d sc) = Some r.
Proof.
  induction seg as [|c seg IH]; intros a rest d sc n r Hs Hr H.
  - simpl in *. now rewrite Nat.add_0_r in H.
  - simpl in Hs. apply andb_true_iff in Hs as [Hc Hs].
    unfold noSlash in Hc. apply negb_true_iff in Hc.
    unfold isInsideComment_from in *. simpl app.
    change (length (c :: seg) + n) with (S (length seg + n)).
    assert (Hn : N.eqb c STAR && isChar (hd_error (seg ++ rest)) SLASH = false).
    { destruct seg as [|c' seg']; simpl.
      - simpl in Hr. rewrite Hr. apply andb_false_r.
      - simpl in Hs. apply andb_true_iff in Hs as [Hc' _].
        unfold noSlash in Hc'. apply negb_true_iff in Hc'.
        rewrite Hc'. apply andb_false_r. }
    rewrite (while_next _ _ _ _ _ _ (cond_middle _ _ _ _ _ _ _ _)
               (step_comment _ _ _ _ _ Hc Hn)).
    rewrite cons_snoc. rewrite <- (length_snoc a c).
    apply IH; [assumption|assumption|].
    rewrite <- cons_snoc, length_snoc. simpl in H.
    now replace (length a + 1 + length seg) with (length a + S (length seg)) by lia.
Qed.

(** The runs and steps for a text given by an equation. *)
Lemma over_code : forall bt a seg rest i j d sc n r,
  bt = a ++ seg ++ rest -> i = length a -> j = length a + length seg ->
  forallb codeChar seg = true ->
  isInsideComment_from bt n (mkC j false false false d sc) = Some r ->
  isInsideComment_from bt (length seg + n) (mkC i false false false d sc)
  = Some r.
Proof. intros; subst. now apply code_run. Qed.

Lemma over_comment : forall bt a seg rest i j d sc n r,
  bt = a ++ seg ++ rest -> i = length a -> j = length a + length seg ->
  forallb noSlash seg = true ->
  isChar (hd_error rest) SLASH = false ->
  isInsideComment_from bt n (mkC j true false false d sc) = Some r ->
  isInsideComment_from bt (length seg + n) (mkC i true false false d sc)
  = Some r.
Proof. intros; subst. now apply comment_run. Qed.

Lemma over_open : forall bt a rest i d sc n r,
  bt = a ++ SLASH :: STAR :: rest -> i = length a ->
  isInsideComment_from bt n (mkC (i + 2) true false false d sc) = Some r ->
  isInsideComment_from bt (S n) (mkC i false false false d sc) = Some r.
Proof.
  intros; subst. unfold isInsideComment_from in *.
  now rewrite (while_next _ _ _ _ _ _ (cond_middle _ _ _ _ _ _ _ _)
                 (step_open _ _ _ _)).
Qed.

Lemma over_close : forall bt a rest i d sc n r,
  bt = a ++ STAR :: SLASH :: rest -> i = length a ->
  isInsideComment_from bt n (mkC (i + 2) false false false d sc) = Some r ->
  isInsideComment_from bt (S n) (mkC i true false false d sc) = Some r.
Proof.
  intros; subst. unfold isInsideComment_from in *.
  now rewrite (while_next _ _ _ _ _ _ (cond_middle _ _ _ _ _ _ _ _)
                 (step_close _ _ _ _)).
Qed.

(** A slash, or a star inside a comment, at the very end of the text. *)
Lemma over_last : forall bt a c ic i d sc n r,
  bt = a ++ [c] -> i = length a ->
  N.eqb c SLASH = negb ic -> N.eqb c STAR = ic ->
  isInsideComment_from bt n (mkC (i + 1) ic false false d sc) = Some r ->
  isInsideComment_from bt (S n) (mkC i ic false false d sc) = Some r.
Proof.
  intros bt a c ic i d sc n r -> -> H1 H2 H. unfold isInsideComment_from in *.
  rewrite (while_next _ _ _ _ _ (mkC (length a + 1) ic false false d sc)
             (cond_middle _ _ _ _ _ _ _ _)); [assumption|].
  at_char. destruct ic; simpl in *.
  - reflexivity.
  - apply N.eqb_eq in H1. subst c. reflexivity.
Qed.

Lemma at_end : forall bt i ic is_ it d sc,
  length bt <= i ->
  isInsideComment_from bt 1 (mkC i ic is_ it d sc) = Some ic.
Proof.
  intros. unfold isInsideComment_from. rewrite while_exit; [reflexivity|].
  unfold isInsideComment_cond. apply Nat.ltb_ge. assumption.
Qed.

Lemma forallb_firstn : forall (f : N -> bool) k l,
  forallb f l = true -> forallb f (firstn k l) = true.
Proof.
  intros f k. induction k as [|k IH]; intros [|x l] H; simpl in *; trivial.
  apply andb_true_iff in H as [H1 H2]. rewrite H1. now apply IH.
Qed.


Ltac lists :=
  rewrite ?app_nil_r, <- ?app_assoc; simpl;
  rewrite ?app_nil_r, <- ?app_assoc; reflexivity.
Ltac lengths := rewrite ?length_app; simpl; rewrite ?length_app; simpl; lia.

(** X2.  In [pre /* body */ post], where [pre] and [post] hold
    no quote, backtick, slash or star and [body] holds no slash, the
    positions inside the comment are exactly those from the end of [/*] to
    just before the end of [*/]: [isInsideComment] is [true] at [position]
    when [length pre + 2 <= position < length pre + length body + 4], and
    [false] at every other position, those beyond the end of the text
    included. *)
Theorem block_comment_span : forall pre body post position,
  forallb codeChar pre = true ->
  forallb noSlash body = true ->
  forallb codeChar post = true ->
  isInsideComment (blockComment pre body post) position
  = Some ((length pre + 2 <=? position)
          && (position <? length pre + length body + 4)).
Proof.
  intros pre body post p Hpre Hbody Hpost.
  destruct (ScanTotal.isInsideComment_total (blockComment pre body post) p)
    as [b Hb].
  rewrite Hb. f_equal. unfold isInsideComment in Hb.
  rewrite substring_prefix in Hb. unfold isInsideComment_init in Hb.
  unfold blockComment in Hb.
  change (lit "/*") with [SLASH; STAR] in Hb.
  change (lit "*/") with [STAR; SLASH] in Hb.
  set (e := (length pre + 2 <=? p) && (p <? length pre + length body + 4)).
  cut (exists bt n,
         firstn p (pre ++ [SLASH; STAR] ++ body ++ [STAR; SLASH] ++ post) = bt /\
         isInsideComment_from bt n (mkC 0 false false false 0 None) = Some e).
  { intros (bt & n & Hbt & Hrun). rewrite Hbt in Hb.
    eapply while_unique; [exact Hb|exact Hrun]. }
  destruct (le_lt_dec p (length pre)) as [H1|H1].
  { (* inside [pre] *)
    assert (e = false) as ->
      by (apply andb_false_iff; left; apply Nat.leb_gt; lia).
    exists (firstn p pre). eexists. split.
    - rewrite firstn_app. replace (p - length pre) with 0 by lia.
      simpl. apply app_nil_r.
    - apply over_code with (a := []) (seg := firstn p pre) (rest := [])
                           (j := length (firstn p pre));
        [lists|reflexivity|reflexivity|now apply forallb_firstn|].
      apply at_end. lia. }
  destruct (Nat.eq_dec p (length pre + 1)) as [H2|H2].
  { (* between the slash and the star *)
    assert (e = false) as ->
      by (apply andb_false_iff; left; apply Nat.leb_gt; lia).
    exists (pre ++ [SLASH]). eexists. split.
    - subst p. now rewrite firstn_app_2.
    - apply over_code with (a := []) (seg := pre) (rest := [SLASH])
                           (j := length pre);
        [lists|reflexivity|reflexivity|assumption|].
      apply over_last with (a := pre) (c := SLASH);
        [reflexivity|reflexivity|reflexivity|reflexivity|].
      apply at_end. lengths. }
  destruct (le_lt_dec p (length pre + 2 + length body)) as [H3|H3].
  { (* inside the comment *)
    assert (e = true) as ->
      by (apply andb_true_iff; split;
          [apply Nat.leb_le|apply Nat.ltb_lt]; lia).
    set (k := p - length pre - 2).
    exists (pre ++ [SLASH; STAR] ++ firstn k body). eexists. split.
    - replace p with (length pre + (2 + k)) by (unfold k; lia).
      rewrite firstn_app_2. simpl. rewrite firstn_app.
      replace (k - length body) with 0 by (unfold k; lia).
      simpl. now rewrite app_nil_r.
    - apply over_code with (a := []) (seg := pre)
                           (rest := [SLASH; STAR] ++ firstn k body)
                           (j := length pre);
        [lists|reflexivity|reflexivity|assumption|].
      apply over_open with (a := pre) (rest := firstn k body);
        [lists|reflexivity|].
      apply over_comment with (a := pre ++ [SLASH; STAR]) (seg := firstn k body)
                              (rest := [])
                              (j := length pre + 2 + length (firstn k body));
        [lists|lengths|lengths|now apply forallb_firstn|reflexivity|].
      apply at_end. lengths. }
  destruct (Nat.eq_dec p (length pre + length body + 3)) as [H4|H4].
  { (* between the star and the slash *)
    assert (e = true) as ->
      by (apply andb_true_iff; split;
          [apply Nat.leb_le|apply Nat.ltb_lt]; lia).
    exists (pre ++ [SLASH; STAR] ++ body ++ [STAR]). eexists. split.
    - replace p with (length pre + (2 + (length body + 1))) by lia.
      rewrite firstn_app_2. simpl. now rewrite firstn_app_2.
    - apply over_code with (a := []) (seg := pre)
                           (rest := [SLASH; STAR] ++ body ++ [STAR])
                           (j := length pre);
        [lists|reflexivity|reflexivity|assumption|].
      apply over_open with (a := pre) (rest := body ++ [STAR]);
        [lists|reflexivity|].
      apply over_comment with (a := pre ++ [SLASH; STAR]) (seg := body)
                              (rest := [STAR])
                              (j := length pre + 2 + length body);
        [lists|lengths|lengths|assumption|reflexivity|].
      apply over_last with (a := pre ++ [SLASH; STAR] ++ body) (c := STAR);
        [lists|lengths|reflexivity|reflexivity|].
      apply at_end. lengths. }
  (* after the comment *)
  assert (e = false) as ->
    by (apply andb_false_iff; right; apply Nat.ltb_ge; lia).
  set (k := p - length pre - length body - 4).
  exists (pre ++ [SLASH; STAR] ++ body ++ [STAR; SLASH] ++ firstn k post).
  eexists. split.
  - replace p with (length pre + (2 + (length body + (2 + k))))
      by (unfold k; lia).
    rewrite firstn_app_2. simpl. now rewrite firstn_app_2.
  - apply over_code with (a := []) (seg := pre)
        (rest := [SLASH; STAR] ++ body ++ [STAR; SLASH] ++ firstn k post)
        (j := length pre);
      [lists|reflexivity|reflexivity|assumption|].
    apply over_open with (a := pre)
        (rest := body ++ [STAR; SLASH] ++ firstn k post);
      [lists|reflexivity|].
    apply over_comment with (a := pre ++ [SLASH; STAR]) (seg := body)
        (rest := [STAR; SLASH] ++ firstn k post)
        (j := length pre + 2 + length body);
      [lists|lengths|lengths|assumption|reflexivity|].
    apply over_close with (a := pre ++ [SLASH; STAR] ++ body)
        (rest := firstn k post);
      [lists|lengths|].
    apply over_code with (a := pre ++ [SLASH; STAR] ++ body ++ [STAR; SLASH])
        (seg := firstn k post) (rest := [])
        (j := length pre + 2 + length body + 2 + length (firstn k post));
      [lists|lengths|lengths|now apply forallb_firstn|].
    apply at_end. lengths.
Qed.

(** [x = 1; /* html */ y]: position 10 is inside the comment. *)
Lemma block_comment_span_witness :
  isInsideComment (blockComment (lit "x = 1; ") (lit " html ") (lit " y")) 10
  = Some true.
Proof.
  apply (block_comment_span (lit "x = 1; ") (lit " html ") (lit " y") 10);
    reflexivity.
Defined.


(** A run of characters over which the flags stay as they are. *)
Lemma steady_run : forall ic is_ it d sc (ok : N -> bool),
  (forall a c rest, ok c = true ->
     isInsideComment_step (a ++ c :: rest) (mkC (length a) ic is_ it d sc)
     = Next (mkC (length a + 1) ic is_ it d sc)) ->
  forall seg bt a rest i j n r,
  bt = a ++ seg ++ rest -> i = length a -> j = length a + length seg ->
  forallb ok seg = true ->
  isInsideComment_from bt n (mkC j ic is_ it d sc) = Some r ->
  isInsideComment_from bt (length seg + n) (mkC i ic is_ it d sc) = Some r.
Proof.
  intros ic is_ it d sc ok Hstep.
  induction seg as [|c seg IH]; intros bt a rest i j n r -> -> -> Hs H.
  - simpl in *. now rewrite Nat.add_0_r in H.
  - simpl in Hs. apply andb_true_iff in Hs as [Hc Hs].
    unfold isInsideComment_from. simpl app.
    change (length (c :: seg) + n) with (S (length seg + n)).
    rewrite (while_next _ _ _ _ _ _ (cond_middle _ _ _ _ _ _ _ _)
               (Hstep _ _ _ Hc)).
    apply (IH _ (a ++ [c]) rest _ (length a + S (length seg)));
      [lists|lengths|lengths|assumption|exact H].
Qed.

Lemma step_string : forall q ic it d a c rest,
  stringText q c = true ->
  isInsideComment_step (a ++ c :: rest) (mkC (length a) ic true it d (Some q))
  = Next (mkC (length a + 1) ic true it d (Some q)).
Proof.
  intros q ic it d a c rest H. unfold stringText in H.
  apply andb_true_iff in H as [H1 H2].
  apply negb_true_iff in H1, H2.
  at_char. cbn [same]. rewrite H1, H2. cbn [negb andb orb].
  destruct ic, it; reflexivity.
Qed.

Lemma step_template : forall d sc a c rest,
  templateChar c = true ->
  isInsideComment_step (a ++ c :: rest) (mkC (length a) false false true d sc)
  = Next (mkC (length a + 1) false false true d sc).
Proof.
  intros d sc a c rest H. unfold templateChar in H.
  repeat match goal with
    | H : (_ && _) = true |- _ => apply andb_true_iff in H as [? ?]
    | H : negb _ = true |- _ => apply negb_true_iff in H
    end.
  at_char.
  repeat match goal with H : N.eqb c _ = false |- _ => rewrite H; clear H end.
  reflexivity.
Qed.

Lemma step_template_comment : forall d sc a c rest,
  commentChar c = true ->
  isInsideComment_step (a ++ c :: rest) (mkC (length a) true false true d sc)
  = Next (mkC (length a + 1) true false true d sc).
Proof.
  intros d sc a c rest H. unfold commentChar in H.
  repeat match goal with
    | H : (_ && _) = true |- _ => apply andb_true_iff in H as [? ?]
    | H : negb _ = true |- _ => apply negb_true_iff in H
    end.
  at_char.
  repeat match goal with H : N.eqb c _ = false |- _ => rewrite H; clear H end.
  reflexivity.
Qed.

(** One step from a state to another, for a text given by an equation. *)
Lemma over_step : forall bt a c rest i st' n r,
  bt = a ++ c :: rest -> i = length a ->
  forall ic is_ it d sc,
  isInsideComment_step (a ++ c :: rest) (mkC (length a) ic is_ it d sc)
  = Next st' ->
  isInsideComment_from bt n st' = Some r ->
  isInsideComment_from bt (S n) (mkC i ic is_ it d sc) = Some r.
Proof.
  intros bt a c rest i st' n r -> -> ic is_ it d sc Hs H.
  unfold isInsideComment_from in *.
  now rewrite (while_next _ _ _ _ _ _ (cond_middle _ _ _ _ _ _ _ _) Hs).
Qed.

(** X3.  Comment delimiters inside a quoted string are
    not seen: in [pre "body" post] (double or single quotes), where [pre]
    and [post] hold no quote, backtick, slash or star and [body] holds
    neither the quote nor a backslash -- it may hold [/*] --, no position
    is inside a comment. *)
Theorem quoted_string_hides_comments : forall double pre body post position,
  forallb codeChar pre = true ->
  forallb (stringText (Literal.quoteOf double)) body = true ->
  forallb codeChar post = true ->
  isInsideComment (quotedString double pre body post) position = Some false.
Proof.
  intros double pre body post p Hpre Hbody Hpost.
  set (q := Literal.quoteOf double) in *.
  destruct (ScanTotal.isInsideComment_total
              (quotedString double pre body post) p) as [b Hb].
  rewrite Hb. f_equal. unfold isInsideComment in Hb.
  rewrite substring_prefix in Hb. unfold isInsideComment_init in Hb.
  unfold quotedString in Hb. fold q in Hb.
  cut (exists bt n,
         firstn p (pre ++ q :: body ++ q :: post) = bt /\
         isInsideComment_from bt n (mkC 0 false false false 0 None)
         = Some false).
  { intros (bt & n & Hbt & Hrun). rewrite Hbt in Hb.
    eapply while_unique; [exact Hb|exact Hrun]. }
  assert (Hopen : forall a rest d sc,
            isInsideComment_step (a ++ q :: rest)
              (mkC (length a) false false false d sc)
            = Next (mkC (length a + 1) false true false d (Some q))).
  { intros. at_char. unfold q. destruct double; reflexivity. }
  assert (Hclose : forall a rest d,
            isInsideComment_step (a ++ q :: rest)
              (mkC (length a) false true false d (Some q))
            = Next (mkC (length a + 1) false false false d (Some q))).
  { intros. at_char. unfold q. destruct double; reflexivity. }
  destruct (le_lt_dec p (length pre)) as [H1|H1].
  { exists (firstn p pre). eexists. split.
    - rewrite firstn_app. replace (p - length pre) with 0 by lia.
      simpl. apply app_nil_r.
    - apply over_code with (a := []) (seg := firstn p pre) (rest := [])
                           (j := length (firstn p pre));
        [lists|reflexivity|reflexivity|now apply forallb_firstn|].
      apply at_end. lia. }
  destruct (le_lt_dec p (length pre + 1 + length body)) as [H2|H2].
  { set (k := p - length pre - 1).
    exists (pre ++ q :: firstn k body). eexists. split.
    - replace p with (length pre + (1 + k)) by (unfold k; lia).
      rewrite firstn_app_2. simpl. rewrite firstn_app.
      replace (k - length body) with 0 by (unfold k; lia).
      simpl. now rewrite app_nil_r.
    - apply over_code with (a := []) (seg := pre) (rest := q :: firstn k body)
                           (j := length pre);
        [lists|reflexivity|reflexivity|assumption|].
      eapply over_step with (a := pre) (c := q) (rest := firstn k body);
        [lists|reflexivity|apply Hopen|].
      eapply (steady_run _ _ _ _ _ _ (step_string q false false 0))
        with (a := pre ++ [q]) (seg := firstn k body) (rest := []);
        [lists|lengths|reflexivity|now apply forallb_firstn|].
      apply at_end. lengths. }
  set (k := p - length pre - length body - 2).
  exists (pre ++ q :: body ++ q :: firstn k post). eexists. split.
  - replace p with (length pre + (1 + (length body + (1 + k))))
      by (unfold k; lia).
    rewrite firstn_app_2. simpl. now rewrite firstn_app_2.
  - apply over_code with (a := []) (seg := pre)
        (rest := q :: body ++ q :: firstn k post) (j := length pre);
      [lists|reflexivity|reflexivity|assumption|].
    eapply over_step with (a := pre) (c := q)
        (rest := body ++ q :: firstn k post);
      [lists|reflexivity|apply Hopen|].
    eapply (steady_run _ _ _ _ _ _ (step_string q false false 0))
      with (a := pre ++ [q]) (seg := body) (rest := q :: firstn k post);
      [lists|lengths|reflexivity|assumption|].
    eapply over_step with (a := pre ++ q :: body) (c := q)
        (rest := firstn k post);
      [lists|lengths|apply Hclose|].
    apply over_code with (a := pre ++ q :: body ++ [q])
        (seg := firstn k post) (rest := [])
        (j := length pre + 1 + length body + 1 + length (firstn k post));
      [lists|lengths|lengths|now apply forallb_firstn|].
    apply at_end. lengths.
Qed.

(** A string that holds a comment opener and a backtick. *)
Lemma quoted_string_hides_comments_witness :
  isInsideComment
    (quotedString true (lit "s = ") (lit "/* html */`<div>") (lit ";")) 12
  = Some false.
Proof.
  apply (quoted_string_hides_comments true (lit "s = ")
           (lit "/* html */`<div>") (lit ";") 12); reflexivity.
Defined.


(** X4.  The text of a template literal is not protected
    in the way a quoted string is: in [pre ` mid /* body], where [pre] is
    plain code, [mid] is template text without backtick, backslash, [$],
    [}], slash or star, and [body] holds no backslash, slash or star,
    every position after the [/*] is inside a comment and no position
    before its end is. *)
Theorem template_text_comment : forall pre mid body position,
  forallb codeChar pre = true ->
  forallb templateChar mid = true ->
  forallb commentChar body = true ->
  isInsideComment (pre ++ BACKTICK :: mid ++ lit "/*" ++ body) position
  = Some (length pre + length mid + 3 <=? position).
Proof.
  intros pre mid body p Hpre Hmid Hbody.
  change (lit "/*") with [SLASH; STAR].
  destruct (ScanTotal.isInsideComment_total
              (pre ++ BACKTICK :: mid ++ [SLASH; STAR] ++ body) p) as [b Hb].
  rewrite Hb. f_equal. unfold isInsideComment in Hb.
  rewrite substring_prefix in Hb. unfold isInsideComment_init in Hb.
  set (e := length pre + length mid + 3 <=? p).
  cut (exists bt n,
         firstn p (pre ++ BACKTICK :: mid ++ [SLASH; STAR] ++ body) = bt /\
         isInsideComment_from bt n (mkC 0 false false false 0 None) = Some e).
  { intros (bt & n & Hbt & Hrun). rewrite Hbt in Hb.
    eapply while_unique; [exact Hb|exact Hrun]. }
  assert (Hopen : forall a rest,
            isInsideComment_step (a ++ BACKTICK :: rest)
              (mkC (length a) false false false 0 None)
            = Next (mkC (length a + 1) false false true 0 None)).
  { intros. now at_char. }
  destruct (le_lt_dec p (length pre)) as [H1|H1].
  { assert (e = false) as -> by (apply Nat.leb_gt; lia).
    exists (firstn p pre). eexists. split.
    - rewrite firstn_app. replace (p - length pre) with 0 by lia.
      simpl. apply app_nil_r.
    - apply over_code with (a := []) (seg := firstn p pre) (rest := [])
                           (j := length (firstn p pre));
        [lists|reflexivity|reflexivity|now apply forallb_firstn|].
      apply at_end. lia. }
  destruct (le_lt_dec p (length pre + 1 + length mid)) as [H2|H2].
  { assert (e = false) as -> by (apply Nat.leb_gt; lia).
    set (k := p - length pre - 1).
    exists (pre ++ BACKTICK :: firstn k mid). eexists. split.
    - replace p with (length pre + (1 + k)) by (unfold k; lia).
      rewrite firstn_app_2. simpl. rewrite firstn_app.
      replace (k - length mid) with 0 by (unfold k; lia).
      simpl. now rewrite app_nil_r.
    - apply over_code with (a := []) (seg := pre)
          (rest := BACKTICK :: firstn k mid) (j := length pre);
        [lists|reflexivity|reflexivity|assumption|].
      eapply over_step with (a := pre) (c := BACKTICK) (rest := firstn k mid);
        [lists|reflexivity|apply Hopen|].
      eapply (steady_run _ _ _ _ _ _ (step_template 0 None))
        with (a := pre ++ [BACKTICK]) (seg := firstn k mid) (rest := []);
        [lists|lengths|reflexivity|now apply forallb_firstn|].
      apply at_end. lengths. }
  destruct (Nat.eq_dec p (length pre + length mid + 2)) as [H3|H3].
  { assert (e = false) as -> by (apply Nat.leb_gt; lia).
    exists (pre ++ BACKTICK :: mid ++ [SLASH]). eexists. split.
    - replace p with (length pre + (1 + (length mid + 1))) by lia.
      rewrite firstn_app_2. simpl. now rewrite firstn_app_2.
    - apply over_code with (a := []) (seg := pre)
          (rest := BACKTICK :: mid ++ [SLASH]) (j := length pre);
        [lists|reflexivity|reflexivity|assumption|].
      eapply over_step with (a := pre) (c := BACKTICK) (rest := mid ++ [SLASH]);
        [lists|reflexivity|apply Hopen|].
      eapply (steady_run _ _ _ _ _ _ (step_template 0 None))
        with (a := pre ++ [BACKTICK]) (seg := mid) (rest := [SLASH]);
        [lists|lengths|reflexivity|assumption|].
      eapply over_step with (a := pre ++ BACKTICK :: mid) (c := SLASH)
          (rest := []) (st' := mkC (length pre + 1 + length mid + 1)
                                 false false true 0 None);
        [lists|lengths| |].
      + at_char. rewrite length_app. simpl. do 2 f_equal. lia.
      + apply at_end. lengths. }
  assert (e = true) as -> by (apply Nat.leb_le; lia).
  set (k := p - length pre - length mid - 3).
  exists (pre ++ BACKTICK :: mid ++ [SLASH; STAR] ++ firstn k body).
  eexists. split.
  - replace p with (length pre + (1 + (length mid + (2 + k))))
      by (unfold k; lia).
    rewrite firstn_app_2. simpl. now rewrite firstn_app_2.
  - apply over_code with (a := []) (seg := pre)
        (rest := BACKTICK :: mid ++ [SLASH; STAR] ++ firstn k body)
        (j := length pre);
      [lists|reflexivity|reflexivity|assumption|].
    eapply over_step with (a := pre) (c := BACKTICK)
        (rest := mid ++ [SLASH; STAR] ++ firstn k body);
      [lists|reflexivity|apply Hopen|].
    eapply (steady_run _ _ _ _ _ _ (step_template 0 None))
      with (a := pre ++ [BACKTICK]) (seg := mid)
           (rest := [SLASH; STAR] ++ firstn k body);
      [lists|lengths|reflexivity|assumption|].
    eapply over_step with (a := pre ++ BACKTICK :: mid) (c := SLASH)
        (rest := STAR :: firstn k body)
        (st' := mkC (length pre + 1 + length mid + 2) true false true 0 None);
      [lists|lengths| |].
    + at_char. rewrite length_app. simpl. do 2 f_equal. lia.
    + eapply (steady_run _ _ _ _ _ _ (step_template_comment 0 None))
        with (a := pre ++ BACKTICK :: mid ++ [SLASH; STAR])
             (seg := firstn k body) (rest := []);
        [lists|lengths|reflexivity|now apply forallb_firstn|].
      apply at_end. lengths.
Qed.

(** A literal whose attribute value holds [/*]: the position after it is
    inside a comment. *)
Lemma template_text_comment_witness :
  isInsideComment
    (lit "x = html" ++ BACKTICK :: lit "<a href='x:" ++ lit "/*" ++ lit "'>") 22
  = Some true.
Proof.
  apply (template_text_comment (lit "x = html") (lit "<a href='x:") (lit "'>")
           22); reflexivity.
Defined.

End CommentFacts.

(** ** The matches of the leader patterns and the loop over them *)
Module LeaderFacts.
Import Regex Utils Folding Diagnostics Validator FoldingProvider Leaders.
Import JsFacts.
Import LoopFacts RegexFacts FoldingFacts.

Section Advances.
Context {A : Type}.
Variable text : str.

(** A match that succeeds ends in its continuation, at an index that is
    not before the one it began at. *)
Lemma rmatch_advances : forall r i caps (k : nat -> captures -> option A) x,
  rmatch text r i caps k = Some x ->
  exists j caps', i <= j /\ k j caps' = Some x.
Proof.
  induction r as [|p|a IHa b IHb|a IHa b IHb|g a IHa|n a IHa| | |];
    intros i caps k x H; cbn [rmatch] in H.
  - eauto.
  - destruct (charAt text i) as [c|]; [|discriminate].
    destruct (p c); [|discriminate]. exists (i + 1), caps. split; [lia|exact H].
  - apply IHa in H as (j & caps' & Hj & H).
    apply IHb in H as (j' & caps'' & Hj' & H). exists j', caps''. split; [lia|exact H].
  - destruct (rmatch text a i caps k) eqn:Ha.
    + injection H as ->. now apply IHa in Ha.
    + now apply IHb in H.
  - revert H. generalize (S (length text)). intros fuel. revert i caps.
    induction fuel as [|fuel IHf]; intros i caps H; simpl in H; [eauto|].
    destruct g.
    + destruct (rmatch text a i caps _) eqn:Hm.
      * injection H as ->. apply IHa in Hm as (j & caps' & Hj & Hm).
        destruct (j <=? i); [discriminate|].
        apply IHf in Hm as (j' & caps'' & Hj' & Hm).
        exists j', caps''. split; [lia|exact Hm].
      * eauto.
    + destruct (k i caps) eqn:Hk.
      * injection H as ->. eauto.
      * apply IHa in H as (j & caps' & Hj & Hm).
        destruct (j <=? i); [discriminate|].
        apply IHf in Hm as (j' & caps'' & Hj' & Hm).
        exists j', caps''. split; [lia|exact Hm].
  - apply IHa in H as (j & caps' & Hj & H). eauto.
  - destruct (wordBoundary text i); [eauto|discriminate].
  - destruct (i =? 0); [eauto|discriminate].
  - destruct (i =? length text); [eauto|discriminate].
Qed.
End Advances.

Lemma matchAt_endsIn : forall r c text i m,
  matchAt (Cat r (chr c)) text i = Some m -> endsIn c text i m.
Proof.
  intros r c text i m H. unfold matchAt in H. cbn [rmatch chr] in H.
  apply rmatch_advances in H as (j & caps' & Hj & H).
  destruct (charAt text j) as [d|] eqn:Hd; [|discriminate].
  destruct (N.eqb_spec c d) as [->|]; [|discriminate].
  injection H as <-. unfold endsIn. simpl.
  replace (j + 1 - 1) with j by lia.
  apply charAt_Some_lt in Hd as Hlt. repeat split; try lia. exact Hd.
Qed.

Lemma search_endsIn : forall r c text fuel i m,
  search fuel (Cat r (chr c)) text i = Some m -> endsIn c text i m.
Proof.
  intros r c text. induction fuel as [|n IH]; intros i m H; simpl in H;
    destruct (matchAt (Cat r (chr c)) text i) eqn:Hm.
  - injection H as <-. eapply matchAt_endsIn; eauto.
  - discriminate.
  - injection H as <-. eapply matchAt_endsIn; eauto.
  - destruct (i <? length text); [|discriminate].
    apply IH in H. unfold endsIn in *. intuition lia.
Qed.

Lemma matches_endsIn : forall r c text fuel i,
  Forall (endsIn c text i) (matches fuel (Cat r (chr c)) text i).
Proof.
  intros r c text. induction fuel as [|n IH]; intros i; simpl; [constructor|].
  unfold exec.
  destruct (search (length text) (Cat r (chr c)) text i) as [m|] eqn:Hs;
    [|constructor].
  apply search_endsIn in Hs.
  destruct (m_end m <=? i); constructor; try assumption; try constructor.
  eapply Forall_impl; [|apply IH].
  intros m' H. unfold endsIn in *. intuition lia.
Qed.





Lemma findClosingBacktick_returns : forall text startPos,
  exists r, findClosingBacktick text startPos = Some r.
Proof.
  intros text startPos. unfold findClosingBacktick.
  destruct (while_total (findClosingBacktick_cond text)
              (findClosingBacktick_step text) (fun _ => (-1)%Z)
              (fun st => startPos <= f_i st)
              (fun st => length text - f_i st) (fun _ => True))
    with (fuel := S (length text)) (s := findClosingBacktick_init startPos)
    as [r [Hr _]]; auto.
  - intros s s'. apply findClosingBacktick_step_next.
  - simpl. lia.
  - now exists r.
Qed.

Lemma foldStep_returns : forall document st m,
  exists st', foldStep document st m = Some st' /\
    forall p, In p (snd st') -> In p (snd st) \/ p = m_end m.
Proof.
  intros document [ranges processed] m. unfold foldStep.
  destruct (existsb (Nat.eqb (m_end m)) processed); [eauto|].
  destruct (findClosingBacktick_returns (getText document) (m_end m))
    as [endPos ->].
  assert (Hp : forall p, In p (processed ++ [m_end m]) ->
                In p (snd (ranges, processed)) \/ p = m_end m).
  { intros p Hp. apply in_app_iff in Hp as [Hp|[<-|[]]]; auto. }
  destruct (endPos =? -1)%Z; [eauto|].
  destruct (spansThreeLines _ _); eauto.
Qed.






(** The loop when the token is cancelled at some iteration. *)
Lemma foldLoop_cancelled : forall document cancel ms k st j,
  j < length ms -> cancel (k + j) = true ->
  foldLoop document cancel k st ms = Some (inl tt).
Proof.
  intros document cancel. induction ms as [|m ms IH]; intros k st j Hj Hc;
    simpl in *; [lia|].
  destruct (cancel k) eqn:Hk; [reflexivity|].
  destruct (foldStep_returns document st m) as (st1 & -> & _).
  destruct j as [|j]; [rewrite Nat.add_0_r in Hc; congruence|].
  apply (IH (S k) st1 j); [lia|].
  now replace (S k + j) with (k + S j) by lia.
Qed.

(** X7.  When the cancellation token is set at
    the iteration of some match, [provideFoldingRanges] returns the empty
    list, whatever ranges the matches before had given. *)
Theorem cancelled_request_gives_no_range :
  forall tagPatterns document isCancellationRequested j,
  j < length (execAll (foldingRegex tagPatterns) (getText document)) ->
  isCancellationRequested j = true ->
  provideFoldingRanges tagPatterns document isCancellationRequested = Some [].
Proof.
  intros tagPatterns document cancel j Hj Hc. unfold provideFoldingRanges.
  now rewrite (foldLoop_cancelled document cancel _ 0 ([], []) j Hj Hc).
Qed.

(** The two literals of [twoLiterals], each folded when the request is
    not cancelled.  With the token set at the second match, the range
    that the first match has given is not returned. *)
Lemma cancelled_request_gives_no_range_witness :
  provideFoldingRanges Markup.defaultTags (documentOf Markup.twoLiterals)
    (fun _ => false) = Some [mkRange 0 2; mkRange 2 4] /\
  foldLoop (documentOf Markup.twoLiterals) (fun k => Nat.eqb k 1) 0 ([], [])
    [mkFound 4 9 [(1, (4, 8))]]
  = Some (inr ([mkRange 0 2], [9])) /\
  provideFoldingRanges Markup.defaultTags (documentOf Markup.twoLiterals)
    (fun k => Nat.eqb k 1) = Some [].
Proof.
  split; [reflexivity|]. split; [reflexivity|].
  apply (cancelled_request_gives_no_range Markup.defaultTags
           (documentOf Markup.twoLiterals) (fun k => Nat.eqb k 1) 1);
    [vm_compute; lia|reflexivity].
Defined.

End LeaderFacts.

(** ** Extraction and the search for braces *)
Module ExtractFacts.
Import Regex Utils Diagnostics Validator Interpolations Leaders.
Import JsFacts LoopFacts.

(** The extraction ends; it returns [null], or the text from [startPos]
    up to a backtick. *)
Lemma extractTemplateContent_result : forall text startPos,
  exists r, extractTemplateContent text startPos = Some r /\
    (r = None \/
     exists i, startPos <= i < length text /\
               charAt text i = Some BACKTICK /\
               r = Some (substring text startPos i)).
Proof.
  intros text startPos. unfold extractTemplateContent, extractTemplateContent_from.
  apply (while_total (extractTemplateContent_cond text)
           (extractTemplateContent_step text startPos) (fun _ => None)
           (fun st => startPos <= e_i st) (fun st => length text - e_i st)
           (fun r => r = None \/
              exists i, startPos <= i < length text /\
                        charAt text i = Some BACKTICK /\
                        r = Some (substring text startPos i))).
  - intros [i d is_ nt sc] s' Hi Hc Hs. simpl in Hi.
    unfold extractTemplateContent_cond in Hc. simpl in Hc. apply Nat.ltb_lt in Hc.
    unfold extractTemplateContent_step, extractTemplateContent_escaped in Hs.
    simpl in Hs.
    split_ifs; try discriminate; injection Hs as <-; simpl; lia.
  - intros [i d is_ nt sc] r Hi Hc Hs. simpl in Hi.
    unfold extractTemplateContent_cond in Hc. simpl in Hc. apply Nat.ltb_lt in Hc.
    unfold extractTemplateContent_step, extractTemplateContent_escaped in Hs.
    simpl in Hs.
    split_ifs; try discriminate; injection Hs as <-; right; exists i;
      repeat match goal with
        | Hb : (_ && _) = true |- _ => apply andb_true_iff in Hb as [? ?]
        | Hb : isChar _ _ = true |- _ => apply isChar_true in Hb
        end;
      (split; [lia|split; [assumption|reflexivity]]).
  - intros. now left.
  - simpl. lia.
  - simpl. lia.
Qed.

(** X9.  [extractTemplateContent] ends on every
    text and position.  It returns [null], or the text from [startPos] up
    to a backtick of the text: the content is
    [text.substring(startPos, startPos + content.length)] and the
    character after it is a backtick. *)
Theorem extractTemplateContent_up_to_backtick : forall text startPos,
  extractTemplateContent text startPos = Some None \/
  exists content,
    extractTemplateContent text startPos = Some (Some content) /\
    content = substring text startPos (startPos + length content) /\
    charAt text (startPos + length content) = Some BACKTICK.
Proof.
  intros text startPos.
  destruct (extractTemplateContent_result text startPos)
    as (r & -> & [->|(i & Hi & Hb & ->)]); [now left|].
  right. exists (substring text startPos i).
  rewrite ScanTotal.length_substring by lia.
  replace (startPos + (i - startPos)) with i by lia. auto.
Qed.

(** X11.  [findMatchingBrace] ends on every text and
    position; it returns [-1] or an index after [startPos], inside the
    text, at which the text holds a closing brace. *)
Theorem findMatchingBrace_in_range : forall text startPos,
  findMatchingBrace text startPos = Some (-1)%Z \/
  exists i,
    startPos < i < length text /\
    charAt text i = Some RBRACE /\
    findMatchingBrace text startPos = Some (Z.of_nat i).
Proof.
  intros text startPos. unfold findMatchingBrace.
  destruct (while_total (findMatchingBrace_cond text)
              (findMatchingBrace_step text) (fun _ => (-1)%Z)
              (fun st => startPos < fst st) (fun st => length text - fst st)
              (fun r => r = (-1)%Z \/
                 exists i, startPos < i < length text /\
                           charAt text i = Some RBRACE /\ r = Z.of_nat i))
    with (fuel := S (length text)) (s := (startPos + 1, 1%Z))
    as [r [Hr Hp]].
  - intros [i d] s' Hi Hc Hs. simpl in Hi.
    unfold findMatchingBrace_cond in Hc. simpl in Hc.
    apply andb_true_iff in Hc as [Hc _]. apply Nat.ltb_lt in Hc.
    unfold findMatchingBrace_step in Hs.
    split_ifs; try discriminate; injection Hs as <-; simpl; lia.
  - intros [i d] r Hi Hc Hs. simpl in Hi.
    unfold findMatchingBrace_cond in Hc. simpl in Hc.
    apply andb_true_iff in Hc as [Hc _]. apply Nat.ltb_lt in Hc.
    unfold findMatchingBrace_step in Hs.
    split_ifs; try discriminate; injection Hs as <-; right; exists i;
      repeat match goal with
        | Hb : isChar _ _ = true |- _ => apply isChar_true in Hb
        end;
      (split; [lia|split; [assumption|reflexivity]]).
  - intros. now left.
  - simpl. lia.
  - simpl. lia.
  - rewrite Hr. destruct Hp as [->|[i (Hi & Hb & ->)]]; [now left|].
    right. exists i. auto.
Qed.


Lemma unquoted_tests : forall c,
  unquoted c = true ->
  N.eqb c DQUOTE = false /\ N.eqb c SQUOTE = false /\ N.eqb c BACKTICK = false.
Proof.
  intros c H. unfold unquoted in H.
  repeat match goal with
    | H : (_ && _) = true |- _ => apply andb_true_iff in H as [? ?]
    | H : negb _ = true |- _ => apply negb_true_iff in H
    end. auto.
Qed.

Lemma forallb_charAt : forall (f : N -> bool) (text : str) i c,
  forallb f text = true -> charAt text i = Some c -> f c = true.
Proof.
  intros f text i c H Hc. rewrite forallb_forall in H. apply H.
  eapply nth_error_In. exact Hc.
Qed.

(** The two brace searches in lockstep, outside of strings. *)
Lemma brace_searches_lockstep : forall text,
  forallb unquoted text = true ->
  forall fuel i d ct sc,
  (1 <= d)%Z ->
  match while (findMatchingBrace_cond text) (findMatchingBrace_step text)
          (fun _ => (-1)%Z) fuel (i, d),
        matchBrace text fuel (mkR i d ct false false sc) with
  | Some r, Some inner =>
      r = if (r_depth inner =? 0)%Z then Z.of_nat (r_i inner) else (-1)%Z
  | None, None => True
  | _, _ => False
  end.
Proof.
  intros text Hq. unfold matchBrace.
  induction fuel as [|n IH]; intros i d ct sc Hd; [exact I|].
  cbn [while]. unfold findMatchingBrace_cond, matchBrace_cond.
  cbn [fst snd r_i r_depth].
  destruct ((i <? length text) && (0 <? d)%Z) eqn:Hc.
  - apply andb_true_iff in Hc as [Hi _]. apply Nat.ltb_lt in Hi.
    destruct (charAt text i) as [c|] eqn:Hch;
      [|apply nth_error_None in Hch; lia].
    destruct (unquoted_tests c (forallb_charAt _ _ _ _ Hq Hch))
      as (H1 & H2 & H3).
    unfold findMatchingBrace_step, matchBrace_step.
    cbn [r_i r_depth r_interpolationContent r_inString r_inTemplate
         r_stringChar].
    rewrite Hch. cbn [isChar negb andb orb].
    rewrite H1, H2, H3, andb_false_r. cbn [negb andb orb].
    destruct (N.eqb c LBRACE); [apply IH; lia|].
    destruct (N.eqb c RBRACE); [|apply IH; lia].
    destruct (d - 1 =? 0)%Z eqn:Hz; [|apply IH; lia].
    cbn [r_depth r_i]. now rewrite Hz.
  - cbn [r_depth r_i]. destruct (d =? 0)%Z eqn:Hz; [lia|reflexivity].
Qed.

(** X12.  On a text without quotes and backticks the two
    brace searches of the diagnostic provider agree: the inner loop of
    [replaceInterpolationsWithPlaceholders], started after an opening
    brace, ends with depth 0 at the index that [findMatchingBrace] returns
    for that brace, or with a depth above 0 when [findMatchingBrace]
    returns [-1]. *)
Theorem brace_searches_agree : forall text startPos,
  forallb unquoted text = true ->
  exists inner,
    matchBrace text (S (length text)) (matchBrace_init (startPos + 1))
    = Some inner /\
    findMatchingBrace text startPos
    = Some (if (r_depth inner =? 0)%Z then Z.of_nat (r_i inner) else (-1)%Z).
Proof.
  intros text startPos Hq.
  destruct (ScanTotal.matchBrace_total text (matchBrace_init (startPos + 1)))
    as [inner [Hm _]].
  exists inner. split; [exact Hm|].
  pose proof (brace_searches_lockstep text Hq (S (length text))
                (startPos + 1) 1%Z [] None ltac:(lia)) as H.
  unfold matchBrace_init in Hm. rewrite Hm in H. unfold findMatchingBrace.
  destruct (while _ _ _ _ _) as [r|]; [now subst|contradiction].
Qed.

(** [${f({a: 1})} x]: both searches stop at index 11. *)
Lemma brace_searches_agree_witness :
  exists inner,
    matchBrace (lit "${f({a: 1})} x") 15 (matchBrace_init 2) = Some inner /\
    findMatchingBrace (lit "${f({a: 1})} x") 1
    = Some (if (r_depth inner =? 0)%Z then Z.of_nat (r_i inner) else (-1)%Z).
Proof. apply (brace_searches_agree (lit "${f({a: 1})} x") 1). reflexivity. Defined.




End ExtractFacts.

(** ** The substitution of interpolations *)
Module SubstitutionFacts.
Import Diagnostics Validator Interpolations JsFacts LoopFacts DepthFacts.
Import RoundTripFacts FuelFacts CommentFacts.

(** Where the text holds no [${], the test of the outer loop fails. *)
Lemma no_interpolation_at : forall (pre s : str) i,
  includesInterpolation pre = false ->
  isChar (hd_error s) LBRACE = false ->
  i < length pre ->
  isChar (charAt (pre ++ s) i) DOLLAR
  && isChar (charAt (pre ++ s) (i + 1)) LBRACE = false.
Proof.
  induction pre as [|c pre IH]; intros s i Hn Hs Hi; [simpl in Hi; lia|].
  simpl in Hn. apply orb_false_iff in Hn as [Hc Hn].
  destruct i as [|i].
  - unfold charAt. simpl.
    destruct pre as [|d pre]; simpl in *.
    + destruct s; simpl in *; [apply andb_false_r|].
      rewrite Hs. apply andb_false_r.
    + exact Hc.
  - unfold charAt in *. simpl. apply IH; [assumption|assumption|simpl in Hi; lia].
Qed.

Lemma replace_step_plain : forall result i,
  isChar (charAt result i) DOLLAR && isChar (charAt result (i + 1)) LBRACE
  = false ->
  replace_step (result, i) = Next (result, i + 1).
Proof. intros result i H. unfold replace_step. now rewrite H. Qed.

(** X13.  [replaceInterpolationsWithPlaceholders]
    returns a text that holds no [${] as it is; the test
    [cleanedHtml.includes("${")] of [validateHTML] spares the call and
    changes no result. *)
Theorem no_interpolation_unchanged : forall html,
  includesInterpolation html = false ->
  replaceInterpolationsWithPlaceholders html = Some html.
Proof.
  intros html Hn. unfold replaceInterpolationsWithPlaceholders.
  destruct (while_total replace_cond replace_step (fun st => Some (fst st))
              (fun st => fst st = html) (fun st => length html - snd st)
              (fun r => r = Some html))
    with (fuel := S (length html)) (s := (html, 0)) as [r [Hr ->]].
  - intros [result i] s' Hi Hc Hs. simpl in Hi. subst result.
    unfold replace_cond in Hc. simpl in Hc. apply Nat.ltb_lt in Hc.
    rewrite replace_step_plain in Hs.
    + injection Hs as <-. simpl. split; [reflexivity|lia].
    + rewrite <- (app_nil_r html). apply no_interpolation_at; trivial.
  - intros [result i] r Hi Hc Hs. simpl in Hi. subst result.
    unfold replace_cond in Hc. simpl in Hc. apply Nat.ltb_lt in Hc.
    rewrite replace_step_plain in Hs; [discriminate|].
    rewrite <- (app_nil_r html). apply no_interpolation_at; trivial.
  - intros [result i] Hi _. simpl in *. now subst.
  - reflexivity.
  - simpl. lia.
  - now rewrite Hr.
Qed.

(** A dollar sign that begins no interpolation. *)
Lemma no_interpolation_unchanged_witness :
  replaceInterpolationsWithPlaceholders (lit "<p>1 $ {x}</p>")
  = Some (lit "<p>1 $ {x}</p>").
Proof.
  apply (no_interpolation_unchanged (lit "<p>1 $ {x}</p>")). reflexivity.
Defined.


Lemma charAt_shift : forall (a s : str) i,
  charAt (a ++ s) (length a + i) = charAt s i.
Proof.
  intros a s i. unfold charAt. rewrite nth_error_app2 by lia.
  f_equal. lia.
Qed.

Lemma matchBrace_cond_shift : forall a s st,
  matchBrace_cond (a ++ s) (shifted (length a) st) = matchBrace_cond s st.
Proof.
  intros a s st. unfold matchBrace_cond, shifted. simpl.
  rewrite length_app. f_equal.
  destruct (r_i st <? length s) eqn:H.
  - apply Nat.ltb_lt in H. apply Nat.ltb_lt. lia.
  - apply Nat.ltb_ge in H. apply Nat.ltb_ge. lia.
Qed.

Lemma matchBrace_step_shift : forall a s st,
  matchBrace_step (a ++ s) (shifted (length a) st)
  = match matchBrace_step s st with
    | Next st' => Next (shifted (length a) st')
    | Done st' => Done (shifted (length a) st')
    end.
Proof.
  intros a s [i d ct is_ it sc]. unfold matchBrace_step, shifted.
  cbn [r_i r_depth r_interpolationContent r_inString r_inTemplate r_stringChar].
  rewrite charAt_shift.
  replace (length a + i + 1) with (length a + (i + 1)) by lia.
  rewrite charAt_shift, length_app.
  replace (length a + (i + 1) <? length a + length s) with (i + 1 <? length s).
  2:{ destruct (i + 1 <? length s) eqn:H.
      - apply Nat.ltb_lt in H. symmetry. apply Nat.ltb_lt. lia.
      - apply Nat.ltb_ge in H. symmetry. apply Nat.ltb_ge. lia. }
  split_ifs; cbn [r_i r_depth r_interpolationContent r_inString r_inTemplate
                  r_stringChar];
    try reflexivity; f_equal; f_equal; lia.
Qed.

(** The inner loop on a text and on the text behind a prefix. *)
Lemma matchBrace_shift : forall a s fuel st,
  matchBrace (a ++ s) fuel (shifted (length a) st)
  = option_map (shifted (length a)) (matchBrace s fuel st).
Proof.
  intros a s. unfold matchBrace.
  induction fuel as [|n IH]; intros st; [reflexivity|].
  cbn [while]. rewrite matchBrace_cond_shift, matchBrace_step_shift.
  destruct (matchBrace_cond s st); [|reflexivity].
  destruct (matchBrace_step s st); [apply IH|reflexivity].
Qed.

Lemma matchBrace_behind : forall a s i inner,
  matchBrace s (S (length s)) (matchBrace_init i) = Some inner ->
  matchBrace (a ++ s) (S (length (a ++ s))) (matchBrace_init (length a + i))
  = Some (shifted (length a) inner).
Proof.
  intros a s i inner H.
  change (matchBrace_init (length a + i))
    with (shifted (length a) (matchBrace_init i)).
  rewrite matchBrace_shift.
  unfold matchBrace in *.
  rewrite (while_mono _ _ _ _ (S (length (a ++ s))) _ _ H); [reflexivity|].
  rewrite length_app. lia.
Qed.

Lemma substring_behind : forall (a s : str) i,
  substring (a ++ s) 0 (length a + i) = a ++ substring s 0 i.
Proof.
  intros. rewrite !substring_prefix. apply firstn_app_2.
Qed.

Lemma substringFrom_behind : forall (a s : str) i,
  substringFrom (a ++ s) (length a + i) = substringFrom s i.
Proof.
  intros. unfold substringFrom. rewrite skipn_app.
  rewrite skipn_all2 by lia. simpl. f_equal. lia.
Qed.

(** The outer loop on a text and on the text behind a prefix. *)
Lemma replace_shift : forall a fuel s i,
  while replace_cond replace_step (fun st => Some (fst st)) fuel
    (a ++ s, length a + i)
  = option_map (option_map (app a))
      (while replace_cond replace_step (fun st => Some (fst st)) fuel (s, i)).
Proof.
  intros a. induction fuel as [|n IH]; intros s i; [reflexivity|].
  cbn [while]. unfold replace_cond. cbn [fst snd].
  replace (length a + i <? length (a ++ s)) with (i <? length s).
  2:{ rewrite length_app. destruct (i <? length s) eqn:H.
      - apply Nat.ltb_lt in H. symmetry. apply Nat.ltb_lt. lia.
      - apply Nat.ltb_ge in H. symmetry. apply Nat.ltb_ge. lia. }
  destruct (i <? length s); [|reflexivity].
  unfold replace_step.
  replace (length a + i + 1) with (length a + (i + 1)) by lia.
  rewrite !charAt_shift.
  destruct (isChar (charAt s i) DOLLAR && isChar (charAt s (i + 1)) LBRACE).
  - destruct (ScanTotal.matchBrace_total s (matchBrace_init (i + 2)))
      as [inner [Hm _]].
    replace (length a + i + 2) with (length a + (i + 2)) by lia.
    rewrite (matchBrace_behind _ _ _ _ Hm), Hm.
    cbn [shifted r_depth r_i].
    destruct (r_depth inner =? 0)%Z.
    + rewrite substring_behind.
      replace (length a + r_i inner + 1) with (length a + (r_i inner + 1)) by lia.
      rewrite substringFrom_behind, <- app_assoc.
      replace (length a + i + length PLACEHOLDER)
        with (length a + (i + length PLACEHOLDER)) by lia.
      apply IH.
    + replace (length a + r_i inner + 1) with (length a + (r_i inner + 1)) by lia.
      apply IH.
  - replace (length a + (i + 1)) with (length a + (i + 1)) by lia. apply IH.
Qed.


Lemma simpleCode_tests : forall c,
  simpleCode c = true ->
  N.eqb c LBRACE = false /\ N.eqb c RBRACE = false /\ N.eqb c DQUOTE = false
  /\ N.eqb c SQUOTE = false /\ N.eqb c BACKTICK = false.
Proof.
  intros c H. unfold simpleCode in H.
  repeat match goal with
    | H : (_ && _) = true |- _ => apply andb_true_iff in H as [? ?]
    | H : negb _ = true |- _ => apply negb_true_iff in H
    end. auto.
Qed.

Lemma matchBrace_cond_middle : forall (a rest : str) c ct sc,
  matchBrace_cond (a ++ c :: rest) (mkR (length a) 1 ct false false sc) = true.
Proof.
  intros. unfold matchBrace_cond. simpl. rewrite length_middle. reflexivity.
Qed.

(** The inner loop over simple code, up to the closing brace. *)
Lemma matchBrace_simple : forall code a rest ct sc n,
  forallb simpleCode code = true ->
  matchBrace (a ++ code ++ RBRACE :: rest) (S (length code + n))
    (mkR (length a) 1 ct false false sc)
  = Some (mkR (length a + length code) 0 (ct ++ code) false false sc).
Proof.
  unfold matchBrace.
  induction code as [|c code IH]; intros a rest ct sc n Hs.
  - simpl app. rewrite (while_done _ _ _ _ _
      (mkR (length a) 0 ct false false sc) (matchBrace_cond_middle _ _ _ _ _)).
    + simpl. now rewrite Nat.add_0_r, app_nil_r.
    + unfold matchBrace_step.
      cbn [r_i r_depth r_interpolationContent r_inString r_inTemplate
           r_stringChar].
      rewrite charAt_middle. reflexivity.
  - simpl in Hs. apply andb_true_iff in Hs as [Hc Hs].
    apply simpleCode_tests in Hc as (H1 & H2 & H3 & H4 & H5).
    simpl app. change (S (length (c :: code) + n)) with (S (S (length code + n))).
    rewrite (while_next _ _ _ _ _
      (mkR (length a + 1) 1 (ct ++ [c]) false false sc)
      (matchBrace_cond_middle _ _ _ _ _)).
    + rewrite cons_snoc, <- (EscapeFacts.length_snoc a c).
      rewrite IH by assumption. rewrite EscapeFacts.length_snoc.
      simpl. f_equal. f_equal; [lia|now rewrite <- app_assoc].
    + unfold matchBrace_step.
      cbn [r_i r_depth r_interpolationContent r_inString r_inTemplate
           r_stringChar].
      rewrite charAt_middle. cbn [isChar negb andb orb].
      rewrite H1, H2, H3, H4, H5, andb_false_r. reflexivity.
Qed.

(** The outer loop steps over a prefix that holds no [${]. *)
Lemma replace_skip : forall pre s n r,
  includesInterpolation pre = false ->
  isChar (hd_error s) LBRACE = false ->
  forall j i, i + j = length pre ->
  while replace_cond replace_step (fun st => Some (fst st)) n
    (pre ++ s, length pre) = Some r ->
  while replace_cond replace_step (fun st => Some (fst st)) (j + n)
    (pre ++ s, i) = Some r.
Proof.
  intros pre s n r Hn Hs.
  induction j as [|j IH]; intros i Hi H.
  - simpl in *. now replace i with (length pre) by lia.
  - change (S j + n) with (S (j + n)).
    rewrite (while_next _ _ _ _ _ (pre ++ s, i + 1)).
    + apply IH; [lia|assumption].
    + unfold replace_cond. simpl. apply Nat.ltb_lt. rewrite length_app. lia.
    + apply replace_step_plain. apply no_interpolation_at; trivial. lia.
Qed.

Lemma replace_value : forall html,
  exists r,
    replaceInterpolationsWithPlaceholders html = Some r /\
    while replace_cond replace_step (fun st => Some (fst st))
      (S (length html)) (html, 0) = Some (Some r).
Proof.
  intros html.
  destruct (ScanTotal.replaceInterpolationsWithPlaceholders_total html)
    as [r Hr].
  exists r. split; [exact Hr|].
  unfold replaceInterpolationsWithPlaceholders in Hr.
  destruct (while _ _ _ _ _) as [[x|]|]; try discriminate. now rewrite Hr.
Qed.

Lemma replace_step_found : forall result i inner,
  isChar (charAt result i) DOLLAR && isChar (charAt result (i + 1)) LBRACE
  = true ->
  matchBrace result (S (length result)) (matchBrace_init (i + 2)) = Some inner ->
  r_depth inner = 0%Z ->
  replace_step (result, i)
  = Next (substring result 0 i ++ PLACEHOLDER
            ++ substringFrom result (r_i inner + 1),
          i + length PLACEHOLDER).
Proof.
  intros result i inner H1 H2 H3. unfold replace_step.
  now rewrite H1, H2, H3.
Qed.

Lemma replace_step_unclosed : forall result i inner,
  isChar (charAt result i) DOLLAR && isChar (charAt result (i + 1)) LBRACE
  = true ->
  matchBrace result (S (length result)) (matchBrace_init (i + 2)) = Some inner ->
  r_depth inner <> 0%Z ->
  replace_step (result, i) = Next (result, r_i inner + 1).
Proof.
  intros result i inner H1 H2 H3. unfold replace_step.
  rewrite H1, H2. apply Z.eqb_neq in H3. now rewrite H3.
Qed.

(** X14.  An interpolation whose code holds no brace,
    quote or backtick becomes the word [placeholder]: after a prefix
    without [${] the substitution of [pre ${code} post] is [pre], then
    [placeholder], then the substitution of [post]. *)
Theorem simple_interpolation_replaced : forall pre code post,
  includesInterpolation pre = false ->
  forallb simpleCode code = true ->
  exists r,
    replaceInterpolationsWithPlaceholders post = Some r /\
    replaceInterpolationsWithPlaceholders (interpolated pre code post)
    = Some (pre ++ PLACEHOLDER ++ r).
Proof.
  intros pre code post Hpre Hcode.
  destruct (replace_value post) as [r [Hr Hw]].
  exists r. split; [exact Hr|].
  destruct (replace_value (interpolated pre code post)) as [x [Hx Hv]].
  rewrite Hx. f_equal.
  assert (Hrun : while replace_cond replace_step (fun st => Some (fst st))
                   (length pre + S (S (length (interpolated pre code post))))
                   (interpolated pre code post, 0)
                 = Some (Some (pre ++ PLACEHOLDER ++ r))).
  { unfold interpolated. change (lit "${") with [DOLLAR; LBRACE].
    apply replace_skip; [assumption|reflexivity|lia|].
    rewrite <- (Nat.add_0_r (length pre)).
    rewrite replace_shift.
    set (s := [DOLLAR; LBRACE] ++ code ++ RBRACE :: post).
    set (N := length (pre ++ s)).
    rewrite (while_next _ _ _ _ _ (PLACEHOLDER ++ post, length PLACEHOLDER + 0)).
    - rewrite replace_shift.
      apply while_mono with (m := S N) in Hw; [|unfold N, s; lengths].
      unfold str in *. rewrite Hw. reflexivity.
    - reflexivity.
    - unfold s. rewrite (replace_step_found _ _
        (mkR (2 + length code) 0 ([] ++ code) false false None)).
      + f_equal. f_equal. unfold substring, substringFrom. simpl.
        replace (length code + 1) with (length (code ++ [RBRACE]))
          by (rewrite length_app; simpl; lia).
        change (code ++ RBRACE :: post) with (code ++ [RBRACE] ++ post).
        rewrite app_assoc, skipn_app, skipn_all, Nat.sub_diag. reflexivity.
      + reflexivity.
      + replace (S (length ([DOLLAR; LBRACE] ++ code ++ RBRACE :: post)))
          with (S (length code + (3 + length post))) by lengths.
        exact (matchBrace_simple code [DOLLAR; LBRACE] post [] None _ Hcode).
      + reflexivity. }
  eapply while_unique in Hv; [|exact Hrun]. now injection Hv.
Qed.

(** [<p>${user.name}</p>] *)
Lemma simple_interpolation_replaced_witness :
  exists r,
    replaceInterpolationsWithPlaceholders (lit "</p>") = Some r /\
    replaceInterpolationsWithPlaceholders
      (interpolated (lit "<p>") (lit "user.name") (lit "</p>"))
    = Some (lit "<p>" ++ PLACEHOLDER ++ r).
Proof.
  apply (simple_interpolation_replaced (lit "<p>") (lit "user.name")
           (lit "</p>")); reflexivity.
Defined.


(** Without a closing brace ahead the inner loop runs to the end of the
    text and leaves the depth above 0. *)
Lemma matchBrace_no_closer : forall result i,
  (forall j, i <= j -> charAt result j <> Some RBRACE) ->
  exists inner,
    matchBrace result (S (length result)) (matchBrace_init i) = Some inner /\
    (1 <= r_depth inner)%Z /\ length result <= r_i inner.
Proof.
  intros result i Hno. unfold matchBrace.
  apply (while_total (matchBrace_cond result) (matchBrace_step result)
           (fun s => s) (fun st => (1 <= r_depth st)%Z /\ i <= r_i st)
           (fun st => length result - r_i st)
           (fun st => (1 <= r_depth st)%Z /\ length result <= r_i st)).
  - intros [k d ct is_ it sc] s' [Hd Hk] Hc Hs. simpl in Hd, Hk.
    unfold matchBrace_cond in Hc. simpl in Hc.
    apply andb_true_iff in Hc as [Hc _]. apply Nat.ltb_lt in Hc.
    unfold matchBrace_step in Hs. simpl in Hs.
    split_ifs; try discriminate; injection Hs as <-; simpl;
      try (split; [split|]; lia);
      exfalso;
      match goal with
      | Hb : isChar (charAt result k) RBRACE = true |- _ =>
          apply isChar_true in Hb; exact (Hno k Hk Hb)
      end.
  - intros [k d ct is_ it sc] r [Hd Hk] Hc Hs. simpl in Hd, Hk.
    unfold matchBrace_step in Hs. simpl in Hs.
    split_ifs; try discriminate;
      exfalso;
      match goal with
      | Hb : isChar (charAt result k) RBRACE = true |- _ =>
          apply isChar_true in Hb; exact (Hno k Hk Hb)
      end.
  - intros [k d ct is_ it sc] [Hd Hk] Hc. simpl in *.
    unfold matchBrace_cond in Hc. simpl in Hc.
    apply andb_false_iff in Hc as [Hc|Hc].
    + apply Nat.ltb_ge in Hc. auto.
    + apply Z.ltb_ge in Hc. lia.
  - simpl. split; lia.
  - simpl. lia.
Qed.

(** X15.  An interpolation that is never closed is
    left as it is: after a prefix without [${], a [${] that no closing
    brace follows stays in the text with everything after it. *)
Theorem unclosed_interpolation_left : forall pre rest,
  includesInterpolation pre = false ->
  forallb notRbrace rest = true ->
  replaceInterpolationsWithPlaceholders (pre ++ lit "${" ++ rest)
  = Some (pre ++ lit "${" ++ rest).
Proof.
  intros pre rest Hpre Hrest. change (lit "${") with [DOLLAR; LBRACE].
  set (text := pre ++ [DOLLAR; LBRACE] ++ rest).
  destruct (replace_value text) as [x [Hx Hv]]. rewrite Hx. f_equal.
  destruct (matchBrace_no_closer text (length pre + 2)) as [inner (Hm & Hd & Hi)].
  { intros j Hj Hc. unfold text in Hc. unfold charAt in Hc.
    rewrite nth_error_app2 in Hc by lia.
    destruct (j - length pre) as [|[|k]] eqn:Hk; try lia. simpl in Hc.
    apply nth_error_In in Hc. rewrite forallb_forall in Hrest.
    apply Hrest in Hc. discriminate. }
  assert (Hrun : while replace_cond replace_step (fun st => Some (fst st))
                   (length pre + 2) (text, 0) = Some (Some text)).
  { unfold text. apply replace_skip; [assumption|reflexivity|lia|].
    fold text.
    rewrite (while_next _ _ _ _ _ (text, r_i inner + 1)).
    - apply (while_exit replace_cond replace_step (fun st => Some (fst st))).
      unfold replace_cond. simpl. apply Nat.ltb_ge. lia.
    - unfold replace_cond, text. simpl. apply Nat.ltb_lt. lengths.
    - apply replace_step_unclosed; [|exact Hm|lia].
      unfold text. simpl app. rewrite charAt_middle, charAt_next. reflexivity. }
  eapply while_unique in Hv; [|exact Hrun]. now injection Hv.
Qed.

(** [<p>${a ? b : c</p>], whose interpolation is not closed. *)
Lemma unclosed_interpolation_left_witness :
  replaceInterpolationsWithPlaceholders
    (lit "<p>" ++ lit "${" ++ lit "a ? b : c</p>")
  = Some (lit "<p>" ++ lit "${" ++ lit "a ? b : c</p>").
Proof.
  apply (unclosed_interpolation_left (lit "<p>") (lit "a ? b : c</p>"));
    reflexivity.
Defined.

End SubstitutionFacts.

(** ** The diagnostics of the loop over the tags *)
Module ReportFacts.
Import Regex Diagnostics Validator Markup Reports JsFacts ValidatorFacts.

Lemma Balanced_app : forall a b, Balanced a -> Balanced b -> Balanced (a ++ b).
Proof.
  induction 1 as [|t l Hc Hs Hl IHl|o c inner l Ho Hso Hc Hn Hi IHi Hl IHl];
    intros Hb; simpl.
  - exact Hb.
  - apply Balanced_single; auto.
  - rewrite <- app_assoc. simpl.
    apply Balanced_element; auto.
Qed.

Lemma Closes_after : forall names b tokens,
  Balanced b -> Closes names tokens -> Closes names (b ++ tokens).
Proof.
  intros [|name names] b tokens Hb H; simpl in *.
  - now apply Balanced_app.
  - destruct H as (inner & c & rest & -> & Hi & Hc & Hn & Hr).
    exists (b ++ inner), c, rest. rewrite <- app_assoc.
    repeat split; auto. now apply Balanced_app.
Qed.

(** A run of the tag loop without diagnostic that ends on an empty stack
    closes every element that was open when it began. *)
Lemma tagLoop_clean : forall offset tokens stack,
  tagLoop offset stack tokens = ([], []) ->
  Closes (map fst stack) tokens.
Proof.
  intros offset. induction tokens as [|t tokens IH]; intros stack H.
  - simpl in H. injection H as ->. simpl. constructor.
  - cbn [tagLoop] in H. unfold tagStep in H.
    destruct (isClosing t) eqn:Hc.
    + destruct stack as [|last stack].
      * destruct (tagLoop offset [] tokens). discriminate.
      * destruct (Js.eqb (fst last) (t_tagName t)) eqn:He.
        -- destruct (tagLoop offset stack tokens) as [final ds] eqn:Hl.
           simpl in H. injection H as -> ->.
           apply eqb_eq in He. simpl.
           exists [], t, tokens. repeat split; auto. constructor.
        -- destruct (tagLoop offset stack tokens). discriminate.
    + destruct (isSelfClosing t) eqn:Hs; simpl in H.
      * destruct (tagLoop offset stack tokens) as [final ds] eqn:Hl.
        injection H as -> ->.
        apply (Closes_after _ [t]); [|now apply IH].
        apply Balanced_single; auto. constructor.
      * destruct (tagLoop offset ((t_tagName t, offset + t_index t) :: stack)
                    tokens) as [final ds] eqn:Hl.
        injection H as -> ->.
        apply IH in Hl. simpl in Hl.
        destruct Hl as (inner & c & rest & -> & Hi & Hcc & Hn & Hr).
        replace (t :: inner ++ c :: rest)
          with ((t :: inner ++ [c]) ++ rest)
          by (simpl; now rewrite <- app_assoc).
        apply Closes_after; [|exact Hr].
        apply (Balanced_element t c inner []); auto. constructor.
Qed.

(** X16.  The loop over the tags reports nothing
    exactly when the tags of the text it scans are fully closed. *)
Theorem no_diagnostics_iff_balanced : forall offset cleanedHtml,
  tagDiagnostics offset cleanedHtml = [] <-> Balanced (tagTokens cleanedHtml).
Proof.
  intros offset cleanedHtml. unfold tagDiagnostics. split.
  - destruct (tagLoop offset [] (tagTokens cleanedHtml)) as [stack ds] eqn:Hl.
    intros H. apply app_eq_nil in H as [-> Hs].
    apply map_eq_nil in Hs.
    assert (stack = []) as ->.
    { destruct stack as [|e stack]; [reflexivity|].
      simpl in Hs. now apply app_eq_nil in Hs as [_ Hs]. }
    exact (tagLoop_clean _ _ _ Hl).
  - intros H. pose proof (tagLoop_balanced _ H offset [] []) as E.
    rewrite app_nil_r in E. now rewrite E.
Qed.


Lemma tagLoop_points : forall offset tokens seen stack,
  stackFrom offset seen stack ->
  stackFrom offset (seen ++ tokens) (fst (tagLoop offset stack tokens)) /\
  Forall (pointsAt offset (seen ++ tokens)) (snd (tagLoop offset stack tokens)).
Proof.
  intros offset. induction tokens as [|t tokens IH]; intros seen stack Hst.
  - simpl. rewrite app_nil_r. split; [exact Hst|constructor].
  - assert (Hseen : forall x, In x (seen ++ [t]) -> In x (seen ++ t :: tokens)).
    { intros x Hx. apply in_app_iff in Hx as [Hx|[<-|[]]];
        apply in_app_iff; [now left|right; now left]. }
    assert (Ht : In t (seen ++ t :: tokens))
      by (apply in_app_iff; right; now left).
    assert (Hgo : forall stack',
              stackFrom offset (seen ++ [t]) stack' ->
              stackFrom offset (seen ++ t :: tokens)
                (fst (tagLoop offset stack' tokens)) /\
              Forall (pointsAt offset (seen ++ t :: tokens))
                (snd (tagLoop offset stack' tokens))).
    { intros stack' H. specialize (IH (seen ++ [t]) stack' H).
      rewrite <- app_assoc in IH. exact IH. }
    assert (Hkeep : forall stack',
              (forall e, In e stack' -> In e stack) ->
              stackFrom offset (seen ++ [t]) stack').
    { intros stack' Hsub e He. destruct (Hst e (Hsub e He)) as (u & Hu & H).
      exists u. split; [apply in_app_iff; now left|exact H]. }
    cbn [tagLoop]. unfold tagStep.
    destruct (isClosing t) eqn:Hc.
    + destruct stack as [|last stack].
      * destruct (Hgo []) as [H1 H2]; [intros e []|].
        destruct (tagLoop offset [] tokens) as [final ds]. simpl in *.
        split; [exact H1|]. constructor; [|exact H2].
        exists t. simpl. auto.
      * destruct (Hgo stack) as [H1 H2];
          [apply Hkeep; intros e He; now right|].
        destruct (Js.eqb (fst last) (t_tagName t));
          destruct (tagLoop offset stack tokens) as [final ds]; simpl in *;
          (split; [exact H1|]); [exact H2|].
        constructor; [|exact H2]. exists t. simpl. auto.
    + destruct (isSelfClosing t) eqn:Hs; simpl.
      * destruct (Hgo stack) as [H1 H2]; [apply Hkeep; auto|].
        destruct (tagLoop offset stack tokens) as [final ds]. simpl in *. auto.
      * destruct (Hgo ((t_tagName t, offset + t_index t) :: stack)) as [H1 H2].
        { intros e [<-|He].
          - exists t. split; [apply in_app_iff; right; now left|auto].
          - apply (Hkeep stack); auto. }
        destruct (tagLoop offset _ tokens) as [final ds]. simpl in *. auto.
Qed.

(** X17.  Every diagnostic lies on a tag of the scanned
    text: an error starts at a closing tag and covers it, a warning starts
    at an opening tag that is neither void nor self-closing and covers
    [<], the name and one character more. *)
Theorem diagnostics_point_at_tags : forall offset cleanedHtml,
  Forall (pointsAt offset (tagTokens cleanedHtml))
    (tagDiagnostics offset cleanedHtml).
Proof.
  intros offset cleanedHtml. unfold tagDiagnostics.
  destruct (tagLoop_points offset (tagTokens cleanedHtml) [] [])
    as [H1 H2]; [intros e []|].
  destruct (tagLoop offset [] (tagTokens cleanedHtml)) as [stack ds].
  simpl in *. apply Forall_app. split; [exact H2|].
  apply Forall_forall. intros d Hd. apply in_map_iff in Hd as (e & <- & He).
  apply in_rev in He. destruct (H1 e He) as (t & Ht & Hc & Hs & ->).
  exists t. simpl. auto.
Qed.

(** X18.  When the scanned text holds closing tags
    only, every one of them gets the diagnostic of an unmatched closing
    tag, in the order of the text. *)
Theorem closing_tags_all_unmatched : forall offset cleanedHtml,
  forallb isClosing (tagTokens cleanedHtml) = true ->
  tagDiagnostics offset cleanedHtml
  = map (unmatchedClosing offset) (tagTokens cleanedHtml).
Proof.
  intros offset cleanedHtml H. unfold tagDiagnostics.
  assert (E : tagLoop offset [] (tagTokens cleanedHtml)
              = ([], map (unmatchedClosing offset) (tagTokens cleanedHtml))).
  { induction (tagTokens cleanedHtml) as [|t l IH]; [reflexivity|].
    simpl in H. apply andb_true_iff in H as [Hc Hl].
    cbn [tagLoop]. unfold tagStep. rewrite Hc, (IH Hl). reflexivity. }
  rewrite E. simpl. apply app_nil_r.
Qed.

(** [</a> x </b>] at offset 5. *)
Lemma closing_tags_all_unmatched_witness :
  tagDiagnostics 5 (lit "</a> x </b>")
  = map (unmatchedClosing 5) (tagTokens (lit "</a> x </b>")).
Proof.
  apply (closing_tags_all_unmatched 5 (lit "</a> x </b>")). reflexivity.
Defined.

Lemma tagLoop_opening : forall offset tokens stack,
  forallb (fun t => negb (isClosing t)) tokens = true ->
  tagLoop offset stack tokens
  = (rev (map (opened offset)
            (filter (fun t => negb (isSelfClosing t)) tokens)) ++ stack, []).
Proof.
  intros offset. induction tokens as [|t l IH]; intros stack H; [reflexivity|].
  simpl in H. apply andb_true_iff in H as [Hc Hl].
  apply negb_true_iff in Hc.
  cbn [tagLoop filter]. unfold tagStep. rewrite Hc.
  destruct (isSelfClosing t); simpl.
  - now rewrite (IH _ Hl).
  - rewrite (IH _ Hl). now rewrite <- app_assoc.
Qed.

(** X19.  When the scanned text holds no closing tag,
    every opening tag that is neither void nor self-closing gets the
    warning of an unclosed tag, in the order of the text. *)
Theorem opening_tags_all_unclosed : forall offset cleanedHtml,
  forallb (fun t => negb (isClosing t)) (tagTokens cleanedHtml) = true ->
  tagDiagnostics offset cleanedHtml
  = map (fun t => unclosedTag (opened offset t))
      (filter (fun t => negb (isSelfClosing t)) (tagTokens cleanedHtml)).
Proof.
  intros offset cleanedHtml H. unfold tagDiagnostics.
  rewrite (tagLoop_opening _ _ _ H). simpl.
  now rewrite app_nil_r, rev_involutive, map_map.
Qed.

(** [<ul><li>a<br><li>b] at offset 5: three warnings, none for [<br>]. *)
Lemma opening_tags_all_unclosed_witness :
  tagDiagnostics 5 (lit "<ul><li>a<br><li>b")
  = map (fun t => unclosedTag (opened 5 t))
      (filter (fun t => negb (isSelfClosing t))
         (tagTokens (lit "<ul><li>a<br><li>b"))).
Proof.
  apply (opening_tags_all_unclosed 5 (lit "<ul><li>a<br><li>b")). reflexivity.
Defined.


Lemma tagLoop_moved : forall k offset tokens stack,
  tagLoop (k + offset) (map (movedEntry k) stack) tokens
  = (map (movedEntry k) (fst (tagLoop offset stack tokens)),
     map (moved k) (snd (tagLoop offset stack tokens))).
Proof.
  intros k offset. induction tokens as [|t tokens IH]; intros stack.
  - reflexivity.
  - cbn [tagLoop]. unfold tagStep.
    destruct (isClosing t).
    + destruct stack as [|[last pos] stack]; cbn [map fst movedEntry].
      * pose proof (IH []) as E. simpl map in E. rewrite E.
        destruct (tagLoop offset [] tokens) as [final ds]. simpl.
        f_equal. f_equal. unfold unmatchedClosing, moved. simpl.
        f_equal; lia.
      * destruct (Js.eqb last (t_tagName t)); cbn [map fst movedEntry];
          rewrite IH;
          destruct (tagLoop offset stack tokens) as [final ds]; simpl;
          [reflexivity|].
        f_equal. f_equal. unfold mismatchedClosing, moved. simpl.
        f_equal; lia.
    + destruct (negb (isSelfClosing t)); cbn [map fst movedEntry].
      * replace ((t_tagName t, k + offset + t_index t) :: map (movedEntry k) stack)
          with (map (movedEntry k) ((t_tagName t, offset + t_index t) :: stack))
          by (simpl; unfold movedEntry; simpl; do 2 f_equal; lia).
        rewrite IH.
        destruct (tagLoop offset _ tokens) as [final ds]. reflexivity.
      * rewrite IH.
        destruct (tagLoop offset stack tokens) as [final ds]. reflexivity.
Qed.

Lemma tagDiagnostics_moved : forall k offset cleanedHtml,
  tagDiagnostics (k + offset) cleanedHtml
  = map (moved k) (tagDiagnostics offset cleanedHtml).
Proof.
  intros k offset cleanedHtml. unfold tagDiagnostics.
  pose proof (tagLoop_moved k offset (tagTokens cleanedHtml) []) as E.
  simpl map in E. rewrite E.
  destruct (tagLoop offset [] (tagTokens cleanedHtml)) as [stack ds].
  simpl. rewrite map_app. f_equal.
  rewrite <- map_rev, !map_map. apply map_ext.
  intros [name pos]. unfold unclosedTag, moved, movedEntry. simpl.
  f_equal; lia.
Qed.

Lemma nestedTemplates_replacements : forall tagPatterns html offset offset',
  map replacementOf (nestedTemplates tagPatterns html offset)
  = map replacementOf (nestedTemplates tagPatterns html offset').
Proof.
  intros tp html o o'. unfold nestedTemplates.
  induction (execAll (leaderRegex tp) html) as [|m l IH]; [reflexivity|].
  simpl. rewrite !map_app, IH. f_equal.
  destruct (extractTemplateContent' html (m_end m - 1 + 1)); reflexivity.
Qed.

Lemma templateReplacements_map : forall nested nested',
  map replacementOf nested = map replacementOf nested' ->
  templateReplacements nested = templateReplacements nested'.
Proof.
  unfold templateReplacements. generalize (@nil (str * str)).
  intros acc nested. revert acc.
  induction nested as [|n l IH]; intros acc [|n' l'] H; try discriminate.
  - reflexivity.
  - simpl in H. injection H as Hc Ho Hl. simpl.
    rewrite Hc, Ho. now apply IH.
Qed.

Lemma cleanHtml_replacements : forall tagPatterns html nested nested',
  map replacementOf nested = map replacementOf nested' ->
  cleanHtml tagPatterns html nested = cleanHtml tagPatterns html nested'.
Proof.
  intros tp html nested nested' H. unfold cleanHtml.
  rewrite (templateReplacements_map _ _ H).
  destruct nested, nested'; try discriminate; reflexivity.
Qed.

(** X20.  The diagnostics that a call of
    [validateHTML] pushes for its own text depend on [offset] by a shift
    only: at [k + offset] they are those at [offset] moved by [k]. *)
Theorem own_diagnostics_move_with_offset : forall tagPatterns html offset k,
  ownDiagnostics tagPatterns html (k + offset)
  = map (moved k) (ownDiagnostics tagPatterns html offset).
Proof.
  intros tp html offset k. unfold ownDiagnostics.
  rewrite (cleanHtml_replacements tp html _ _
             (nestedTemplates_replacements tp html (k + offset) offset)).
  apply tagDiagnostics_moved.
Qed.

End ReportFacts.

(** ** The filter of the fold ranges *)
Module RangeFacts.
Import FoldingProvider.

Lemma in_indexed : forall (l : list FoldingRange) s i x,
  In (i, x) (combine (seq s (length l)) l) <->
  s <= i /\ nth_error l (i - s) = Some x.
Proof.
  induction l as [|y l IH]; intros s i x; simpl.
  - split; [intros []|]. intros [_ H]. destruct (i - s); discriminate.
  - rewrite IH. split.
    + intros [H|[Hle H]].
      * injection H as <- <-. rewrite Nat.sub_diag. split; [lia|reflexivity].
      * split; [lia|]. replace (i - s) with (S (i - S s)) by lia. exact H.
    + intros [Hle H]. destruct (i - s) as [|k] eqn:Hk.
      * left. simpl in H. injection H as <-. f_equal. lia.
      * right. simpl in H. split; [lia|].
        replace (i - S s) with k by lia. exact H.
Qed.

Lemma contains_irrefl : forall r, contains r r = false.
Proof.
  intros r. unfold contains. rewrite !Nat.ltb_irrefl. apply andb_false_r.
Qed.

(** The filter keeps the ranges that no range of the list strictly
    contains. *)
Lemma filterRanges_spec : forall ranges r,
  In r (filterRanges ranges) <->
  In r ranges /\ forall o, In o ranges -> contains o r = false.
Proof.
  intros ranges r. unfold filterRanges.
  set (indexed := combine (seq 0 (length ranges)) ranges).
  assert (Hidx : forall i x, In (i, x) indexed <-> nth_error ranges i = Some x).
  { intros i x. unfold indexed. rewrite in_indexed, Nat.sub_0_r.
    split; [now intros [_ H]|intros H; split; [lia|exact H]]. }
  rewrite in_map_iff. split.
  - intros ([i x] & Hx & Hf). simpl in Hx. subst x.
    apply filter_In in Hf as [Hin Hf]. apply negb_true_iff in Hf.
    split; [eapply nth_error_In; apply Hidx; exact Hin|].
    intros o Ho. apply In_nth_error in Ho as [j Hj].
    rewrite <- Bool.not_true_iff_false. intros Hc.
    apply Bool.not_true_iff_false in Hf. apply Hf.
    apply existsb_exists. exists (j, o). split; [now apply Hidx|].
    cbn [fst snd]. destruct (i =? j) eqn:Hij; [|exact Hc].
    apply Nat.eqb_eq in Hij. subst j. apply Hidx in Hin.
    assert (o = r) by congruence. subst o.
    rewrite contains_irrefl in Hc. discriminate.
  - intros [Hin Hno]. apply In_nth_error in Hin as [i Hi].
    exists (i, r). split; [reflexivity|].
    apply filter_In. split; [now apply Hidx|].
    apply negb_true_iff. rewrite <- Bool.not_true_iff_false.
    intros He. apply existsb_exists in He as ([j o] & Hjo & Hg).
    simpl in Hg. destruct (i =? j); [discriminate|].
    apply Hidx in Hjo. apply nth_error_In in Hjo.
    rewrite (Hno o Hjo) in Hg. discriminate.
Qed.

(** X21.  The filter at the end of [provideFoldingRanges]
    keeps exactly the ranges that no range of the list strictly contains
    (the comparison of the indices adds nothing to the comparison of the
    lines); no range that is kept contains another one that is kept. *)
Theorem filter_keeps_outermost : forall ranges,
  (forall r, In r (filterRanges ranges) <->
             In r ranges /\ forall o, In o ranges -> contains o r = false) /\
  (forall a b, In a (filterRanges ranges) -> In b (filterRanges ranges) ->
               contains a b = false).
Proof.
  intros ranges. split; [apply filterRanges_spec|].
  intros a b Ha Hb. apply filterRanges_spec in Ha as [Ha _].
  apply filterRanges_spec in Hb as [_ Hb]. now apply Hb.
Qed.

(** X22.  Every range found lies inside a range that the
    filter keeps: the filter never drops the outermost range around a
    range. *)
Theorem every_range_inside_kept : forall ranges r,
  In r ranges ->
  exists o, In o (filterRanges ranges) /\
            r_start o <= r_start r /\ r_end r <= r_end o.
Proof.
  intros ranges.
  set (M := list_max (map r_end ranges)).
  assert (HM : forall o, In o ranges -> r_end o <= M).
  { intros o Ho.
    assert (H : Forall (fun k => k <= M) (map r_end ranges))
      by (apply list_max_le; reflexivity).
    rewrite Forall_forall in H. apply H. now apply in_map. }
  assert (H : forall n r, r_start r + (M - r_end r) < n -> In r ranges ->
            exists o, In o (filterRanges ranges) /\
                      r_start o <= r_start r /\ r_end r <= r_end o).
  { induction n as [|n IH]; intros r Hn Hr; [lia|].
    destruct (existsb (fun o => contains o r) ranges) eqn:He.
    - apply existsb_exists in He as (o & Ho & Hc).
      pose proof (HM o Ho). pose proof (HM r Hr).
      unfold contains in Hc.
      apply andb_true_iff in Hc as [Hc Hs].
      apply andb_true_iff in Hc as [H1 H2].
      apply Nat.leb_le in H1, H2.
      assert (r_start o < r_start r \/ r_end r < r_end o) as Hlt.
      { apply orb_true_iff in Hs as [Hs|Hs]; apply Nat.ltb_lt in Hs; auto. }
      destruct (IH o) as (o' & Ho' & Hs' & He'); [lia|exact Ho|].
      exists o'. repeat split; [exact Ho'|lia|lia].
    - exists r. split; [|lia].
      apply filterRanges_spec. split; [exact Hr|].
      intros o Ho. rewrite <- Bool.not_true_iff_false. intros Hc.
      apply Bool.not_true_iff_false in He. apply He.
      apply existsb_exists. now exists o. }
  intros r Hr. apply (H (S (r_start r + (M - r_end r)))); [lia|exact Hr].
Qed.

(** Three ranges, each inside the one before it. *)
Lemma every_range_inside_kept_witness :
  exists o,
    In o (filterRanges [mkRange 0 9; mkRange 2 5; mkRange 3 4]) /\
    r_start o <= 3 /\ 4 <= r_end o.
Proof.
  apply (every_range_inside_kept [mkRange 0 9; mkRange 2 5; mkRange 3 4]
           (mkRange 3 4)).
  simpl. right. right. left. reflexivity.
Defined.

End RangeFacts.

(** ** The outer structure of a text *)
Module ElementFacts.
Import Regex Diagnostics Validator Elements JsFacts LoopFacts DepthFacts.
Import RoundTripFacts CommentFacts.

Lemma outerOfFirstTag_shape : forall cleaned,
  outerOfFirstTag cleaned = SPAN \/
  endsWith (outerOfFirstTag cleaned) (lit "/>") = true \/
  exists tagName,
    outerOfFirstTag cleaned
    = lit "<" ++ tagName ++ lit "></" ++ tagName ++ lit ">".
Proof.
  intros cleaned. unfold outerOfFirstTag.
  destruct (exec openTagRegex cleaned 0) as [m|]; [|now left].
  destruct (groupText cleaned m 1) as [name|]; [|now left].
  destruct (endsWith (matched cleaned m) (lit "/>")) eqn:He.
  - right. now left.
  - right. right. now exists name.
Qed.

(** X23.  [extractOuterTags] ends on every text, and what
    it returns is the placeholder [<span></span>], a text that ends in
    [/>], or an empty element [<name></name>]. *)
Theorem outer_structure_shape : forall html,
  exists r,
    extractOuterTags html = Some r /\
    (r = SPAN \/ endsWith r (lit "/>") = true \/
     exists tagName, r = lit "<" ++ tagName ++ lit "></" ++ tagName ++ lit ">").
Proof.
  intros html.
  destruct (ScanTotal.extractOuterTags_total html) as [r Hr].
  exists r. split; [exact Hr|].
  unfold extractOuterTags in Hr. revert Hr.
  generalize (trim html). generalize (S (length html)).
  induction n as [|n IH]; intros cleaned H; [discriminate|].
  cbn [extractOuterTags_loop] in H.
  destruct (startsWith cleaned (lit "${")).
  - destruct (findMatchingBrace' cleaned 1 =? -1)%Z.
    + injection H as <-. apply outerOfFirstTag_shape.
    + destruct (templateInside _); eapply IH; exact H.
  - injection H as <-. apply outerOfFirstTag_shape.
Qed.

Lemma trimStart_app : forall a c rest,
  space c = false -> trimStart (a ++ c :: rest) = trimStart a ++ c :: rest.
Proof.
  induction a as [|x a IH]; intros c rest Hc; simpl.
  - now rewrite Hc.
  - destruct (space x); [now apply IH|reflexivity].
Qed.

Lemma rev_middle : forall (l t : str) c, rev (l ++ c :: t) = rev t ++ c :: rev l.
Proof.
  intros. rewrite rev_app_distr. simpl. now rewrite <- app_assoc.
Qed.

Lemma trim_element : forall name attributes tail,
  exists tail', trim (element name attributes tail)
                = element name attributes tail'.
Proof.
  intros name attributes tail. exists (rev (trimStart (rev tail))).
  unfold trim, element. change (lit "<") with [LT]. simpl app.
  change (trimStart (LT :: name ++ attributes ++ GT :: tail))
    with (LT :: name ++ attributes ++ GT :: tail).
  replace (LT :: name ++ attributes ++ GT :: tail)
    with ((LT :: name ++ attributes) ++ GT :: tail)
    by (simpl; now rewrite <- app_assoc).
  rewrite rev_middle, trimStart_app by reflexivity.
  rewrite rev_middle, !rev_involutive.
  simpl. now rewrite <- app_assoc.
Qed.

Section Run.
Context {A : Type}.

Lemma rmatch_Cls : forall text p i caps (k : nat -> captures -> option A),
  rmatch text (Cls p) i caps k
  = match charAt text i with
    | Some c => if p c then k (i + 1) caps else None
    | None => None
    end.
Proof. reflexivity. Qed.

(** A greedy repetition of a character class takes the whole run of
    characters of the class, when the match goes on from there. *)
Lemma iterate_run : forall (p : N -> bool) run a rest
    (k : nat -> captures -> option A) fuel caps x,
  forallb p run = true ->
  match rest with c :: _ => p c = false | [] => True end ->
  length run <= fuel ->
  k (length a + length run) caps = Some x ->
  iterate (rmatch (a ++ run ++ rest) (Cls p)) true k fuel (length a) caps
  = Some x.
Proof.
  intros p. induction run as [|c run IH]; intros a rest k fuel caps x Hp Hr Hf Hk.
  - simpl in Hk. rewrite Nat.add_0_r in Hk. simpl app.
    destruct fuel as [|fuel]; [exact Hk|]. cbn [iterate]. rewrite rmatch_Cls.
    destruct rest as [|d rest].
    + rewrite app_nil_r.
      replace (charAt a (length a)) with (@None N)
        by (symmetry; apply nth_error_None; lia).
      exact Hk.
    + rewrite charAt_middle, Hr. exact Hk.
  - simpl in Hp. apply andb_true_iff in Hp as [Hc Hp].
    destruct fuel as [|fuel]; [simpl in Hf; lia|].
    cbn [iterate]. rewrite rmatch_Cls. simpl app. rewrite charAt_middle, Hc.
    replace (length a + 1 <=? length a) with false
      by (symmetry; apply Nat.leb_gt; lia).
    rewrite cons_snoc, <- (EscapeFacts.length_snoc a c).
    rewrite (IH (a ++ [c]) rest k fuel caps x); trivial.
    + simpl in Hf. lia.
    + rewrite EscapeFacts.length_snoc. simpl in Hk.
      now replace (length a + 1 + length run) with (length a + S (length run))
        by lia.
Qed.

Lemma rmatch_Cat : forall text a b i caps (k : nat -> captures -> option A),
  rmatch text (Cat a b) i caps k
  = rmatch text a i caps (fun j caps' => rmatch text b j caps' k).
Proof. reflexivity. Qed.

Lemma rmatch_Grp : forall text n a i caps (k : nat -> captures -> option A),
  rmatch text (Grp n a) i caps k
  = rmatch text a i caps (fun j caps' => k j ((n, (i, j)) :: caps')).
Proof. reflexivity. Qed.

Lemma rmatch_Bol : forall text caps (k : nat -> captures -> option A),
  rmatch text Bol 0 caps k = k 0 caps.
Proof. reflexivity. Qed.

(** One character of a class, in a text given by an equation. *)
Lemma rmatch_char : forall text a c rest p i caps
    (k : nat -> captures -> option A),
  text = a ++ c :: rest -> i = length a -> p c = true ->
  rmatch text (Cls p) i caps k = k (i + 1) caps.
Proof.
  intros text a c rest p i caps k -> -> Hc.
  rewrite rmatch_Cls, charAt_middle, Hc. reflexivity.
Qed.

(** A greedy repetition of a class, in a text given by an equation. *)
Lemma rmatch_run : forall text a run rest p i caps
    (k : nat -> captures -> option A) x,
  text = a ++ run ++ rest -> i = length a ->
  forallb p run = true ->
  match rest with c :: _ => p c = false | [] => True end ->
  k (i + length run) caps = Some x ->
  rmatch text (Rep true (Cls p)) i caps k = Some x.
Proof.
  intros text a run rest p i caps k x -> -> Hp Hr Hk.
  change (rmatch (a ++ run ++ rest) (Rep true (Cls p)) (length a) caps k)
    with (iterate (rmatch (a ++ run ++ rest) (Cls p)) true k
            (S (length (a ++ run ++ rest))) (length a) caps).
  apply iterate_run; trivial. lengths.
Qed.
End Run.

Lemma attributesOk_facts : forall attributes tail,
  attributesOk attributes = true ->
  forallb (fun c => negb (N.eqb c GT)) attributes = true /\
  match attributes ++ GT :: tail with
  | c :: _ => (fun c => alpha c || digit c) c = false
  | [] => True
  end.
Proof.
  intros attributes tail H. unfold attributesOk in H.
  apply andb_true_iff in H as [H1 H2]. split; [exact H1|].
  destruct attributes as [|c attributes]; simpl.
  - reflexivity.
  - now apply negb_true_iff in H2.
Qed.

(** The opening-tag pattern on a text that begins with an element. *)
Lemma openTag_element : forall name attributes tail,
  tagNameOk name = true ->
  attributesOk attributes = true ->
  exec openTagRegex (element name attributes tail) 0
  = Some (mkFound 0 (length name + length attributes + 2)
            [(1, (1, 1 + length name))]).
Proof.
  intros name attributes tail Hn Ha.
  destruct name as [|n0 ns]; [discriminate|].
  simpl in Hn. apply andb_true_iff in Hn as [Hn0 Hns].
  destruct (attributesOk_facts attributes tail Ha) as [Hattr Hhead].
  unfold exec, element. change (lit "<") with [LT].
  set (text := [LT] ++ (n0 :: ns) ++ attributes ++ GT :: tail).
  assert (Hm : matchAt openTagRegex text 0
               = Some (mkFound 0 (length (n0 :: ns) + length attributes + 2)
                         [(1, (1, 1 + length (n0 :: ns)))])).
  { unfold matchAt, openTagRegex, tagName, notGt, star, chr.
    rewrite rmatch_Cat, rmatch_Bol. cbv beta.
    rewrite rmatch_Cat.
    rewrite (rmatch_char text [] LT ((n0 :: ns) ++ attributes ++ GT :: tail) _ 0);
      [|reflexivity|reflexivity|reflexivity].
    cbv beta. rewrite rmatch_Cat, rmatch_Grp, rmatch_Cat.
    rewrite (rmatch_char text [LT] n0 (ns ++ attributes ++ GT :: tail) _ (0 + 1));
      [|reflexivity|reflexivity|exact Hn0].
    cbv beta.
    apply (rmatch_run text [LT; n0] ns (attributes ++ GT :: tail));
      [reflexivity|reflexivity|exact Hns|exact Hhead|].
    rewrite rmatch_Cat.
    apply (rmatch_run text (LT :: n0 :: ns) attributes (GT :: tail));
      [unfold text; lists|simpl; lia|exact Hattr|reflexivity|].
    rewrite (rmatch_char text (LT :: (n0 :: ns) ++ attributes) GT tail);
      [|unfold text; lists|lengths|reflexivity].
    cbv beta. simpl length.
    replace (0 + 1 + 1 + length ns + length attributes + 1)
      with (S (length ns) + length attributes + 2) by lia.
    replace (0 + 1 + 1 + length ns) with (1 + S (length ns)) by lia.
    reflexivity. }
  destruct (length text); simpl; now rewrite Hm.
Qed.


Lemma alnum_not_slash : forall c,
  alpha c || digit c = true -> N.eqb SLASH c = false.
Proof.
  intros c H. destruct (N.eqb_spec SLASH c) as [<-|]; [discriminate|reflexivity].
Qed.

(** The tag is self-closing when its attributes end in a slash. *)
Lemma endsWith_openingTag : forall name attributes,
  tagNameOk name = true ->
  endsWith (lit "<" ++ name ++ attributes ++ lit ">") (lit "/>")
  = endsWith attributes (lit "/").
Proof.
  intros name attributes Hn. unfold endsWith.
  change (lit "<") with [LT]. change (lit ">") with [GT].
  change (rev (lit "/>")) with [GT; SLASH].
  change (rev (lit "/")) with [SLASH].
  replace ([LT] ++ name ++ attributes ++ [GT])
    with (([LT] ++ name) ++ attributes ++ [GT]) by lists.
  rewrite (rev_app_distr ([LT] ++ name)), (rev_app_distr attributes).
  change (rev [GT]) with [GT]. rewrite <- app_assoc. simpl app at 1.
  cbn [startsWith]. change (N.eqb GT GT) with true. cbn [andb].
  destruct (rev attributes) as [|y l] eqn:Hr; simpl app.
  - assert (Hall : forall c, In c (rev name ++ [LT]) ->
                   c = LT \/ alpha c || digit c = true).
    { intros c Hc. change (rev name ++ [LT]) with (rev (LT :: name)) in Hc.
      apply in_rev in Hc. destruct Hc as [<-|Hc]; [now left|].
      right. destruct name as [|n0 ns]; [destruct Hc|].
      simpl in Hn. apply andb_true_iff in Hn as [Hn0 Hns].
      destruct Hc as [<-|Hc]; [now rewrite Hn0|].
      rewrite forallb_forall in Hns. now apply Hns. }
    destruct (rev name ++ [LT]) as [|y l] eqn:Hy.
    + apply (f_equal (@length N)) in Hy. rewrite length_app in Hy.
      simpl in Hy. lia.
    + cbn [startsWith]. destruct (Hall y (or_introl eq_refl)) as [->|Hy'].
      * reflexivity.
      * now rewrite (alnum_not_slash y Hy').
  - reflexivity.
Qed.

(** X24.  For a text that begins with a tag
    [<name attributes>], [extractOuterTags] returns the tag itself when it
    is self-closing (the attributes end in a slash) and the empty element
    [<name></name>], without the attributes, when it is not; what follows
    the tag plays no part. *)
Theorem outer_tags_of_first_element : forall name attributes tail,
  tagNameOk name = true ->
  attributesOk attributes = true ->
  extractOuterTags (element name attributes tail)
  = Some (if endsWith attributes (lit "/")
          then lit "<" ++ name ++ attributes ++ lit ">"
          else lit "<" ++ name ++ lit "></" ++ name ++ lit ">").
Proof.
  intros name attributes tail Hn Ha. unfold extractOuterTags.
  destruct (trim_element name attributes tail) as [tail' ->].
  cbn [extractOuterTags_loop].
  replace (startsWith (element name attributes tail') (lit "${")) with false
    by reflexivity.
  f_equal. unfold outerOfFirstTag.
  rewrite (openTag_element name attributes tail' Hn Ha).
  unfold matched, groupText. cbn [group m_groups m_index m_end Nat.eqb].
  assert (Hfull : substring (element name attributes tail') 0
                    (length name + length attributes + 2)
                  = lit "<" ++ name ++ attributes ++ lit ">").
  { unfold element. change (lit "<") with [LT]. change (lit ">") with [GT].
    replace ([LT] ++ name ++ attributes ++ GT :: tail')
      with ([] ++ ([LT] ++ name ++ attributes ++ [GT]) ++ tail') by lists.
    replace (length name + length attributes + 2)
      with (length (@nil N) + length ([LT] ++ name ++ attributes ++ [GT]))
      by lengths.
    apply substring_middle. }
  assert (Hname : substring (element name attributes tail') 1 (1 + length name)
                  = name).
  { unfold element. change (lit "<") with [LT].
    change 1 with (length [LT]). apply substring_middle. }
  rewrite Hfull, Hname, (endsWith_openingTag name attributes Hn).
  reflexivity.
Qed.

(** [<li class='a'>x</li><li>y</li>] *)
Lemma outer_tags_of_first_element_witness :
  extractOuterTags (element (lit "li") (lit " class='a'")
                      (lit "x</li><li>y</li>"))
  = Some (lit "<li></li>").
Proof.
  apply (outer_tags_of_first_element (lit "li") (lit " class='a'")
           (lit "x</li><li>y</li>")); reflexivity.
Defined.

End ElementFacts.

(** ** A document that holds one literal, from end to end *)
Module LiteralFacts.
Import Regex Utils Folding Diagnostics Validator FoldingProvider Leaders.
Import Literals Comments.
Import JsFacts LoopFacts RegexFacts FoldingFacts DepthFacts RoundTripFacts.
Import FuelFacts CommentFacts LeaderFacts ExtractFacts ElementFacts.

(** *** Names that stand for themselves *)

Lemma term_literal : forall c, syntaxChar c = false -> term c = chr c.
Proof.
  intros c H. unfold syntaxChar in H. simpl in H.
  repeat (apply orb_false_iff in H as [? H]).
  unfold term, DOT, CARET, DOLLAR.
  repeat match goal with
    | E : (c =? ?k)%N = false |- context [(c =? ?k)%N] => rewrite E
    end.
  reflexivity.
Qed.

Lemma terms_literal : forall s, literalName s = true -> terms s = str_re s.
Proof.
  induction s as [|c s IH]; intros H; [reflexivity|].
  unfold literalName in H. simpl in H. apply andb_true_iff in H as [Hc Hs].
  apply negb_true_iff in Hc.
  cbn [terms str_re]. rewrite (term_literal c Hc). f_equal. now apply IH.
Qed.

Lemma literal_no_bar : forall c, syntaxChar c = false -> N.eqb c BAR = false.
Proof.
  intros c H. unfold syntaxChar in H. simpl in H.
  repeat (apply orb_false_iff in H as [? H]). assumption.
Qed.

Lemma alternatives_nonempty : forall s, alternatives s <> [].
Proof.
  induction s as [|c s IH]; simpl; [discriminate|].
  destruct (N.eqb c BAR); [discriminate|].
  destruct (alternatives s); discriminate.
Qed.

(** The alternatives of a literal name and of what follows its [|]. *)
Lemma alternatives_name : forall name rest,
  literalName name = true ->
  alternatives (name ++ BAR :: rest) = name :: alternatives rest.
Proof.
  induction name as [|c name IH]; intros rest H; [reflexivity|].
  unfold literalName in H. simpl in H. apply andb_true_iff in H as [Hc Hs].
  apply negb_true_iff in Hc. simpl.
  rewrite (literal_no_bar c Hc), (IH rest Hs). reflexivity.
Qed.

Lemma alternatives_last : forall name,
  literalName name = true -> alternatives name = [name].
Proof.
  induction name as [|c name IH]; intros H; [reflexivity|].
  unfold literalName in H. simpl in H. apply andb_true_iff in H as [Hc Hs].
  apply negb_true_iff in Hc. simpl.
  rewrite (literal_no_bar c Hc), (IH Hs). reflexivity.
Qed.

Lemma alternatives_join : forall tagPatterns,
  tagPatterns <> [] ->
  forallb literalName tagPatterns = true ->
  alternatives (join [BAR] tagPatterns) = tagPatterns.
Proof.
  induction tagPatterns as [|name l IH]; intros Hne H; [congruence|].
  simpl in H. apply andb_true_iff in H as [Hn Hl].
  destruct l as [|name' l'].
  - simpl. now apply alternatives_last.
  - change (join [BAR] (name :: name' :: l'))
      with (name ++ BAR :: join [BAR] (name' :: l')).
    rewrite (alternatives_name _ _ Hn), IH; [reflexivity|discriminate|exact Hl].
Qed.

(** Configured names in which every character stands for itself are
    matched as they are written. *)
Lemma leaderNames_literal : forall tagPatterns,
  tagPatterns <> [] ->
  forallb literalName tagPatterns = true ->
  leaderNames tagPatterns = Cat (alts (map str_re tagPatterns)) ws.
Proof.
  intros tagPatterns Hne H. unfold leaderNames, pattern.
  rewrite (alternatives_join _ Hne H). do 2 f_equal.
  apply map_ext_in. intros name Hin. apply terms_literal.
  rewrite forallb_forall in H. now apply H.
Qed.

(** A name is read as the source of a pattern: in [$h] the [$] is the
    assertion of the end of the text, so the name matches nowhere in front
    of a backtick and [$h`<b>`] is no literal; in [h.ml] the dot stands for
    any character, so [hxml`] is a leader. *)
Lemma names_are_pattern_sources :
  execAll (leaderRegex [lit "$h"]) (lit "$h`<b>`") = [] /\
  updateDiagnostics [lit "$h"] Markup.javascript (lit "$h`<b>`") = Some [] /\
  map m_end (execAll (foldingRegex [lit "h.ml"]) (lit "hxml`<b>`")) = [5] /\
  map m_end (execAll (foldingRegex [lit "h.ml"; lit "dom"]) (lit "dom`<b>`"))
  = [4].
Proof. repeat split; reflexivity. Qed.

Section Avoids.
Context {A : Type}.
Variable text : str.
Variable c : N.

(** A match of a pattern that avoids [c] runs over no [c]. *)
Lemma rmatch_avoids : forall r i caps (k : nat -> captures -> option A) x,
  avoids c r = true ->
  rmatch text r i caps k = Some x ->
  exists j caps',
    i <= j /\ k j caps' = Some x /\
    forall t, i <= t < j -> charAt text t <> Some c.
Proof.
  induction r as [|p|a IHa b IHb|a IHa b IHb|g a IHa|n a IHa| | |];
    intros i caps k x Hav H; cbn [rmatch] in H; cbn [avoids] in Hav.
  - exists i, caps. repeat split; [lia|exact H|intros; lia].
  - destruct (charAt text i) as [d|] eqn:Hd; [|discriminate].
    destruct (p d) eqn:Hp; [|discriminate].
    exists (i + 1), caps. repeat split; [lia|exact H|].
    intros t Ht Hc. assert (t = i) by lia. subst t.
    rewrite Hd in Hc. injection Hc as ->.
    rewrite Hp in Hav. discriminate.
  - apply andb_true_iff in Hav as [Ha Hb].
    apply IHa in H as (j & caps' & Hj & H & Hn); [|exact Ha].
    apply IHb in H as (j' & caps'' & Hj' & H & Hn'); [|exact Hb].
    exists j', caps''. repeat split; [lia|exact H|].
    intros t Ht. destruct (Nat.lt_ge_cases t j); [apply Hn|apply Hn']; lia.
  - apply andb_true_iff in Hav as [Ha Hb].
    destruct (rmatch text a i caps k) eqn:Hm.
    + injection H as ->. now apply IHa in Hm.
    + now apply IHb in H.
  - revert H. generalize (S (length text)). intros fuel. revert i caps x.
    induction fuel as [|fuel IHf]; intros i caps x H; simpl in H.
    + exists i, caps. repeat split; [lia|exact H|intros; lia].
    + assert (Hmore : forall y,
                rmatch text a i caps
                  (fun j caps' =>
                     if j <=? i then None
                     else iterate (rmatch text a) g k fuel j caps') = Some y ->
                exists j caps',
                  i <= j /\ k j caps' = Some y /\
                  forall t, i <= t < j -> charAt text t <> Some c).
      { intros y Hy. apply IHa in Hy as (j & caps' & Hj & Hy & Hn); [|exact Hav].
        destruct (j <=? i); [discriminate|].
        apply IHf in Hy as (j' & caps'' & Hj' & Hy & Hn').
        exists j', caps''. repeat split; [lia|exact Hy|].
        intros t Ht. destruct (Nat.lt_ge_cases t j); [apply Hn|apply Hn']; lia. }
      destruct g.
      * destruct (rmatch text a i caps _) eqn:Hm.
        -- injection H as ->. now apply Hmore.
        -- exists i, caps. repeat split; [lia|exact H|intros; lia].
      * destruct (k i caps) eqn:Hk.
        -- injection H as ->.
           exists i, caps. repeat split; [lia|exact Hk|intros; lia].
        -- now apply Hmore.
  - apply IHa in H as (j & caps' & Hj & H & Hn); [|exact Hav]. eauto.
  - destruct (wordBoundary text i); [|discriminate].
    exists i, caps. repeat split; [lia|exact H|intros; lia].
  - destruct (i =? 0); [|discriminate].
    exists i, caps. repeat split; [lia|exact H|intros; lia].
  - destruct (i =? length text); [|discriminate].
    exists i, caps. repeat split; [lia|exact H|intros; lia].
Qed.
End Avoids.

(** A match of [G c], where [G] avoids the character [c], ends just
    after the first [c] at or after its beginning. *)
Lemma matchAt_first : forall G c text i m,
  avoids c G = true ->
  matchAt (Cat G (chr c)) text i = Some m ->
  m_index m = i /\ i < m_end m /\
  charAt text (m_end m - 1) = Some c /\
  forall t, i <= t < m_end m - 1 -> charAt text t <> Some c.
Proof.
  intros G c text i m Hav H. unfold matchAt in H. cbn [rmatch chr] in H.
  apply rmatch_avoids with (c := c) in H as (j & caps' & Hj & H & Hn);
    [|exact Hav].
  destruct (charAt text j) as [d|] eqn:Hd; [|discriminate].
  destruct (N.eqb_spec c d) as [->|]; [|discriminate].
  injection H as <-. simpl. replace (j + 1 - 1) with j by lia.
  repeat split; try lia; assumption.
Qed.

(** The search finds a match at or before a position at which the
    pattern matches. *)
Lemma search_found : forall r text fuel i j m0,
  matchAt r text j = Some m0 -> i <= j -> j - i <= fuel -> j < length text ->
  exists m, search fuel r text i = Some m /\
            exists i', i <= i' <= j /\ matchAt r text i' = Some m.
Proof.
  intros r text. induction fuel as [|n IH]; intros i j m0 Hm Hle Hf Hlt; simpl.
  - assert (i = j) by lia. subst i. rewrite Hm. eauto 6.
  - destruct (matchAt r text i) as [m|] eqn:Hi.
    + exists m. split; [reflexivity|]. exists i. split; [lia|exact Hi].
    + assert (i <> j) by (intros ->; congruence).
      replace (i <? length text) with true
        by (symmetry; apply Nat.ltb_lt; lia).
      destruct (IH (i + 1) j m0 Hm) as (m & Hs & i' & Hi' & Hm'); try lia.
      exists m. split; [exact Hs|]. exists i'. split; [lia|exact Hm'].
Qed.


Lemma avoids_str : forall s,
  noBacktick s = true -> avoids BACKTICK (str_re s) = true.
Proof.
  induction s as [|d s IH]; intros H; [reflexivity|].
  unfold noBacktick in H. simpl in H. apply andb_true_iff in H as [Hd Hs].
  cbn [str_re avoids chr]. rewrite Hd. now apply IH.
Qed.

Lemma avoids_alts : forall tagPatterns,
  forallb noBacktick tagPatterns = true ->
  avoids BACKTICK (alts (map str_re tagPatterns)) = true.
Proof.
  induction tagPatterns as [|s l IH]; intros H; [reflexivity|].
  simpl in H. apply andb_true_iff in H as [Hs Hl].
  destruct l as [|s' l'].
  - simpl. now apply avoids_str.
  - change (alts (map str_re (s :: s' :: l')))
      with (Alt (str_re s) (alts (map str_re (s' :: l')))).
    cbn [avoids]. rewrite (avoids_str s Hs). now apply IH.
Qed.

(** The leaders of both patterns run over no backtick. *)
Lemma avoids_leaders : forall tagPatterns,
  tagPatterns <> [] ->
  forallb literalName tagPatterns = true ->
  forallb noBacktick tagPatterns = true ->
  avoids BACKTICK
    (Grp 1 (Alt (leaderNames tagPatterns) (Alt annotatedName annotation)))
  = true /\
  avoids BACKTICK (Grp 1 (Alt (leaderNames tagPatterns) annotatedName)) = true.
Proof.
  intros tagPatterns Hne Hlit H. rewrite (leaderNames_literal _ Hne Hlit).
  cbn [avoids].
  rewrite (avoids_alts tagPatterns H). split; reflexivity.
Qed.

Section Exists.
Context {A : Type}.

(** A literal string matches where the text holds it. *)
Lemma rmatch_str : forall s text a rest i caps
    (k : nat -> captures -> option A),
  text = a ++ s ++ rest -> i = length a ->
  rmatch text (str_re s) i caps k = k (i + length s) caps.
Proof.
  induction s as [|d s IH]; intros text a rest i caps k Ht Hi.
  - simpl. now rewrite Nat.add_0_r.
  - cbn [str_re]. rewrite rmatch_Cat. unfold chr at 1.
    rewrite (rmatch_char text a d (s ++ rest) _ i);
      [|exact Ht|exact Hi|apply N.eqb_refl].
    rewrite (IH text (a ++ [d]) rest (i + 1));
      [|subst text; lists|subst i; lengths].
    f_equal. simpl. lia.
Qed.

Lemma rmatch_alts : forall text a l i caps (k : nat -> captures -> option A),
  In a l ->
  (exists x, rmatch text a i caps k = Some x) ->
  exists x, rmatch text (alts l) i caps k = Some x.
Proof.
  intros text a. induction l as [|b l IH]; intros i caps k Hin Hx; [destruct Hin|].
  destruct l as [|b' l'].
  - destruct Hin as [->|[]]. exact Hx.
  - change (alts (b :: b' :: l')) with (Alt b (alts (b' :: l'))).
    cbn [rmatch]. destruct (rmatch text b i caps k) eqn:Hb; [eauto|].
    destruct Hin as [->|Hin].
    + destruct Hx as [x Hx]. congruence.
    + now apply IH.
Qed.
End Exists.

(** Both leader patterns match where the text holds a configured name
    and a backtick. *)
Lemma leader_at : forall tagPatterns others pre name rest,
  forallb literalName tagPatterns = true ->
  In name tagPatterns ->
  exists m,
    matchAt (Cat (Grp 1 (Alt (leaderNames tagPatterns) others)) (chr BACKTICK))
      (pre ++ name ++ BACKTICK :: rest) (length pre) = Some m.
Proof.
  intros tagPatterns others pre name rest Hlit Hin.
  assert (Hne : tagPatterns <> []) by (intros ->; destruct Hin).
  rewrite (leaderNames_literal _ Hne Hlit).
  set (text := pre ++ name ++ BACKTICK :: rest).
  unfold matchAt. rewrite rmatch_Cat, rmatch_Grp.
  cbn [rmatch]. 
  match goal with
  | |- exists m, match ?X with _ => _ end = Some m =>
      assert (Hx : exists x, X = Some x);
      [|destruct Hx as [x ->]; eauto]
  end.
  apply rmatch_alts with (a := str_re name); [now apply in_map|].
  rewrite (rmatch_str name text pre (BACKTICK :: rest));
    [|reflexivity|reflexivity].
  eexists. unfold ws, star.
  apply (rmatch_run text (pre ++ name) [] (BACKTICK :: rest));
    [unfold text; lists|lengths|reflexivity|reflexivity|].
  unfold chr.
  rewrite (rmatch_char text (pre ++ name) BACKTICK rest);
    [reflexivity|unfold text; lists|lengths|reflexivity].
Qed.


Lemma noBacktick_charAt : forall s t,
  noBacktick s = true -> charAt s t <> Some BACKTICK.
Proof.
  intros s t H Hc. unfold noBacktick in H. rewrite forallb_forall in H.
  apply nth_error_In in Hc. apply H in Hc. discriminate.
Qed.

Lemma noBacktick_existsb : forall s,
  noBacktick s = true -> existsb (N.eqb BACKTICK) s = false.
Proof.
  intros s H. rewrite <- Bool.not_true_iff_false. intros He.
  apply existsb_exists in He as (c & Hin & Hc). apply N.eqb_eq in Hc. subst c.
  apply In_nth_error in Hin as [t Ht].
  exact (noBacktick_charAt s t H Ht).
Qed.

(** The two backticks of [pre name`content`post]. *)
Lemma backticks_of_literal : forall pre name content post t,
  noBacktick (pre ++ name) = true ->
  noBacktick content = true ->
  noBacktick post = true ->
  charAt (literalIn pre name content post) t = Some BACKTICK ->
  t = length pre + length name \/
  t = length pre + length name + 1 + length content.
Proof.
  intros pre name content post t Hp Hc Hpost H. unfold literalIn in H.
  rewrite app_assoc in H. unfold charAt in H.
  destruct (Nat.lt_ge_cases t (length (pre ++ name))) as [Hlt|Hge].
  - rewrite nth_error_app1 in H by exact Hlt.
    now apply (noBacktick_charAt _ _ Hp) in H.
  - rewrite nth_error_app2 in H by exact Hge.
    rewrite length_app in *.
    destruct (t - (length pre + length name)) as [|u] eqn:Hu; [left; lia|].
    simpl in H.
    destruct (Nat.lt_ge_cases u (length content)) as [Hlt|Hge'].
    + rewrite nth_error_app1 in H by exact Hlt.
      now apply (noBacktick_charAt _ _ Hc) in H.
    + rewrite nth_error_app2 in H by exact Hge'.
      destruct (u - length content) as [|v] eqn:Hv; [right; lia|].
      simpl in H. now apply (noBacktick_charAt _ _ Hpost) in H.
Qed.

Lemma codeChar_noBacktick : forall s,
  forallb codeChar s = true -> noBacktick s = true.
Proof.
  intros s H. unfold noBacktick. rewrite forallb_forall in *.
  intros c Hc. apply H in Hc. apply codeChar_tests in Hc as (_ & _ & Hb & _).
  now rewrite Hb.
Qed.

(** The first match of a leader pattern in [pre name`content`post] ends
    just after the opening backtick. *)
Lemma first_leader_match : forall tagPatterns others pre name content post,
  forallb literalName tagPatterns = true ->
  In name tagPatterns ->
  avoids BACKTICK (Grp 1 (Alt (leaderNames tagPatterns) others)) = true ->
  noBacktick (pre ++ name) = true ->
  noBacktick content = true ->
  noBacktick post = true ->
  let text := literalIn pre name content post in
  let r := Cat (Grp 1 (Alt (leaderNames tagPatterns) others)) (chr BACKTICK) in
  exists m,
    exec r text 0 = Some m /\
    m_index m <= length pre /\
    matchAt r text (m_index m) = Some m /\
    m_end m = length pre + length name + 1.
Proof.
  intros tagPatterns others pre name content post Hlit Hin Hav Hp Hc Hpost
    text r.
  destruct (leader_at tagPatterns others pre name
              (content ++ BACKTICK :: post) Hlit Hin) as [m0 Hm0].
  fold (literalIn pre name content post) in Hm0. fold text in Hm0. fold r in Hm0.
  assert (Hlen : length pre < length text)
    by (unfold text, literalIn; lengths).
  destruct (search_found r text (length text) 0 (length pre) m0 Hm0)
    as (m & Hs & i' & Hi' & Hm); try lia.
  exists m. split; [exact Hs|].
  destruct (matchAt_first _ _ _ _ _ Hav Hm) as (Hidx & Hlt & Hb & Hno).
  rewrite Hidx. repeat split; [lia|exact Hm|].
  destruct (backticks_of_literal pre name content post _ Hp Hc Hpost Hb)
    as [He|He]; [lia|].
  exfalso. apply (Hno (length pre + length name)); [lia|].
  unfold text, literalIn. rewrite app_assoc.
  rewrite <- length_app. apply charAt_middle.
Qed.

(** The matches after the first one end just after the closing backtick. *)
Lemma later_leader_matches : forall r pre name content post fuel m,
  noBacktick (pre ++ name) = true ->
  noBacktick content = true ->
  noBacktick post = true ->
  let text := literalIn pre name content post in
  In m (matches fuel (Cat r (chr BACKTICK)) text
          (length pre + length name + 1)) ->
  m_end m = length pre + length name + 1 + length content + 1.
Proof.
  intros r pre name content post fuel m Hp Hc Hpost text Hin.
  pose proof (matches_endsIn r BACKTICK text fuel
                (length pre + length name + 1)) as Hf.
  rewrite Forall_forall in Hf. apply Hf in Hin.
  destruct Hin as (H1 & H2 & H3 & H4).
  destruct (backticks_of_literal pre name content post _ Hp Hc Hpost H4); lia.
Qed.

(** A position whose prefix is plain code is outside of every comment. *)
Lemma code_prefix_outside : forall text position,
  forallb codeChar (firstn position text) = true ->
  isInsideComment' text position = false.
Proof.
  intros text p H. unfold isInsideComment'.
  destruct (ScanTotal.isInsideComment_total text p) as [b Hb]. rewrite Hb.
  unfold isInsideComment in Hb. rewrite substring_prefix in Hb.
  unfold isInsideComment_init in Hb.
  eapply while_unique; [exact Hb|].
  apply over_code with (a := []) (seg := firstn p text) (rest := [])
                       (j := length (firstn p text)) (n := 1);
    [lists|reflexivity|reflexivity|exact H|].
  apply at_end. lia.
Qed.

(** From the closing backtick on there is no literal to extract. *)
Lemma nothing_after_closing : forall pre name content post,
  noBacktick (pre ++ name) = true ->
  noBacktick content = true ->
  noBacktick post = true ->
  extractTemplateContent' (literalIn pre name content post)
    (length pre + length name + 1 + length content + 1) = None.
Proof.
  intros pre name content post Hp Hc Hpost. unfold extractTemplateContent'.
  destruct (extractTemplateContent_result (literalIn pre name content post)
              (length pre + length name + 1 + length content + 1))
    as (r & -> & [->|(i & Hi & Hb & ->)]); [reflexivity|].
  destruct (backticks_of_literal pre name content post _ Hp Hc Hpost Hb); lia.
Qed.

(** The content of a plain literal is what the extraction returns. *)
Lemma extract_plain : forall pre name content post,
  Literal.plain Literal.Top content = true ->
  extractTemplateContent' (literalIn pre name content post)
    (length pre + length name + 1) = Some content.
Proof.
  intros pre name content post Hplain. unfold extractTemplateContent'.
  pose proof (scanners_agree_upto (length content) content (le_n _)
                Literal.Top 1 (pre ++ name ++ [BACKTICK]) post
                (length pre + length name + 1)
                (S (length (literalIn pre name content post))) None None
                Hplain I) as H.
  assert (E : (pre ++ name ++ [BACKTICK]) ++ content ++ BACKTICK :: post
              = literalIn pre name content post)
    by (unfold literalIn; lists).
  assert (L : length (pre ++ name ++ [BACKTICK])
              = length pre + length name + 1) by lengths.
  cbv zeta in H. rewrite E, L in H.
  destruct H as [H _].
  - replace (pre ++ name ++ [BACKTICK]) with ((pre ++ name) ++ [BACKTICK])
      by lists.
    now rewrite before_snoc.
  - unfold literalIn. lengths.
  - unfold extractTemplateContent, extractTemplateContent_init.
    unfold Literal.stateE in H. rewrite H. f_equal.
    rewrite <- E, <- L. apply substring_middle.
Qed.

(** Without a backtick in it a text is validated by the loop over its
    tags alone. *)
Lemma validateHTML_flat : forall tagPatterns docText html offset,
  noBacktick html = true ->
  validateHTML tagPatterns docText html offset
  = tagDiagnostics offset (cleanHtml tagPatterns html []).
Proof.
  intros tagPatterns docText html offset H.
  unfold validateHTML. cbn [validateHTML_fuel]. unfold ownDiagnostics.
  now rewrite (ValidatorFacts.nestedTemplates_no_backtick tagPatterns html
                 offset (noBacktick_existsb html H)).
Qed.

Lemma flat_map_all_nil : forall (A B : Type) (f : A -> list B) l,
  (forall x, In x l -> f x = []) -> flat_map f l = [].
Proof.
  intros A B f. induction l as [|x l IH]; intros H; [reflexivity|].
  simpl. rewrite (H x (or_introl eq_refl)). apply IH.
  intros y Hy. apply H. now right.
Qed.

(** X25.  A document [pre name`content`post] in one of the four
    languages, where the configured names hold no syntax character of a
    pattern (so that each stands for itself in the source of the regular
    expression) and no backtick, [name] is one of them, [pre name] is
    plain code (no quote, backtick, slash or star), [content] is plain
    literal content (no backslash, quotes and braces closed) without
    backtick, and [post] holds no backtick: [updateDiagnostics] reports
    exactly the diagnostics of the tags of [content], with its
    interpolations replaced, at the offset of the first character after
    the opening backtick. *)
Theorem single_literal_validated :
  forall tagPatterns languageId pre name content post,
  existsb (Js.eqb languageId) supportedLanguages = true ->
  In name tagPatterns ->
  forallb literalName tagPatterns = true ->
  forallb noBacktick tagPatterns = true ->
  forallb codeChar (pre ++ name) = true ->
  Literal.plain Literal.Top content = true ->
  noBacktick content = true ->
  noBacktick post = true ->
  updateDiagnostics tagPatterns languageId (literalIn pre name content post)
  = Some (tagDiagnostics (length pre + length name + 1)
            (cleanHtml tagPatterns content [])).
Proof.
  intros tagPatterns languageId pre name content post
    Hlang Hin Hlit Htags Hcode Hplain Hc Hpost.
  assert (Hne : tagPatterns <> []) by (intros ->; destruct Hin).
  pose proof (codeChar_noBacktick _ Hcode) as Hp.
  unfold updateDiagnostics. rewrite Hlang. f_equal.
  set (text := literalIn pre name content post).
  destruct (first_leader_match tagPatterns (Alt annotatedName annotation)
              pre name content post Hlit Hin
              (proj1 (avoids_leaders tagPatterns Hne Hlit Htags)) Hp Hc Hpost)
    as (m1 & Hex & _ & _ & Hend).
  fold text in Hex.
  unfold execAll. cbn [matches]. unfold leaderRegex at 1. rewrite Hex.
  replace (m_end m1 <=? 0) with false by (symmetry; apply Nat.leb_gt; lia).
  cbn [flat_map]. rewrite Hend.
  replace (length pre + length name + 1 - 1) with (length pre + length name)
    by lia.
  rewrite code_prefix_outside.
  2:{ unfold text, literalIn. rewrite app_assoc, <- length_app.
      rewrite <- (Nat.add_0_r (length (pre ++ name))), firstn_app_2.
      simpl. now rewrite app_nil_r. }
  unfold text at 1. rewrite (extract_plain pre name content post Hplain).
  rewrite (validateHTML_flat _ _ _ _ Hc).
  rewrite <- app_nil_r. f_equal.
  apply flat_map_all_nil. intros m Hm.
  apply (later_leader_matches _ pre name content post) in Hm; trivial.
  rewrite Hm.
  replace (length pre + length name + 1 + length content + 1 - 1 + 1)
    with (length pre + length name + 1 + length content + 1) by lia.
  fold text.
  destruct (isInsideComment' text _); [reflexivity|].
  unfold text. now rewrite nothing_after_closing.
Qed.

(** [x = html`<p>${a}</p><b>`;]: the one diagnostic is the unclosed [<b>]. *)
Lemma single_literal_validated_witness :
  updateDiagnostics Markup.defaultTags Markup.javascript
    (literalIn (lit "x = ") (lit "html") (lit "<p>${a}</p><b>") (lit ";"))
  = Some [mkDiagnostic 27 30 (lit "Unclosed tag <b>") Warning].
Proof.
  apply (single_literal_validated Markup.defaultTags Markup.javascript
           (lit "x = ") (lit "html") (lit "<p>${a}</p><b>") (lit ";"));
    try reflexivity.
  left. reflexivity.
Defined.


Section Inversion.
Context {A : Type}.
Variable text : str.

(** Where a literal string matches, the text holds it. *)
Lemma rmatch_str_inv : forall s i caps (k : nat -> captures -> option A) x,
  rmatch text (str_re s) i caps k = Some x ->
  k (i + length s) caps = Some x /\
  forall t, t < length s -> charAt text (i + t) = nth_error s t.
Proof.
  induction s as [|d s IH]; intros i caps k x H.
  - simpl in *. rewrite Nat.add_0_r. split; [exact H|intros; lia].
  - cbn [str_re] in H. rewrite rmatch_Cat in H. unfold chr at 1 in H.
    rewrite rmatch_Cls in H.
    destruct (charAt text i) as [e|] eqn:He; [|discriminate].
    destruct (N.eqb_spec d e) as [->|]; [|discriminate].
    apply IH in H as [H Hs]. split.
    + simpl. now replace (i + S (length s)) with (i + 1 + length s) by lia.
    + intros [|t] Ht; simpl.
      * now rewrite Nat.add_0_r.
      * replace (i + S t) with (i + 1 + t) by lia. apply Hs.
        simpl in Ht. lia.
Qed.

(** Where one of several literal strings matches, the text holds one of
    them. *)
Lemma rmatch_alts_inv : forall l i caps (k : nat -> captures -> option A) x,
  l <> [] ->
  rmatch text (alts (map str_re l)) i caps k = Some x ->
  exists s, In s l /\ k (i + length s) caps = Some x /\
            forall t, t < length s -> charAt text (i + t) = nth_error s t.
Proof.
  induction l as [|s l IH]; intros i caps k x Hne H; [congruence|].
  destruct l as [|s' l'].
  - simpl in H. apply rmatch_str_inv in H. exists s. split; [now left|exact H].
  - change (alts (map str_re (s :: s' :: l')))
      with (Alt (str_re s) (alts (map str_re (s' :: l')))) in H.
    cbn [rmatch] in H.
    destruct (rmatch text (str_re s) i caps k) eqn:Hs.
    + injection H as ->. apply rmatch_str_inv in Hs.
      exists s. split; [now left|exact Hs].
    + apply IH in H as (s0 & Hin & H); [|discriminate].
      exists s0. split; [now right|exact H].
Qed.

(** A repetition of a class runs over characters of the class. *)
Lemma rmatch_class_inv : forall g p i caps
    (k : nat -> captures -> option A) x,
  rmatch text (Rep g (Cls p)) i caps k = Some x ->
  exists j, i <= j /\ k j caps = Some x /\
            forall t, i <= t < j ->
            exists d, charAt text t = Some d /\ p d = true.
Proof.
  intros g p i caps k x H. cbn [rmatch] in H. revert H.
  generalize (S (length text)). intros fuel. revert i x.
  induction fuel as [|fuel IHf]; intros i x H; simpl in H.
  - exists i. repeat split; [lia|exact H|intros; lia].
  - assert (Hmore : forall y,
              rmatch text (Cls p) i caps
                (fun j caps' =>
                   if j <=? i then None
                   else iterate (rmatch text (Cls p)) g k fuel j caps')
              = Some y ->
              exists j, i <= j /\ k j caps = Some y /\
                        forall t, i <= t < j ->
                        exists d, charAt text t = Some d /\ p d = true).
    { intros y Hy. rewrite rmatch_Cls in Hy.
      destruct (charAt text i) as [d|] eqn:Hd; [|discriminate].
      destruct (p d) eqn:Hp; [|discriminate].
      destruct (i + 1 <=? i); [discriminate|].
      apply IHf in Hy as (j & Hj & Hy & Hall).
      exists j. repeat split; [lia|exact Hy|].
      intros t Ht. destruct (Nat.eq_dec t i) as [->|]; [eauto|].
      apply Hall. lia. }
    destruct g.
    + match type of H with
      | match ?m with _ => _ end = _ => destruct m eqn:Hm
      end.
      * injection H as ->. now apply Hmore.
      * exists i. repeat split; [lia|exact H|intros; lia].
    + destruct (k i caps) eqn:Hk.
      * injection H as ->.
        exists i. repeat split; [lia|exact Hk|intros; lia].
      * now apply Hmore.
Qed.
End Inversion.

Ltac tests :=
  repeat match goal with
    | H : (_ || _) = true |- _ => apply orb_true_iff in H as [H|H]
    | H : (_ && _) = true |- _ => apply andb_true_iff in H as [? ?]
    | H : (_ <=? _)%N = true |- _ => apply N.leb_le in H
    | H : (_ =? _)%N = true |- _ => apply N.eqb_eq in H
    end.

Lemma word_not_space : forall c, word c = true -> space c = false.
Proof.
  intros c H. apply Bool.not_true_iff_false. intros Hs.
  unfold word, alpha, digit, between in H.
  unfold space, between in Hs.
  tests; lia.
Qed.

Lemma word_codeChar : forall c, word c = true -> codeChar c = true.
Proof.
  intros c H.
  unfold word, alpha, digit, between in H.
  unfold codeChar, DQUOTE, SQUOTE, BACKTICK, SLASH, STAR.
  repeat (apply andb_true_iff; split); apply negb_true_iff, N.eqb_neq;
    tests; lia.
Qed.

Lemma wordName_in : forall tagPatterns name,
  forallb wordName tagPatterns = true -> In name tagPatterns ->
  forallb word name = true /\ name <> [].
Proof.
  intros tagPatterns name H Hin. rewrite forallb_forall in H.
  apply H in Hin. unfold wordName in Hin.
  apply andb_true_iff in Hin as [Hc Hn]. split; [exact Hc|].
  intros ->. discriminate.
Qed.

Lemma wordNames_noBacktick : forall tagPatterns,
  forallb wordName tagPatterns = true ->
  forallb noBacktick tagPatterns = true.
Proof.
  intros tagPatterns H. rewrite forallb_forall in *. intros name Hin.
  apply H in Hin. unfold wordName in Hin.
  apply andb_true_iff in Hin as [Hc _].
  apply codeChar_noBacktick. rewrite forallb_forall in *.
  intros c Hin. now apply word_codeChar, Hc.
Qed.

Lemma word_literal : forall c, word c = true -> syntaxChar c = false.
Proof.
  intros c H. apply Bool.not_true_iff_false. intros Hs.
  unfold word, alpha, digit, between in H.
  unfold syntaxChar in Hs. simpl in Hs.
  tests; lia.
Qed.

Lemma wordNames_literal : forall tagPatterns,
  forallb wordName tagPatterns = true ->
  forallb literalName tagPatterns = true.
Proof.
  intros tagPatterns H. rewrite forallb_forall in *. intros name Hin.
  apply H in Hin. unfold wordName in Hin.
  apply andb_true_iff in Hin as [Hc _].
  unfold literalName. rewrite forallb_forall in *.
  intros c Hin. apply negb_true_iff. now apply word_literal, Hc.
Qed.

(** A match of the folding pattern that ends just after the opening
    backtick of [pre name`content`post] begins at the name, when the
    configured names are made of word characters and [pre] does not end
    in one. *)
Lemma folding_match_start : forall tagPatterns pre name content post i m,
  forallb wordName tagPatterns = true ->
  In name tagPatterns ->
  forallb codeChar pre = true ->
  endsWord pre = true ->
  matchAt (foldingRegex tagPatterns) (literalIn pre name content post) i
  = Some m ->
  m_end m = length pre + length name + 1 ->
  i <= length pre ->
  i = length pre.
Proof.
  intros tagPatterns pre name content post i m Htags Hin Hpre Hends Hm He Hi.
  destruct (wordName_in _ _ Htags Hin) as [Hname Hne].
  set (text := literalIn pre name content post) in *.
  assert (Hcode : forall t d, t < length pre + length name ->
                  charAt text t = Some d -> codeChar d = true).
  { intros t d Ht Hd. unfold text, literalIn, charAt in Hd.
    rewrite app_assoc in Hd.
    rewrite nth_error_app1 in Hd by (rewrite length_app; lia).
    apply nth_error_In in Hd. apply in_app_or in Hd as [Hd|Hd].
    - rewrite forallb_forall in Hpre. now apply Hpre.
    - rewrite forallb_forall in Hname. now apply word_codeChar, Hname. }
  assert (Hlast : exists d, charAt text (length pre + length name - 1) = Some d
                            /\ word d = true).
  { destruct (rev name) as [|d l] eqn:Hr.
    { apply (f_equal (@rev N)) in Hr. rewrite rev_involutive in Hr.
      now subst name. }
    apply (f_equal (@rev N)) in Hr. rewrite rev_involutive in Hr.
    simpl in Hr. exists d. split.
    - unfold text, literalIn. rewrite Hr.
      replace (pre ++ (rev l ++ [d]) ++ BACKTICK :: content ++ BACKTICK :: post)
        with ((pre ++ rev l) ++ d :: BACKTICK :: content ++ BACKTICK :: post)
        by lists.
      replace (length pre + length (rev l ++ [d]) - 1)
        with (length (pre ++ rev l)) by lengths.
      apply charAt_middle.
    - rewrite forallb_forall in Hname. apply Hname. rewrite Hr.
      apply in_or_app. right. now left. }
  assert (Hk : forall j caps,
            rmatch text (chr BACKTICK) j caps
              (fun j' c => Some (mkFound i j' c)) = Some m ->
            j = length pre + length name).
  { intros j caps H. unfold chr in H. rewrite rmatch_Cls in H.
    destruct (charAt text j); [|discriminate].
    destruct (N.eqb BACKTICK n); [|discriminate].
    injection H as <-. simpl in He. lia. }
  assert (Hsome : tagPatterns <> []) by (intros ->; destruct Hin).
  unfold matchAt, foldingRegex in Hm.
  rewrite (leaderNames_literal _ Hsome (wordNames_literal _ Htags)) in Hm.
  rewrite rmatch_Cat, rmatch_Grp in Hm.
  cbn [rmatch] in Hm.
  match type of Hm with
  | match ?X with _ => _ end = _ => destruct X as [x|] eqn:Hl
  end.
  - injection Hm as ->.
    apply rmatch_alts_inv in Hl as (s & Hs & Hl & Hchars).
    2:{ destruct tagPatterns; [destruct Hin|discriminate]. }
    apply rmatch_class_inv in Hl as (j & Hj & Hl & Hsp).
    apply Hk in Hl. subst j.
    assert (Hj' : i + length s = length pre + length name).
    { destruct (Nat.eq_dec (i + length s) (length pre + length name))
        as [|Hneq]; [assumption|exfalso].
      destruct Hlast as (d & Hd & Hid).
      destruct (Hsp (length pre + length name - 1)) as (d' & Hd' & Hs');
        [lia|].
      rewrite Hd in Hd'. injection Hd' as <-.
      apply word_not_space in Hid. congruence. }
    destruct (Nat.eq_dec i (length pre)) as [|Hneq]; [assumption|exfalso].
    destruct (rev pre) as [|c l] eqn:Hr.
    { apply (f_equal (@length N)) in Hr. rewrite length_rev in Hr.
      simpl in Hr. lia. }
    unfold endsWord in Hends. rewrite Hr in Hends.
    apply (f_equal (@rev N)) in Hr. rewrite rev_involutive in Hr.
    simpl in Hr.
    assert (Hc : charAt text (length (rev l)) = Some c).
    { unfold text, literalIn. rewrite Hr.
      replace ((rev l ++ [c]) ++ name ++ BACKTICK :: content ++ BACKTICK :: post)
        with (rev l ++ c :: name ++ BACKTICK :: content ++ BACKTICK :: post)
        by lists.
      apply charAt_middle. }
    assert (Hlen : length pre = length (rev l) + 1) by (rewrite Hr; lengths).
    specialize (Hchars (length (rev l) - i)).
    replace (i + (length (rev l) - i)) with (length (rev l)) in Hchars by lia.
    rewrite Hc in Hchars.
    assert (Hin' : In c s)
      by (eapply nth_error_In; symmetry; apply Hchars; lia).
    destruct (wordName_in _ _ Htags Hs) as [Hsid _].
    rewrite forallb_forall in Hsid. apply Hsid in Hin'.
    rewrite Hin' in Hends. discriminate.
  - exfalso. unfold annotatedName in Hm.
    rewrite rmatch_Cat in Hm.
    apply rmatch_advances in Hm as (j1 & c1 & Hj1 & Hm).
    cbv beta in Hm. rewrite rmatch_Cat in Hm.
    apply rmatch_advances in Hm as (j2 & c2 & Hj2 & Hm).
    cbv beta in Hm. rewrite rmatch_Cat in Hm.
    apply rmatch_advances in Hm as (j3 & c3 & Hj3 & Hm).
    cbv beta in Hm. unfold annotation in Hm. rewrite rmatch_Cat in Hm.
    apply rmatch_str_inv in Hm as [Hm Hchars].
    apply rmatch_advances in Hm as (j4 & c4 & Hj4 & Hm).
    apply Hk in Hm. simpl in Hj4.
    specialize (Hchars 0 ltac:(simpl; lia)). rewrite Nat.add_0_r in Hchars.
    simpl in Hchars. apply Hcode in Hchars; [discriminate|lia].
Qed.

(** The search for the closing backtick of a plain literal finds it. *)
Lemma find_plain : forall pre name content post,
  Literal.plain Literal.Top content = true ->
  findClosingBacktick (literalIn pre name content post)
    (length pre + length name + 1)
  = Some (Z.of_nat (length pre + length name + 1 + length content)).
Proof.
  intros pre name content post Hplain.
  pose proof (scanners_agree_upto (length content) content (le_n _)
                Literal.Top 1 (pre ++ name ++ [BACKTICK]) post
                (length pre + length name + 1)
                (S (length (literalIn pre name content post))) None None
                Hplain I) as H.
  assert (E : (pre ++ name ++ [BACKTICK]) ++ content ++ BACKTICK :: post
              = literalIn pre name content post)
    by (unfold literalIn; lists).
  assert (L : length (pre ++ name ++ [BACKTICK])
              = length pre + length name + 1) by lengths.
  cbv zeta in H. rewrite E, L in H.
  destruct H as [_ H].
  - replace (pre ++ name ++ [BACKTICK]) with ((pre ++ name) ++ [BACKTICK])
      by lists.
    now rewrite before_snoc.
  - unfold literalIn. lengths.
  - exact H.
Qed.

(** After the closing backtick the search finds nothing. *)
Lemma find_after_closing : forall pre name content post,
  noBacktick (pre ++ name) = true ->
  noBacktick content = true ->
  noBacktick post = true ->
  findClosingBacktick (literalIn pre name content post)
    (length pre + length name + 1 + length content + 1) = Some (-1)%Z.
Proof.
  intros pre name content post Hp Hc Hpost.
  set (text := literalIn pre name content post).
  set (startPos := length pre + length name + 1 + length content + 1).
  destruct (while_total (findClosingBacktick_cond text)
              (findClosingBacktick_step text) (fun _ => (-1)%Z)
              (fun st => startPos <= f_i st)
              (fun st => length text - f_i st)
              (fun r => r = (-1)%Z \/
                 ((Z.of_nat startPos <= r < Z.of_nat (length text))%Z /\
                  charAt text (Z.to_nat r) = Some BACKTICK)))
    with (fuel := S (length text)) (s := findClosingBacktick_init startPos)
    as (r & Hr & Hpost').
  - intros s s'. apply findClosingBacktick_step_next.
  - intros s r. apply findClosingBacktick_step_done.
  - intros s _ _. now left.
  - simpl. lia.
  - simpl. lia.
  - unfold findClosingBacktick. rewrite Hr.
    destruct Hpost' as [->|[Hrange Hb]]; [reflexivity|exfalso].
    destruct (backticks_of_literal pre name content post _ Hp Hc Hpost Hb);
      unfold startPos in Hrange; lia.
Qed.

(** Matches whose search finds nothing add no range. *)
Lemma foldLoop_nothing : forall document isCancellationRequested e ms k
    foldingRanges processedPositions,
  (forall k, isCancellationRequested k = false) ->
  findClosingBacktick (getText document) e = Some (-1)%Z ->
  (forall m, In m ms -> m_end m = e) ->
  exists processedPositions',
    foldLoop document isCancellationRequested k
      (foldingRanges, processedPositions) ms
    = Some (inr (foldingRanges, processedPositions')).
Proof.
  intros document cancel e. induction ms as [|m ms IH];
    intros k ranges processed Hcancel Hfind Hall; simpl; [eauto|].
  rewrite Hcancel. rewrite (Hall m (or_introl eq_refl)).
  destruct (existsb (Nat.eqb e) processed).
  - apply IH; auto. intros m' Hm'. apply Hall. now right.
  - rewrite Hfind. simpl.
    apply IH; auto. intros m' Hm'. apply Hall. now right.
Qed.

(** X26.  A document [pre name`content`post], where the configured
    names are made of word characters, [[a-zA-Z0-9_]+] (each stands for
    itself in the source of the regular expression), and [name] is one of
    them, [pre] is plain code that does not end in a word character,
    [content] is plain literal content (no backslash, quotes and braces
    closed) without backtick, and [post] holds no backtick:
    [provideFoldingRanges], not cancelled, returns the one range from the
    line of the first character of [name] to the line of the closing
    backtick when these are two lines apart or more, and no range
    otherwise. *)
Theorem single_literal_folded :
  forall tagPatterns document isCancellationRequested pre name content post,
  getText document = literalIn pre name content post ->
  (forall k, isCancellationRequested k = false) ->
  In name tagPatterns ->
  forallb wordName tagPatterns = true ->
  forallb codeChar pre = true ->
  endsWord pre = true ->
  Literal.plain Literal.Top content = true ->
  noBacktick content = true ->
  noBacktick post = true ->
  let startLine := lineAt document (length pre) in
  let endLine :=
    lineAt document (length pre + length name + 1 + length content) in
  provideFoldingRanges tagPatterns document isCancellationRequested
  = Some (if spansThreeLines startLine endLine
          then [mkRange startLine endLine] else []).
Proof.
  intros tagPatterns document cancel pre name content post
    Htext Hcancel Hin Htags Hpre Hends Hplain Hc Hpost startLine endLine.
  destruct (wordName_in _ _ Htags Hin) as [Hname _].
  pose proof (wordNames_noBacktick _ Htags) as Hnb.
  assert (Hp : noBacktick (pre ++ name) = true).
  { apply codeChar_noBacktick. rewrite forallb_app, Hpre. simpl.
    rewrite forallb_forall in *. intros c Hc'.
    now apply word_codeChar, Hname. }
  assert (Hne : tagPatterns <> []) by (intros ->; destruct Hin).
  pose proof (wordNames_literal _ Htags) as Hlit.
  destruct (first_leader_match tagPatterns annotatedName
              pre name content post Hlit Hin
              (proj2 (avoids_leaders tagPatterns Hne Hlit Hnb)) Hp Hc Hpost)
    as (m1 & Hex & Hidx & Hat & Hend).
  pose proof (folding_match_start tagPatterns pre name content post _ m1
                Htags Hin Hpre Hends Hat Hend Hidx) as Hstart.
  unfold provideFoldingRanges. rewrite Htext.
  unfold execAll. cbn [matches]. unfold foldingRegex at 1. rewrite Hex.
  replace (m_end m1 <=? 0) with false by (symmetry; apply Nat.leb_gt; lia).
  cbn [foldLoop]. rewrite Hcancel.
  unfold foldStep. cbn [existsb]. rewrite Htext, Hend, Hstart.
  rewrite (find_plain pre name content post Hplain).
  replace (Z.of_nat (length pre + length name + 1 + length content) =? -1)%Z
    with false by (symmetry; apply Z.eqb_neq; lia).
  rewrite Nat2Z.id. fold startLine. fold endLine.
  set (ms := matches _ _ _ _).
  assert (Hms : forall m, In m ms ->
                m_end m = length pre + length name + 1 + length content + 1).
  { intros m Hm.
    now apply (later_leader_matches _ pre name content post) in Hm. }
  assert (Hfind : findClosingBacktick (getText document)
                    (length pre + length name + 1 + length content + 1)
                  = Some (-1)%Z).
  { rewrite Htext. now apply find_after_closing. }
  destruct (spansThreeLines startLine endLine).
  - destruct (foldLoop_nothing document cancel _ ms 1
                ([] ++ [mkRange startLine endLine])
                ([] ++ [length pre + length name + 1]) Hcancel Hfind Hms)
      as [processed ->].
    reflexivity.
  - destruct (foldLoop_nothing document cancel _ ms 1 []
                ([] ++ [length pre + length name + 1]) Hcancel Hfind Hms)
      as [processed ->].
    reflexivity.
Qed.

(** A literal on lines 1 to 4 of a document of five lines. *)
Lemma single_literal_folded_witness :
  provideFoldingRanges Markup.defaultTags
    (documentOf
       (literalIn (lit "a;" ++ NEWLINE :: lit "x = ") (lit "html")
          (NEWLINE :: lit "<ul>" ++ NEWLINE :: lit "</ul>" ++ [NEWLINE])
          (lit ";")))
    (fun _ => false)
  = Some [mkRange 1 4].
Proof.
  apply (single_literal_folded Markup.defaultTags
           (documentOf
              (literalIn (lit "a;" ++ NEWLINE :: lit "x = ") (lit "html")
                 (NEWLINE :: lit "<ul>" ++ NEWLINE :: lit "</ul>" ++ [NEWLINE])
                 (lit ";")))
           (fun _ => false)
           (lit "a;" ++ NEWLINE :: lit "x = ") (lit "html")
           (NEWLINE :: lit "<ul>" ++ NEWLINE :: lit "</ul>" ++ [NEWLINE])
           (lit ";"));
    try reflexivity.
  left. reflexivity.
Defined.





End LiteralFacts.
